(** * OpenNMT-tf runner: a shallow embedding of [opennmt/runner.py]

    The development follows the layout of the Python module:

    - Python outcomes (normal return, raised exception) and a small
      state-and-exception monad for the code that touches the file system,
      spawns processes or writes to a stream;
    - double precision arithmetic, and [_count_batch_accum], the derivation
      of the accumulation count, which is computed in it;
    - [_auto_tune_batch_size], the binary search over trial processes;
    - [Runner._finalize_training_parameters];
    - the order restorer used by [Runner.infer];
    - [Runner.infer] and [Runner.score], with their output stream;
    - [Runner.train], with its accumulation buffers and checkpoint restore;
    - [_make_exporters] and [_restore_checkpoint].

    Integers are Python integers (unbounded), hence [Z]; [//] and [%] are the
    floored operations, which coincide with [Z.div] and [Z.modulo]. *)

From Stdlib Require Import ZArith QArith Qround Qpower Qabs Lqa Lia Ascii String.
From Stdlib Require Import Floats.SpecFloat.
From stdpp Require Import base option list gmap strings pretty.

Local Open Scope Z_scope.

(** ** Python outcomes *)

(** The exceptions the module can raise or let through. *)
Inductive exn : Type :=
  | ValueError
  | TypeError
  | ZeroDivisionError
  | OSError
  | DuplicateIndexError
  | ModelError.

(** The outcome of running a piece of code: a value, a raised exception, or
    [OutOfFuel] when the bound given to a [while] loop was not enough (the
    loop was still running). *)
Inductive outcome (A : Type) : Type :=
  | Ok (a : A)
  | Raise (e : exn)
  | OutOfFuel.
Arguments Ok {A} a.
Arguments Raise {A} e.
Arguments OutOfFuel {A}.

(** Code with side effects on a world [W]: the world is threaded through,
    and it survives a raised exception (what was written stays written). *)
Definition M (W A : Type) : Type := W -> outcome A * W.

Definition ret {W A} (a : A) : M W A := fun w => (Ok a, w).

Definition bind {W A B} (m : M W A) (k : A -> M W B) : M W B :=
  fun w =>
    match m w with
    | (Ok a, w') => k a w'
    | (Raise e, w') => (Raise e, w')
    | (OutOfFuel, w') => (OutOfFuel, w')
    end.

Definition raise {W A} (e : exn) : M W A := fun w => (Raise e, w).

Definition out_of_fuel {W A} : M W A := fun w => (OutOfFuel, w).

Definition lift {W A} (o : outcome A) : M W A := fun w => (o, w).

Definition modify {W} (f : W -> W) : M W unit := fun w => (Ok tt, f w).

Definition gets {W A} (f : W -> A) : M W A := fun w => (Ok (f w), w).

Declare Scope py_scope.
Delimit Scope py_scope with py.
Notation "x <- m ;; k" := (bind m (fun x => k))
  (at level 100, m at next level, right associativity) : py_scope.
Notation "m ;;; k" := (bind m (fun _ => k))
  (at level 100, right associativity) : py_scope.

(** A [while guard: body] loop over a loop state [S], bounded by [fuel]
    iterations. *)
Fixpoint while_loop {W S} (fuel : nat) (guard : S -> bool)
    (body : S -> M W S) (s : S) : M W S :=
  if guard s then
    match fuel with
    | O => out_of_fuel
    | Datatypes.S fuel' =>
        (s' <- body s ;; while_loop fuel' guard body s')%py
    end
  else ret s.

(** ** Configuration *)

(** A configuration entry read with [dict.get]: the key can be missing, or
    present with the value [None], or present with an integer. *)
Inductive setting : Type :=
  | Unset
  | PyNone
  | PyInt (z : Z).

(** [d.get(key)] *)
Definition get (s : setting) : option Z :=
  match s with PyInt z => Some z | _ => None end.

(** [d.get(key, default)]: an explicit [None] is returned as it is. *)
Definition get_default (s : setting) (d : Z) : option Z :=
  match s with Unset => Some d | PyNone => None | PyInt z => Some z end.

(** The entries of the run configuration that the runner reads or writes:
    [config["model_dir"]], the entries of [config["train"]] and
    [config["params"]["gradients_accum"]]. *)
Record Config : Type := {
  model_dir : string;
  batch_size : setting;
  batch_type : string;
  effective_batch_size : setting;
  train_steps : setting;
  save_checkpoints_steps : setting;
  save_summary_steps : setting;
  average_last_checkpoints : setting;
  gradients_accum : setting
}.

Definition set_batch_size (v : setting) (c : Config) : Config :=
  {| model_dir := model_dir c; batch_size := v; batch_type := batch_type c;
     effective_batch_size := effective_batch_size c;
     train_steps := train_steps c;
     save_checkpoints_steps := save_checkpoints_steps c;
     save_summary_steps := save_summary_steps c;
     average_last_checkpoints := average_last_checkpoints c;
     gradients_accum := gradients_accum c |}.

Definition set_gradients_accum (v : setting) (c : Config) : Config :=
  {| model_dir := model_dir c; batch_size := batch_size c;
     batch_type := batch_type c;
     effective_batch_size := effective_batch_size c;
     train_steps := train_steps c;
     save_checkpoints_steps := save_checkpoints_steps c;
     save_summary_steps := save_summary_steps c;
     average_last_checkpoints := average_last_checkpoints c;
     gradients_accum := v |}.

(** The three entries [_auto_tune_batch_size] overwrites in its copy of the
    configuration before the search. *)
Definition set_trial_defaults (sample_iterations : Z) (c : Config) : Config :=
  {| model_dir := model_dir c; batch_size := batch_size c;
     batch_type := batch_type c;
     effective_batch_size := effective_batch_size c;
     train_steps := PyInt sample_iterations;
     save_checkpoints_steps := PyNone;
     save_summary_steps := save_summary_steps c;
     average_last_checkpoints := PyInt 0;
     gradients_accum := gradients_accum c |}.

(** ** Double precision *)

(** Python's [float] is an IEEE 754 double: 53 significant bits, every
    operation rounded to the nearest double, ties to the even mantissa.  A
    double is modelled by the rational it stands for.  The range of the
    exponent is not modelled: an integer of [2^1024] or more, which Python
    refuses to convert ([OverflowError]), is rounded like the others. *)

(** The integer nearest to [x], the even one when two are as near. *)
Definition round_half_even (x : Q) : Z :=
  let f := Qfloor x in
  match (x - inject_Z f ?= 1 # 2)%Q with
  | Lt => f
  | Gt => f + 1
  | Eq => if Z.even f then f else f + 1
  end.

(** The integer part of the binary logarithm of a positive rational. *)
Definition ilog2 (x : Q) : Z :=
  let l := Z.log2 (Qnum x) - Z.log2 (Zpos (Qden x)) in
  if Qle_bool (2 ^ l) x then l else l - 1.

(** The double nearest to [x]: [x] is scaled to a mantissa of 53 bits, the
    mantissa rounded, and the scale put back. *)
Definition round53 (x : Q) : Q :=
  if Qeq_bool x 0 then 0%Q
  else
    let e := ilog2 (Qabs x) - 52 in
    (inject_Z (round_half_even (x / 2 ^ e)) * 2 ^ e)%Q.

(** [float(z)] of an integer, and [x / y] of two doubles. *)
Definition float (z : Z) : Q := round53 (inject_Z z).

Definition truediv (x y : Q) : Q := round53 (x / y).

(** ** [_count_batch_accum] *)

(** [int(math.ceil(float(target_batch_size) / (batch_size * num_replicas)))]:
    the target is converted to a double, the integer divisor is converted for
    the division, the quotient is the rounded one, and [math.ceil] is exact.
    A zero divisor raises [ZeroDivisionError]. *)
Definition _count_batch_accum (batch_size target_batch_size num_replicas : Z)
    : outcome Z :=
  let divisor := batch_size * num_replicas in
  if divisor =? 0 then Raise ZeroDivisionError
  else Ok (Qceiling (truediv (float target_batch_size) (float divisor))).

(** ** The world of the batch size search: files and trial processes *)

(** What a file of interest holds. *)
Inductive File : Type :=
  | YamlConfig (c : Config)          (* [yaml.dump(config, ...)] *)
  | SessionConfig (gpu_fraction : Q) (* the serialized session configuration *)
  | OtherFile.

(** A trial process that was started and waited for: its command line, the
    files it could read when it started, and its exit code. *)
Record Trial : Type := {
  trial_args : list string;
  trial_files : gmap string File;
  trial_exit : Z
}.

Record World : Type := {
  fs : gmap string File;
  spawned : list Trial
}.

(** The environment of the search: what [subprocess.Popen(args).wait()]
    gives for a command line and the files present; [None] when [Popen]
    itself raises (the executable cannot be started). *)
Record Env : Type := {
  popen : list string -> gmap string File -> option Z
}.

(** Writing a file through [tf.io.gfile.GFile(path, mode="w")].  The
    directory of the path is taken to exist, as it does once the runner has
    set up its model directory: the failure of the write in a missing
    directory is not modelled. *)
Definition write_file (path : string) (content : File) : M World unit :=
  modify (fun w => {| fs := <[path := content]> (fs w); spawned := spawned w |}).

(** [os.remove(path)]: raises [OSError] when there is no such file. *)
Definition os_remove (path : string) : M World unit :=
  fun w =>
    match fs w !! path with
    | Some _ => (Ok tt, {| fs := delete path (fs w); spawned := spawned w |})
    | None => (Raise OSError, w)
    end.

(** [process = subprocess.Popen(args, ...); exit_code = process.wait()].
    The trial is an opaque process: the model records the files it could read
    and its exit code, and takes it to leave the modelled files as they are
    (what a trial writes below the model directory is not tracked). *)
Definition popen_wait (env : Env) (args : list string) : M World Z :=
  fun w =>
    match popen env args (fs w) with
    | Some exit_code =>
        (Ok exit_code,
         {| fs := fs w;
            spawned := spawned w ++
              [{| trial_args := args; trial_files := fs w;
                  trial_exit := exit_code |}] |})
    | None => (Raise OSError, w)
    end.

Fixpoint last_is_slash (s : string) : bool :=
  match s with
  | EmptyString => false
  | String c EmptyString => Ascii.eqb c "/"
  | String _ s' => last_is_slash s'
  end.

(** [os.path.join(a, b)] for a relative [b]. *)
Definition path_join (a b : string) : string :=
  match a with
  | EmptyString => b
  | _ => if last_is_slash a then a +:+ b else a +:+ "/" +:+ b
  end.

Definition config_path_of (config : Config) : string :=
  path_join (model_dir config) "batch_size_autotuner.yml".

Definition session_config_path_of (config : Config) : string :=
  path_join (model_dir config) "batch_size_autotuner.proto".

(** ** [_auto_tune_batch_size] *)

(** The state of the [while] loop: the configuration being updated and the
    variables [min_batch_size] and [max_batch_size]. *)
Definition SearchState : Type := Config * Z * Z.

(** [max_batch_size - min_batch_size > min_range] *)
Definition search_guard (min_range : Z) (st : SearchState) : bool :=
  let '(_, min_batch_size, max_batch_size) := st in
  max_batch_size - min_batch_size >? min_range.

(** One iteration of the loop. *)
Definition search_iteration (env : Env) (config_path : string)
    (args : list string) (num_devices : Z) (st : SearchState)
    : M World SearchState :=
  let '(config, min_batch_size, max_batch_size) := st in
  let batch_size := (max_batch_size + min_batch_size) / 2 in
  let config := set_batch_size (PyInt batch_size) config in
  (config <- match get (effective_batch_size config) with
             | Some effective =>
                 (accum <- lift (_count_batch_accum batch_size effective num_devices) ;;
                  ret (set_gradients_accum (PyInt accum) config))
             | None => ret config
             end ;;
   write_file config_path (YamlConfig config) ;;;
   exit_code <- popen_wait env args ;;
   if negb (exit_code =? 0)
   then ret (config, min_batch_size, batch_size - 1)
   else ret (config, batch_size, max_batch_size))%py.

Definition _auto_tune_batch_size (fuel : nat) (env : Env) (config : Config)
    (min_batch_size max_batch_size min_range sample_iterations num_devices : Z)
    (gpu_memory_fraction : Q) : M World Z :=
  let config := set_trial_defaults sample_iterations config in
  let config_path := config_path_of config in
  (session_config_path <-
     (if negb (Qle_bool 1 gpu_memory_fraction)
      then (write_file (session_config_path_of config)
              (SessionConfig gpu_memory_fraction) ;;;
            ret (Some (session_config_path_of config)))
      else ret None) ;;
   let args :=
     ["python"; "-m"; "opennmt.bin.main"; "train";
      "--config"; config_path; "--num_gpus"; pretty num_devices]
     ++ match session_config_path with
        | Some p => ["--session_config"; p]
        | None => []
        end in
   st <- while_loop fuel (search_guard min_range)
           (search_iteration env config_path args num_devices)
           (config, min_batch_size, max_batch_size) ;;
   let '(_, min_batch_size, _) := st in
   os_remove config_path ;;;
   match session_config_path with
   | Some p => os_remove p
   | None => ret tt
   end ;;;
   ret min_batch_size)%py.

(** The default arguments of [_auto_tune_batch_size]. *)
Definition default_min_batch_size : Z := 1024.
Definition default_max_batch_size : Z := 16384.
Definition default_min_range : Z := 256.
Definition default_sample_iterations : Z := 5.
Definition default_gpu_memory_fraction : Q := 8 # 10.

(** ** [Runner._finalize_training_parameters] *)

(** The attributes of a runner that the modelled methods use; [__init__]
    sets [_num_replicas] to [num_devices]. *)
Record Runner : Type := {
  config : Config;
  num_devices : Z
}.

Definition num_replicas (r : Runner) : Z := num_devices r.

Definition with_config (c : Config) (r : Runner) : Runner :=
  {| config := c; num_devices := num_devices r |}.

(** [batch_size is None or batch_size == 0] *)
Definition none_or_zero (v : option Z) : bool :=
  match v with
  | None => true
  | Some z => z =? 0
  end.

Definition _finalize_training_parameters (fuel : nat) (env : Env) (r : Runner)
    : M World Runner :=
  let train_config := config r in
  (train_config <-
     (* Auto tune batch size. *)
     (if none_or_zero (get (batch_size train_config)) then
        if String.eqb (batch_type train_config) "examples" then raise ValueError
        else
          let max_batch_size :=
            match get (effective_batch_size train_config) with
            | Some effective => Z.min default_max_batch_size effective
            | None => default_max_batch_size
            end in
          (tuned <- _auto_tune_batch_size fuel env train_config
                      default_min_batch_size max_batch_size default_min_range
                      default_sample_iterations (num_devices r)
                      default_gpu_memory_fraction ;;
           ret (set_batch_size (PyInt tuned) train_config))
      else ret train_config) ;;
   (* Set gradients accumulation based on the requested effective batch
      size. *)
   match get (effective_batch_size train_config) with
   | Some effective =>
       match get (batch_size train_config) with
       | Some b =>
           (accum <- lift (_count_batch_accum b effective (num_replicas r)) ;;
            ret (with_config (set_gradients_accum (PyInt accum) train_config) r))
       | None => raise TypeError (* not reached: the batch size is set by now *)
       end
   | None => ret (with_config train_config r)
   end)%py.

(** ** The order restorer *)

(** Modelled from the spec: [misc.OrderRestorer], which [Runner.infer]
    builds and pushes to, lives in [opennmt/utils/misc.py] and is not among
    the sources; the definitions below follow section 4.4 of the
    specification.  [next_expected] starts at 0 and [pending] holds the
    items received ahead of it. *)
Record OrderRestorer (P : Type) : Type := {
  next_expected : nat;
  pending : gmap nat P
}.
Arguments next_expected {P} _.
Arguments pending {P} _.

(** Modelled from the spec: a new restorer expects index 0 and holds
    nothing. *)
Definition new_restorer {P} : OrderRestorer P :=
  {| next_expected := 0%nat; pending := ∅ |}.

(** Modelled from the spec: one round of the drain, releasing the pending
    item whose index is [next_expected]. *)
Definition drain_guard {P} (r : OrderRestorer P) : bool :=
  bool_decide (is_Some (pending r !! next_expected r)).

Definition drain_step {W P} (callback_fn : P -> M W unit) (r : OrderRestorer P)
    : M W (OrderRestorer P) :=
  match pending r !! next_expected r with
  | Some x =>
      (callback_fn x ;;;
       ret {| next_expected := S (next_expected r);
              pending := delete (next_expected r) (pending r) |})%py
  | None => ret r
  end.

(** Modelled from the spec: "drain the PendingBuffer for as long as it
    contains [next_expected]".  Every round removes one pending item, so the
    number of pending items bounds the number of rounds. *)
Definition drain {W P} (callback_fn : P -> M W unit) (r : OrderRestorer P)
    : M W (OrderRestorer P) :=
  while_loop (size (pending r)) drain_guard (drain_step callback_fn) r.

(** Modelled from the spec: [push(item)]. *)
Definition push {W P} (index_fn : P -> nat) (callback_fn : P -> M W unit)
    (x : P) (r : OrderRestorer P) : M W (OrderRestorer P) :=
  let index := index_fn x in
  if (index =? next_expected r)%nat then
    (callback_fn x ;;;
     drain callback_fn
       {| next_expected := S (next_expected r); pending := pending r |})%py
  else if (next_expected r <? index)%nat then
    match pending r !! index with
    | Some _ => raise DuplicateIndexError
    | None =>
        ret {| next_expected := next_expected r;
               pending := <[index := x]> (pending r) |}
    end
  else raise DuplicateIndexError.

(** Pushing a sequence of items one at a time. *)
Fixpoint push_all {W P} (index_fn : P -> nat) (callback_fn : P -> M W unit)
    (xs : list P) (r : OrderRestorer P) : M W (OrderRestorer P) :=
  match xs with
  | [] => ret r
  | x :: xs' =>
      (r' <- push index_fn callback_fn x r ;;
       push_all index_fn callback_fn xs' r')%py
  end.

(** A sink that records what it receives, in order. *)
Definition record_sink {P} (x : P) : M (list P) unit :=
  modify (fun sink => sink ++ [x]).

(** ** The output stream of [infer] and [score] *)

Inductive StreamStatus : Type :=
  | NotOpened
  | Opened
  | Closed.

(** The file named by [predictions_file] or [output_file], and the standard
    output. *)
Record IOWorld : Type := {
  file_status : StreamStatus;
  file_lines : list string;
  stdout_lines : list string
}.

Inductive Stream : Type :=
  | FileStream
  | Stdout.

(** The truth value of an optional file name: [None] and the empty string
    are false. *)
Definition truthy (name : option string) : bool :=
  match name with
  | Some s => negb (String.eqb s "")
  | None => false
  end.

(** [io.open(name, encoding="utf-8", mode="w")] *)
Definition io_open : M IOWorld Stream :=
  fun w =>
    (Ok FileStream,
     {| file_status := Opened; file_lines := [];
        stdout_lines := stdout_lines w |}).

(** [stream.close()] *)
Definition stream_close (s : Stream) : M IOWorld unit :=
  match s with
  | FileStream =>
      modify (fun w => {| file_status := Closed; file_lines := file_lines w;
                          stdout_lines := stdout_lines w |})
  | Stdout => ret tt
  end.

(** Writing one line to the stream; a file that is not open refuses it. *)
Definition stream_write (s : Stream) (line : string) : M IOWorld unit :=
  match s with
  | FileStream =>
      fun w =>
        match file_status w with
        | Opened =>
            (Ok tt, {| file_status := Opened;
                       file_lines := file_lines w ++ [line];
                       stdout_lines := stdout_lines w |})
        | _ => (Raise ValueError, w)
        end
  | Stdout =>
      modify (fun w => {| file_status := file_status w;
                          file_lines := file_lines w;
                          stdout_lines := stdout_lines w ++ [line] |})
  end.

(** ** [Runner.infer] *)

(** One example of a batch of predictions, as [misc.extract_batches] yields
    it: the ["index"] entry when the dataset provides one, and the text that
    [print_prediction] writes. *)
Record Prediction : Type := {
  index : option nat;
  text : string
}.

(** What one round of [for source in dataset] meets: the predictions of the
    batch, or the exception raised while computing them; the time spent in
    [_infer]; the sum of the ["length"] entry when there is one. *)
Record InferBatch : Type := {
  batch_predictions : exn + list Prediction;
  batch_time : Q;
  batch_tokens : option Z
}.

Record InferTotals : Type := {
  total_time : Q;
  total_tokens : Z;
  total_examples : Z
}.

Definition index_of (p : Prediction) : nat :=
  match index p with Some i => i | None => 0%nat end.

Definition write_fn (stream : Stream) (p : Prediction) : M IOWorld unit :=
  stream_write stream (text p).

(** The inner loop [for prediction in misc.extract_batches(predictions)];
    [ordered_writer] is created at the first prediction that has an index. *)
Fixpoint write_predictions (stream : Stream) (ps : list Prediction)
    (ordered_writer : option (OrderRestorer Prediction))
    : M IOWorld (option (OrderRestorer Prediction)) :=
  match ps with
  | [] => ret ordered_writer
  | p :: ps' =>
      match index p with
      | Some _ =>
          let writer := match ordered_writer with
                        | Some r => r
                        | None => new_restorer
                        end in
          (r <- push index_of (write_fn stream) p writer ;;
           write_predictions stream ps' (Some r))%py
      | None =>
          (write_fn stream p ;;;
           write_predictions stream ps' ordered_writer)%py
      end
  end.

Definition add_totals (b : InferBatch) (n : nat) (t : InferTotals) : InferTotals :=
  {| total_time := total_time t + batch_time b;
     total_tokens := match batch_tokens b with
                     | Some k => total_tokens t + k
                     | None => total_tokens t
                     end;
     total_examples := total_examples t + Z.of_nat n |}.

(** The loop [for source in dataset]. *)
Fixpoint infer_loop (stream : Stream) (log_time : bool)
    (dataset : list InferBatch)
    (ordered_writer : option (OrderRestorer Prediction)) (t : InferTotals)
    : M IOWorld InferTotals :=
  match dataset with
  | [] => ret t
  | b :: dataset' =>
      match batch_predictions b with
      | inl e => raise e
      | inr ps =>
          let t := if log_time then add_totals b (length ps) t else t in
          (writer <- write_predictions stream ps ordered_writer ;;
           infer_loop stream log_time dataset' writer t)%py
      end
  end.

(** [Runner.infer], from the point where the output stream is chosen (the
    dataset and the restored checkpoint come before any stream exists). *)
Definition infer (predictions_file : option string) (log_time : bool)
    (dataset : list InferBatch) : M IOWorld unit :=
  (stream <- (if truthy predictions_file then io_open else ret Stdout) ;;
   t <- infer_loop stream log_time dataset None
          {| total_time := 0; total_tokens := 0; total_examples := 0 |} ;;
   (if log_time then
      (* [total_time / total_examples], a Python float by a Python integer.
         The other quotient, [total_tokens / total_time], is taken when
         [total_tokens > 0]: [total_tokens] is then a numpy integer, and
         numpy gives [inf] for a zero [total_time] where Python would
         raise. *)
      if total_examples t =? 0 then raise ZeroDivisionError else ret tt
    else ret tt) ;;;
   if truthy predictions_file then stream_close stream else ret tt)%py.

(** ** [Runner.score] *)

Inductive ModelKind : Type :=
  | LanguageModel
  | SequenceToSequence
  | OtherModel.

(** The inner loop of [score]: one formatted line per example. *)
Fixpoint write_lines (stream : Stream) (lines : list string) : M IOWorld unit :=
  match lines with
  | [] => ret tt
  | l :: lines' => (stream_write stream l ;;; write_lines stream lines')%py
  end.

(** The loop [for source, target in dataset]: every batch gives the formatted
    lines of its examples, or the exception raised while scoring it. *)
Fixpoint score_loop (stream : Stream) (dataset : list (exn + list string))
    : M IOWorld unit :=
  match dataset with
  | [] => ret tt
  | inl e :: _ => raise e
  | inr lines :: dataset' =>
      (write_lines stream lines ;;; score_loop stream dataset')%py
  end.

Definition score (model : ModelKind) (predictions_file output_file : option string)
    (dataset : list (exn + list string)) : M IOWorld unit :=
  match model with
  | OtherModel => raise ValueError
  | _ =>
      if match model with SequenceToSequence => negb (truthy predictions_file)
         | _ => false end
      then raise ValueError
      else
        (stream <- (if truthy output_file then io_open else ret Stdout) ;;
         score_loop stream dataset ;;;
         if truthy output_file then stream_close stream else ret tt)%py
  end.

(** ** [Runner.train] *)

(** [a % b] of a Python integer [a], where [b] was read from the
    configuration. *)
Definition py_mod (a : Z) (b : option Z) : outcome Z :=
  match b with
  | None => Raise TypeError
  | Some b' => if b' =? 0 then Raise ZeroDivisionError else Ok (a mod b')
  end.

(** [step % b] where [step] is [optimizer.iterations.numpy()], a numpy
    integer: numpy gives 0 for a zero [b] (with a warning) where Python
    would raise; the sign of the result is that of [b], as in Python. *)
Definition np_mod (step : Z) (b : option Z) : outcome Z :=
  match b with
  | None => Raise TypeError
  | Some b' => if b' =? 0 then Ok 0 else Ok (step mod b')
  end.

(** [a == b] where [b] may be [None]. *)
Definition py_eq (a : Z) (b : option Z) : bool :=
  match b with
  | Some b' => a =? b'
  | None => false
  end.

(** The checkpoints on disk, as the training loop sees them:
    [tf.io.gfile.isdir], [tf.train.latest_checkpoint] (which is also what
    the checkpoint manager reports for its directory), the value of
    [optimizer.iterations] a checkpoint holds, and the task type of
    [TF_CONFIG] when the variable is set. *)
Record CkptEnv : Type := {
  isdir : string -> bool;
  latest_checkpoint : string -> option string;
  checkpoint_iterations : string -> Z;
  tf_config_task_type : option string
}.

(** [Runner.is_chief] *)
Definition is_chief (cenv : CkptEnv) : bool :=
  match tf_config_task_type cenv with
  | None => true
  | Some t => String.eqb t "chief"
  end.

Section Training.

(** Gradients are tensors of a type [T] with an addition and
    [tf.zeros_like]. *)
Context {T : Type}.
Variable tadd : T -> T -> T.
Variable zeros_like : T -> T.

(** What a training run does, in order. *)
Inductive TrainEvent : Type :=
  | EvRestored (path : string)
  | EvStep (i : nat) (step_gradients : list T)
  | EvApplied (i : nat) (values : list T)
  | EvReport (step : Z)
  | EvSaved (step : Z)
  | EvAveraged (max_count : Z).

(** The state of a training run: the files and trial processes of the batch
    size search, the accumulation buffers [gradients],
    [optimizer.iterations], and the events so far. *)
Record TrainWorld : Type := {
  world : World;
  gradients : list T;
  iterations : Z;
  trace : list TrainEvent
}.

Definition lift_world {A} (m : M World A) : M TrainWorld A :=
  fun w =>
    let '(o, w') := m (world w) in
    (o, {| world := w'; gradients := gradients w;
           iterations := iterations w; trace := trace w |}).

Definition log_event (ev : TrainEvent) : M TrainWorld unit :=
  modify (fun w => {| world := world w; gradients := gradients w;
                      iterations := iterations w;
                      trace := trace w ++ [ev] |}).

(** [for gradient, step_gradient in zip(gradients, step_gradients):
      gradient.assign_add(step_gradient)]; a buffer that has no partner in
    the zip is left as it is. *)
Fixpoint assign_add (buffers step_gradients : list T) : list T :=
  match buffers, step_gradients with
  | b :: buffers', g :: step_gradients' =>
      tadd b g :: assign_add buffers' step_gradients'
  | _, _ => buffers
  end.

(** The part of [_step] that touches the buffers: they are allocated at the
    first call, then the gradients of the step are added to them. *)
Definition _step (i : nat) (step_gradients : list T) : M TrainWorld unit :=
  modify (fun w =>
    let buffers := match gradients w with
                   | [] => map zeros_like step_gradients
                   | _ => gradients w
                   end in
    {| world := world w;
       gradients := assign_add buffers step_gradients;
       iterations := iterations w;
       trace := trace w ++ [EvStep i step_gradients] |}).

(** [_apply_gradients]: the buffers are handed to the optimizer, which
    counts one more iteration, then every buffer is reset. *)
Definition _apply_gradients (i : nat) : M TrainWorld unit :=
  modify (fun w =>
    {| world := world w;
       gradients := map zeros_like (gradients w);
       iterations := iterations w + 1;
       trace := trace w ++ [EvApplied i (gradients w)] |}).

(** The loop [for i, (source, target) in enumerate(dataset)].  A batch is
    given by the gradients [optimizer.get_gradients] computes for it; the
    loss and the word counters, which only feed the log line of the report,
    are left out. *)
Fixpoint train_loop (accum_count report_every save_steps train_steps : option Z)
    (i : nat) (dataset : list (list T)) : M TrainWorld unit :=
  match dataset with
  | [] => ret tt
  | g :: dataset' =>
      (_step i g ;;;
       apply_now <- (if (i =? 0)%nat then ret true
                     else (m <- lift (py_mod (Z.of_nat i + 1) accum_count) ;;
                           ret (m =? 0))) ;;
       (if apply_now : bool then _apply_gradients i else ret tt) ;;;
       step <- gets iterations ;;
       r <- lift (np_mod step report_every) ;;
       (if r =? 0 then log_event (EvReport step) else ret tt) ;;;
       s <- lift (np_mod step save_steps) ;;
       (if (s =? 0) || py_eq step train_steps
        then log_event (EvSaved step) else ret tt) ;;;
       if py_eq step train_steps then ret tt
       else train_loop accum_count report_every save_steps train_steps
              (S i) dataset')%py
  end.

(** [checkpoint.restore(checkpoint_path)] *)
Definition restore (cenv : CkptEnv) (path : string) : M TrainWorld unit :=
  modify (fun w =>
    {| world := world w; gradients := gradients w;
       iterations := checkpoint_iterations cenv path;
       trace := trace w ++ [EvRestored path] |}).

(** [Runner._maybe_average_checkpoints]; [average_checkpoints] is taken to
    return the directory it is given, "model_dir/avg". *)
Definition _maybe_average_checkpoints (cenv : CkptEnv) (c : Config)
    : M TrainWorld string :=
  match get_default (average_last_checkpoints c) 0 with
  | None => raise TypeError
  | Some average_last =>
      if (0 <? average_last) && is_chief cenv then
        (log_event (EvAveraged average_last) ;;;
         ret (path_join (model_dir c) "avg"))%py
      else ret (model_dir c)
  end.

Definition train (fuel : nat) (env : Env) (cenv : CkptEnv) (r : Runner)
    (dataset : list (list T)) (checkpoint_path : option string)
    : M TrainWorld string :=
  (r <- lift_world (_finalize_training_parameters fuel env r) ;;
   let train_config := config r in
   let train_steps := get (train_steps train_config) in
   let output_dir := model_dir train_config in
   let save_steps := get_default (save_checkpoints_steps train_config) 5000 in
   let checkpoint_path :=
     match checkpoint_path with
     | Some p => if isdir cenv p then latest_checkpoint cenv p else Some p
     | None => latest_checkpoint cenv output_dir
     end in
   reached <- match checkpoint_path with
              | Some p =>
                  (restore cenv p ;;;
                   step <- gets iterations ;;
                   ret (match train_steps with
                        | Some n => n <=? step
                        | None => false
                        end))
              | None => ret false
              end ;;
   if reached : bool then ret output_dir
   else
     let report_every := get_default (save_summary_steps train_config) 100 in
     let accum_count := get_default (gradients_accum train_config) 1 in
     (train_loop accum_count report_every save_steps train_steps 0 dataset ;;;
      _maybe_average_checkpoints cenv train_config))%py.

End Training.

Definition initial_world : World := {| fs := ∅; spawned := [] |}.

Definition initial_train_world {T} (w : World) : @TrainWorld T :=
  {| world := w; gradients := []; iterations := 0; trace := [] |}.

Definition initial_io : IOWorld :=
  {| file_status := NotOpened; file_lines := []; stdout_lines := [] |}.

(** ** [_make_exporters] *)

(** [str.lower()] on a string of bytes: the letters [A] to [Z] become [a]
    to [z], every other byte is kept.  Python also lowers letters outside
    ASCII; the names compared against below are plain ASCII, and a name
    that holds a letter outside ASCII is none of them either way. *)
Definition lower_char (c : ascii) : ascii :=
  let n := nat_of_ascii c in
  if ((65 <=? n) && (n <=? 90))%nat then ascii_of_nat (n + 32) else c.

Fixpoint lower (s : string) : string :=
  match s with
  | EmptyString => EmptyString
  | String c s' => String (lower_char c) (lower s')
  end.

(** The value of [config["eval"]["exporters"]]: [None], one name, or a list
    of names (strings). *)
Inductive ExportersType : Type :=
  | ExportersNone
  | ExportersName (name : string)
  | ExportersNames (names : list string).

(** The three exporters of [tf.estimator], with the arguments they are
    built with. *)
Inductive Exporter (F A : Type) : Type :=
  | LatestExporter (name : string) (serving_input_fn : F) (assets_extra : A)
  | FinalExporter (name : string) (serving_input_fn : F) (assets_extra : A)
  | BestExporter (name : string) (serving_input_fn : F) (assets_extra : A).
Arguments LatestExporter {F A} name serving_input_fn assets_extra.
Arguments FinalExporter {F A} name serving_input_fn assets_extra.
Arguments BestExporter {F A} name serving_input_fn assets_extra.

(** What [_make_exporters] returns: [None], one exporter, or a list. *)
Inductive Exporters (F A : Type) : Type :=
  | NoExporters
  | OneExporter (e : Exporter F A)
  | ExporterList (es : list (Exporter F A)).
Arguments NoExporters {F A}.
Arguments OneExporter {F A} e.
Arguments ExporterList {F A} es.

(** The loop [for exporter_type in exporters_type], with the list
    [exporters] built so far. *)
Fixpoint make_exporters_loop {F A} (serving_input_fn : F) (assets_extra : A)
    (exporters_type : list string) (exporters : list (Exporter F A))
    : outcome (list (Exporter F A)) :=
  match exporters_type with
  | [] => Ok exporters
  | exporter_type :: rest =>
      let exporter_type := lower exporter_type in
      if String.eqb exporter_type "last" then
        make_exporters_loop serving_input_fn assets_extra rest
          (exporters ++ [LatestExporter "latest" serving_input_fn assets_extra])
      else if String.eqb exporter_type "final" then
        make_exporters_loop serving_input_fn assets_extra rest
          (exporters ++ [FinalExporter "final" serving_input_fn assets_extra])
      else if String.eqb exporter_type "best" then
        make_exporters_loop serving_input_fn assets_extra rest
          (exporters ++ [BestExporter "best" serving_input_fn assets_extra])
      else Raise ValueError
  end.

Definition _make_exporters {F A} (exporters_type : ExportersType)
    (serving_input_fn : F) (assets_extra : A) : outcome (Exporters F A) :=
  match exporters_type with
  | ExportersNone => Ok NoExporters
  | _ =>
      let exporters_type :=
        match exporters_type with
        | ExportersNames names => names
        | ExportersName name => [name]
        | ExportersNone => []
        end in
      match make_exporters_loop serving_input_fn assets_extra exporters_type [] with
      | Ok exporters =>
          match exporters with
          | [e] => Ok (OneExporter e)
          | _ => Ok (ExporterList exporters)
          end
      | Raise e => Raise e
      | OutOfFuel => OutOfFuel
      end
  end.

(** ** [_restore_checkpoint] *)

(** The path [_restore_checkpoint] hands to [checkpoint.restore] and
    returns; [None] is Python's [None], which [tf.train.latest_checkpoint]
    gives for a directory without a checkpoint. *)
Definition _restore_checkpoint (cenv : CkptEnv) (model_dir : string)
    (checkpoint_path : option string) : option string :=
  let checkpoint_path :=
    match checkpoint_path with
    | None => model_dir
    | Some p => p
    end in
  if isdir cenv checkpoint_path then latest_checkpoint cenv checkpoint_path
  else Some checkpoint_path.

(** * The binary search as the specification words it *)

(** What a trial process of the log was asked to try (the batch size of the
    configuration file it was given) and how it ended. *)
Definition trial_observation (config_path : string) (t : Trial) : option Z * Z :=
  (match trial_files t !! config_path with
   | Some (YamlConfig c) => get (batch_size c)
   | _ => None
   end,
   trial_exit t).

(** Section 4.3 of the specification: at each iteration the candidate is
    [floor((low + high) / 2)]; exit code zero moves [low] to the candidate,
    any other exit code moves [high] below it; the search ends when
    [high - low <= precision] and returns [low].  The list holds the
    candidate and exit code of every trial, in order. *)
Inductive spec_binary_search (precision : Z)
    : Z -> Z -> list (option Z * Z) -> Z -> Prop :=
  | spec_search_done low high :
      high - low <= precision ->
      spec_binary_search precision low high [] low
  | spec_search_feasible low high rest v :
      precision < high - low ->
      spec_binary_search precision ((low + high) / 2) high rest v ->
      spec_binary_search precision low high
        ((Some ((low + high) / 2), 0) :: rest) v
  | spec_search_infeasible low high exit_code rest v :
      precision < high - low ->
      exit_code <> 0 ->
      spec_binary_search precision low ((low + high) / 2 - 1) rest v ->
      spec_binary_search precision low high
        ((Some ((low + high) / 2), exit_code) :: rest) v.


(** The environment judges a trial by its batch size alone: the exit code is
    zero exactly when the batch size is at most [limit]. *)
Definition feasible_up_to (env : Env) (config_path : string) (limit : Z) : Prop :=
  forall args files c b exit_code,
    files !! config_path = Some (YamlConfig c) ->
    get (batch_size c) = Some b ->
    popen env args files = Some exit_code ->
    (exit_code = 0 <-> b <= limit).


(** * Definitions for the proofs *)

(** ** The count of [_count_batch_accum] in the library's binary64 *)

(** The rational a finite [spec_float] stands for. *)
Definition binary64_value (f : spec_float) : option Q :=
  match f with
  | S754_zero _ => Some 0%Q
  | S754_finite s m e =>
      Some ((if s then -1 else 1) * inject_Z (Zpos m) * 2 ^ e)%Q
  | _ => None
  end.

(** The computation of [_count_batch_accum] with the conversions and the
    division of the Standard Library's IEEE 754 specification, at 53 bits of
    precision and the exponent range of a double; [None] when the quotient
    is not finite. *)
Definition binary64_count (batch_size target_batch_size num_replicas : Z)
    : option Z :=
  Qceiling <$>
    binary64_value
      (SFdiv 53 1024 (binary_normalize 53 1024 target_batch_size 0 false)
                     (binary_normalize 53 1024 (batch_size * num_replicas) 0 false)).

(** Arguments on which the two computations are compared: small ones, ties
    of the conversion and of the division, and integers far above [2^53]. *)
Definition count_samples : list (Z * Z * Z) :=
  [(512, 4096, 2); (1024, 512, 1); (1, 2 ^ 53 + 1, 1); (1, 2 ^ 53 + 3, 1);
   (3, 10, 1); (7, 2 ^ 60 + 12345, 3); (1, 1, 3); (1, 0, 3); (1, -7, 3);
   (3, 2 ^ 53 - 1, 1); (2 ^ 53 + 1, 2 ^ 54 + 3, 2 ^ 10 + 1);
   (12345, 2 ^ 100 + 1, 7); (2 ^ 70 + 5, 2 ^ 200 + 2 ^ 100 + 1, 3);
   (-3, 2 ^ 64 + 1, 5); (49, 2 ^ 55 + 2 ^ 2, 1)].

(** The bounds held by a state of the search loop. *)
Definition search_low (st : SearchState) : Z := snd (fst st).
Definition search_high (st : SearchState) : Z := snd st.

(** ** The phases of [_auto_tune_batch_size] *)

(** The world once the session configuration has been written (it is
    written only when [gpu_memory_fraction < 1]). *)
Definition after_session_write (config : Config) (gpu : Q) (w : World) : World :=
  if Qle_bool 1 gpu then w
  else {| fs := <[session_config_path_of config := SessionConfig gpu]> (fs w);
          spawned := spawned w |}.

(** The command line of the trial processes. *)
Definition search_args (config : Config) (nd : Z) (gpu : Q) : list string :=
  ["python"; "-m"; "opennmt.bin.main"; "train";
   "--config"; config_path_of config; "--num_gpus"; pretty nd]
  ++ (if Qle_bool 1 gpu then []
      else ["--session_config"; session_config_path_of config]).

(** ** Invariants of the order restorer *)

Definition pending_items {P} (r : OrderRestorer P) : list P :=
  (map_to_list (pending r)).*2.

(** What holds of a restorer after the items [pushed] went in, possibly in
    the middle of a drain, [released] being the items handed to the callback
    so far: these are the items of index [0 .. next_expected - 1] in order,
    released and buffered items together are exactly what was pushed, and
    every buffered item sits under its own index, not below
    [next_expected]. *)
Definition restorer_state {P} (index_fn : P -> nat) (pushed : list P)
    (r : OrderRestorer P) (released : list P) : Prop :=
  index_fn <$> released = seq 0 (next_expected r) /\
  released ++ pending_items r ≡ₚ pushed /\
  forall i x, pending r !! i = Some x ->
              index_fn x = i /\ (next_expected r <= i)%nat.

(** Between two pushes nothing that could be released is buffered. *)
Definition restorer_inv {P} (index_fn : P -> nat) (pushed : list P)
    (r : OrderRestorer P) (released : list P) : Prop :=
  restorer_state index_fn pushed r released /\
  pending r !! next_expected r = None.

(** A callback that, in a world that is [good], returns and adds the label
    of its item at the end of the sink, leaving the world [good]. *)
Definition records_to {W P X} (callback_fn : P -> M W unit) (good : W -> Prop)
    (sink_of : W -> list X) (label : P -> X) : Prop :=
  forall x w, good w ->
    exists w', callback_fn x w = (Ok tt, w') /\ good w' /\
               sink_of w' = sink_of w ++ [label x].

(** The sink holds what it held at first, then the labels of the released
    items. *)
Definition sink_holds {W P X} (good : W -> Prop) (sink_of : W -> list X)
    (label : P -> X) (sink0 : list X) (w : W) (released : list P) : Prop :=
  good w /\ sink_of w = sink0 ++ (label <$> released).

(** The predictions of a dataset, batch after batch. *)
Definition all_predictions (dataset : list InferBatch) : list Prediction :=
  flat_map (fun b => match batch_predictions b with
                     | inr ps => ps
                     | inl _ => []
                     end) dataset.

(** A batch that was computed without error and whose predictions all carry
    an index. *)
Definition indexed_batch (b : InferBatch) : Prop :=
  exists ps, batch_predictions b = inr ps /\
             Forall (fun p => is_Some (index p)) ps.

(** The restorer [infer] pushes to: the one it has, or a new one. *)
Definition writer_of (ordered_writer : option (OrderRestorer Prediction))
    : OrderRestorer Prediction :=
  match ordered_writer with
  | Some r => r
  | None => new_restorer
  end.

(** ** The open stream as an invariant *)

(** Code that, started with the output file open, leaves it open whatever
    its outcome, returns a value that satisfies [Q] when it returns, and
    does not run out of fuel. *)
Definition keeps_open {A} (Q : A -> Prop) (m : M IOWorld A) : Prop :=
  forall w, file_status w = Opened ->
    match m w with
    | (Ok a, w') => file_status w' = Opened /\ Q a
    | (Raise _, w') => file_status w' = Opened
    | (OutOfFuel, _) => False
    end.

(** ** Accumulation windows *)

(** [l[lo:hi]] *)
Definition slice {A} (lo hi : nat) (l : list A) : list A := drop lo (take hi l).

(** Whether the loop applies the gradients at step [i]:
    [i == 0 or (i + 1) % accum_count == 0]. *)
Definition apply_at (accum_count : Z) (i : nat) : bool :=
  (i =? 0)%nat || ((Z.of_nat i + 1) mod accum_count =? 0).

(** The number of steps accumulated by the application at step [i]: one at
    the first step, [accum_count - 1] at step [accum_count - 1], and
    [accum_count] afterwards. *)
Definition window_len (accum_count : Z) (i : nat) : nat :=
  if (i =? 0)%nat then 1%nat
  else if Z.of_nat i =? accum_count - 1 then Z.to_nat (accum_count - 1)
  else Z.to_nat accum_count.

(** The first step not yet applied when the loop reaches step [i]. *)
Definition pending_start (accum_count : Z) (i : nat) : nat :=
  if (i =? 0)%nat then 0%nat
  else if Z.of_nat i <? accum_count then 1%nat
  else Z.to_nat (Z.of_nat i - Z.of_nat i mod accum_count).

Section AccumulationModel.

Context {T : Type}.
Variable tadd : T -> T -> T.
Variable zeros_like : T -> T.

(** The buffers after the steps of a window were added up, starting from
    the gradients of its first step. *)
Definition accumulate (window : list (list T)) : list T :=
  match window with
  | [] => []
  | g :: window' => fold_left (assign_add tadd) window' g
  end.

(** The gradients of variable [j] in the steps of a window, and their sum
    [g_1 + g_2 + ... + g_m]. *)
Definition column (j : nat) (window : list (list T)) : list T :=
  omap (fun g => g !! j) window.

Definition var_sum (xs : list T) : option T :=
  match xs with
  | [] => None
  | x :: xs' => Some (fold_left tadd xs' x)
  end.

(** [n] buffers that all hold zeros. *)
Definition zero_vec (n : nat) (buffers : list T) : Prop :=
  length buffers = n /\ Forall (fun b => exists u, b = zeros_like u) buffers.

(** The part of an iteration of the training loop that follows the
    application of the gradients: the report, the checkpoint, and whether
    the loop stops. *)
Definition after_apply (report_every save_steps train_steps : option Z)
    : M (@TrainWorld T) bool :=
  (step <- gets iterations ;;
   r <- lift (np_mod step report_every) ;;
   (if r =? 0 then log_event (EvReport step) else ret tt) ;;;
   s <- lift (np_mod step save_steps) ;;
   (if (s =? 0) || py_eq step train_steps
    then log_event (EvSaved step) else ret tt) ;;;
   ret (py_eq step train_steps))%py.

(** The world after the step [i] of the loop added its gradients [g] and,
    when the step is one that applies, after the application. *)
Definition stepped (k : Z) (i : nat) (g : list T) (w : @TrainWorld T)
    : @TrainWorld T :=
  let w1 := snd (_step tadd zeros_like i g w) in
  if apply_at k i then snd (_apply_gradients zeros_like i w1) else w1.

Definition is_bookkeeping (ev : @TrainEvent T) : Prop :=
  match ev with
  | EvStep _ _ | EvApplied _ _ => False
  | _ => True
  end.

(** The events of the accumulation: the steps and the applications. *)
Definition accum_event (ev : @TrainEvent T) : bool :=
  match ev with
  | EvStep _ _ | EvApplied _ _ => true
  | _ => false
  end.

(** What the first [j] steps of a loop with accumulation count [k] do to the
    buffers, in order: every step adds its gradients, and a step that applies
    hands over the sum of the gradients of its window. *)
Definition accumulation_schedule (k : Z) (ds : list (list T)) (j : nat)
    : list (@TrainEvent T) :=
  flat_map
    (fun i =>
       match ds !! i with
       | Some g =>
           EvStep i g ::
           (if apply_at k i
            then [EvApplied i
                    (accumulate (slice (S i - window_len k i) (S i) ds))]
            else [])
       | None => []
       end)
    (seq 0 j).

(** What holds when the loop, run with accumulation count [k] over the
    dataset [ds] whose gradients have [n] entries, is about to take step
    [i]; [tr0] is the trace before the loop. *)
Definition accum_inv (k : Z) (n : nat) (ds : list (list T))
    (tr0 : list (@TrainEvent T)) (i : nat) (w : @TrainWorld T) : Prop :=
  exists tr,
    trace w = tr0 ++ tr /\
    (forall i' vals, EvApplied i' vals ∈ tr ->
       (i' < i)%nat /\ (i' < length ds)%nat /\ apply_at k i' = true /\
       vals = accumulate (slice (S i' - window_len k i') (S i') ds)) /\
    (forall i' g, EvStep i' g ∈ tr ->
       (i' < i)%nat /\ ds !! i' = Some g /\
       (apply_at k i' = true -> exists vals, EvApplied i' vals ∈ tr)) /\
    (if decide (pending_start k i = i)
     then gradients w = [] \/ zero_vec n (gradients w)
     else gradients w = accumulate (slice (pending_start k i) i ds)).

End AccumulationModel.

(** Code that only adds events at the end of the trace. *)
Definition appends_to_trace {T A} (m : M (@TrainWorld T) A) : Prop :=
  forall w, exists tr, trace (snd (m w)) = trace w ++ tr.

(** ** The trials of a search *)

(** What the search keeps fixed in the configuration it updates from one
    iteration to the next. *)
Definition search_config_inv (config : Config) (si : Z) (c : Config) : Prop :=
  model_dir c = model_dir config /\
  batch_type c = batch_type config /\
  effective_batch_size c = effective_batch_size config /\
  save_summary_steps c = save_summary_steps config /\
  train_steps c = PyInt si /\
  save_checkpoints_steps c = PyNone /\
  average_last_checkpoints c = PyInt 0 /\
  (get (effective_batch_size config) = None ->
   gradients_accum c = gradients_accum config).

(** The configuration a trial is given: the caller's configuration with the
    three entries of a trial, a batch size to try and, when an effective
    batch size is requested, the accumulation count that goes with it. *)
Definition trial_config_of (config : Config) (si nd : Z) (c : Config) : Prop :=
  search_config_inv config si c /\
  exists b, batch_size c = PyInt b /\
    forall e, get (effective_batch_size config) = Some e ->
      exists a, _count_batch_accum b e nd = Ok a /\ gradients_accum c = PyInt a.

(** A trial as the search starts it. *)
Definition trial_of_search (config : Config) (si nd : Z) (gpu : Q) (t : Trial)
    : Prop :=
  trial_args t = search_args config nd gpu /\
  (exists c, trial_files t !! config_path_of config = Some (YamlConfig c) /\
             trial_config_of config si nd c) /\
  (Qle_bool 1 gpu = false ->
   trial_files t !! session_config_path_of config = Some (SessionConfig gpu)).

(** ** Counting the applications of the training loop *)

(** The number of steps among [i, i + 1, ..., i + m - 1] at which the loop
    applies the gradients. *)
Fixpoint applications (accum_count : Z) (i m : nat) : Z :=
  match m with
  | O => 0
  | S m' => (if apply_at accum_count i then 1 else 0)
            + applications accum_count (S i) m'
  end.

(** ** The phases of [train] *)

(** The checkpoint [train] restores, if any: an explicit path that is a
    directory stands for its latest checkpoint; without a path, the latest
    checkpoint of the model directory is taken. *)
Definition resolve_checkpoint (cenv : CkptEnv) (c : Config)
    (checkpoint_path : option string) : option string :=
  match checkpoint_path with
  | Some p => if isdir cenv p then latest_checkpoint cenv p else Some p
  | None => latest_checkpoint cenv (model_dir c)
  end.

Section TrainPhases.

Context {T : Type}.
Variable tadd : T -> T -> T.
Variable zeros_like : T -> T.

(** [train] once the training parameters are finalized and the checkpoint
    to start from is known. *)
Definition train_from (cenv : CkptEnv) (c : Config) (dataset : list (list T))
    (start : option string) : M (@TrainWorld T) string :=
  (reached <- match start with
              | Some p =>
                  (restore cenv p ;;;
                   step <- gets iterations ;;
                   ret (match get (train_steps c) with
                        | Some n => n <=? step
                        | None => false
                        end))
              | None => ret false
              end ;;
   if reached : bool then ret (model_dir c)
   else
     (train_loop tadd zeros_like
        (get_default (gradients_accum c) 1)
        (get_default (save_summary_steps c) 100)
        (get_default (save_checkpoints_steps c) 5000)
        (get (train_steps c)) 0 dataset ;;;
      _maybe_average_checkpoints cenv c))%py.

End TrainPhases.

(** Code that adds to the end of the trace only events that satisfy [P]. *)
Definition emits {T A} (P : @TrainEvent T -> Prop) (m : M (@TrainWorld T) A)
    : Prop :=
  forall w, exists tr, trace (snd (m w)) = trace w ++ tr /\ Forall P tr.

(** The events of the loop: steps, applications, reports and checkpoints. *)
Definition is_loop_event {T} (ev : @TrainEvent T) : Prop :=
  match ev with
  | EvRestored _ | EvAveraged _ => False
  | _ => True
  end.

(** ** Lines written to the output stream *)

(** The world once [lines] have been written to the stream [s]. *)
Definition written (s : Stream) (lines : list string) (w : IOWorld) : IOWorld :=
  match s with
  | FileStream =>
      {| file_status := file_status w; file_lines := file_lines w ++ lines;
         stdout_lines := stdout_lines w |}
  | Stdout =>
      {| file_status := file_status w; file_lines := file_lines w;
         stdout_lines := stdout_lines w ++ lines |}
  end.

(** A batch that was computed without error and whose predictions carry no
    index. *)
Definition unindexed_batch (b : InferBatch) : Prop :=
  exists ps, batch_predictions b = inr ps /\
             Forall (fun p => index p = None) ps.

(** ** The exporters of a result *)

(** The exporters a result of [_make_exporters] holds, and what an exporter
    is: its class (by the name of the configuration that asks for it) and
    the name it was given. *)
Definition exporters_of {F A} (r : Exporters F A) : list (Exporter F A) :=
  match r with
  | NoExporters => []
  | OneExporter e => [e]
  | ExporterList es => es
  end.

Definition exporter_class {F A} (e : Exporter F A) : string :=
  match e with
  | LatestExporter _ _ _ => "last"
  | FinalExporter _ _ _ => "final"
  | BestExporter _ _ _ => "best"
  end.

Definition exporter_name {F A} (e : Exporter F A) : string :=
  match e with
  | LatestExporter n _ _ | FinalExporter n _ _ | BestExporter n _ _ => n
  end.

Definition exporter_arguments {F A} (e : Exporter F A) : F * A :=
  match e with
  | LatestExporter _ f a | FinalExporter _ f a | BestExporter _ f a => (f, a)
  end.

(** The names [_make_exporters] accepts, once in lower case. *)
Definition known_exporter (name : string) : Prop :=
  lower name = "last" \/ lower name = "final" \/ lower name = "best".

(** The names of an [exporters] entry that is not [None]. *)
Definition exporter_names (t : ExportersType) : list string :=
  match t with
  | ExportersNone => []
  | ExportersName name => [name]
  | ExportersNames names => names
  end.

(** * Concrete inputs *)

(** A configuration with token batches, no batch size and no effective batch
    size. *)
Definition example_config : Config :=
  {| model_dir := "run"; batch_size := Unset; batch_type := "tokens";
     effective_batch_size := Unset; train_steps := Unset;
     save_checkpoints_steps := Unset; save_summary_steps := PyInt 100;
     average_last_checkpoints := Unset; gradients_accum := Unset |}.

(** Trials succeed exactly when their batch size is at most [limit]. *)
Definition threshold_env (limit : Z) : Env :=
  {| popen := fun _ files =>
       match files !! "run/batch_size_autotuner.yml" with
       | Some (YamlConfig c) =>
           match get (batch_size c) with
           | Some b => Some (if b <=? limit then 0 else 1)
           | None => Some 1
           end
       | _ => Some 1
       end |}.

(** Every trial fails, every trial succeeds, no trial can be started. *)
Definition failing_env : Env := {| popen := fun _ _ => Some 1 |}.
Definition succeeding_env : Env := {| popen := fun _ _ => Some 0 |}.
Definition broken_env : Env := {| popen := fun _ _ => None |}.

(** A runner whose batches are counted in examples and that has no batch
    size; one whose target of 512 tokens per update is below the smallest
    batch size the search considers; and a model directory where an earlier
    search left its trial configuration behind. *)
Definition examples_runner : Runner :=
  {| config := set_batch_size Unset
       {| model_dir := "run"; batch_size := Unset; batch_type := "examples";
          effective_batch_size := Unset; train_steps := Unset;
          save_checkpoints_steps := Unset; save_summary_steps := PyInt 100;
          average_last_checkpoints := Unset; gradients_accum := Unset |};
     num_devices := 1 |}.

Definition sized_runner : Runner :=
  {| config := set_batch_size (PyInt 32) (config examples_runner);
     num_devices := 1 |}.

Definition small_target_runner : Runner :=
  {| config :=
       {| model_dir := "run"; batch_size := Unset; batch_type := "tokens";
          effective_batch_size := PyInt 512; train_steps := Unset;
          save_checkpoints_steps := Unset; save_summary_steps := PyInt 100;
          average_last_checkpoints := Unset; gradients_accum := Unset |};
     num_devices := 1 |}.

Definition stale_world : World :=
  {| fs := {[ "run/batch_size_autotuner.yml" := OtherFile ]}; spawned := [] |}.

(** A dataset whose only batch fails, and one with two batches of
    predictions that come out of order. *)
Definition failing_batch : InferBatch :=
  {| batch_predictions := inl ModelError; batch_time := 1; batch_tokens := None |}.

Definition shuffled_batches : list InferBatch :=
  [ {| batch_predictions := inr [ {| index := Some 1%nat; text := "b" |};
                                  {| index := Some 2%nat; text := "c" |} ];
       batch_time := 1; batch_tokens := Some 2 |};
    {| batch_predictions := inr [ {| index := Some 0%nat; text := "a" |} ];
       batch_time := 1; batch_tokens := Some 1 |} ].

(** Four steps of training with one variable, and the loop parameters used
    with them: accumulation over 2 steps, a report every 100 iterations, a
    checkpoint every 5000, no limit on the number of steps. *)
Definition example_gradients : list (list Z) := [[1]; [10]; [100]; [1000]].

Definition example_train_loop : M (@TrainWorld Z) unit :=
  train_loop Z.add (fun _ => 0) (Some 2) (Some 100) (Some 5000) None
    0 example_gradients.

(** A model directory with one checkpoint, saved at iteration 40. *)
Definition example_checkpoints : CkptEnv :=
  {| isdir := fun p => String.eqb p "run";
     latest_checkpoint := fun p =>
       if String.eqb p "run" then Some "run/ckpt-40" else None;
     checkpoint_iterations := fun _ => 40;
     tf_config_task_type := None |}.

(** A runner with two devices, batches of 512 tokens, an effective batch
    size of 4096 and an accumulation count of 7 set by hand. *)
Definition accumulating_runner : Runner :=
  {| config :=
       {| model_dir := "run"; batch_size := PyInt 512; batch_type := "tokens";
          effective_batch_size := PyInt 4096; train_steps := Unset;
          save_checkpoints_steps := Unset; save_summary_steps := PyInt 100;
          average_last_checkpoints := Unset; gradients_accum := PyInt 7 |};
     num_devices := 2 |}.

(** A runner with token batches and no batch size, on one device. *)
Definition tokens_runner : Runner :=
  {| config := example_config; num_devices := 1 |}.

(** Two directories: the model directory with its checkpoint of iteration
    40, and a directory that holds no checkpoint. *)
Definition two_directories : CkptEnv :=
  {| isdir := fun p => String.eqb p "run" || String.eqb p "pretrained";
     latest_checkpoint := fun p =>
       if String.eqb p "run" then Some "run/ckpt-40" else None;
     checkpoint_iterations := fun _ => 40;
     tf_config_task_type := None |}.

(** A model directory without a checkpoint. *)
Definition no_checkpoints : CkptEnv :=
  {| isdir := fun p => String.eqb p "run";
     latest_checkpoint := fun _ => None;
     checkpoint_iterations := fun _ => 0;
     tf_config_task_type := None |}.

(** A runner that reads the configuration of a trial of the batch size
    search, with 8704 as the batch size under test. *)
Definition trial_runner : Runner :=
  {| config := set_batch_size (PyInt 8704) (set_trial_defaults 5 example_config);
     num_devices := 1 |}.


(** * Properties *)

(** ** The monad *)

Lemma bind_ok {W A B} (m : M W A) (k : A -> M W B) w b w' :
  bind m k w = (Ok b, w') ->
  exists a w1, m w = (Ok a, w1) /\ k a w1 = (Ok b, w').
Proof.
  unfold bind. destruct (m w) as [[a|e|] w1]; try discriminate.
  intros H. eauto.
Qed.

Lemma bind_eq_ok {W A B} (m : M W A) (k : A -> M W B) w a w1 :
  m w = (Ok a, w1) -> bind m k w = k a w1.
Proof. unfold bind. intros ->. reflexivity. Qed.

Lemma while_loop_unfold {W S} fuel guard (body : S -> M W S) s :
  while_loop (Datatypes.S fuel) guard body s =
  if guard s then bind (body s) (while_loop fuel guard body) else ret s.
Proof. reflexivity. Qed.

Lemma while_loop_exit {W S} fuel guard (body : S -> M W S) s w :
  guard s = false -> while_loop fuel guard body s w = (Ok s, w).
Proof. intros H. destruct fuel; simpl; rewrite H; reflexivity. Qed.

(** ** Double precision *)

Section DoublePrecision.
Local Open Scope Q_scope.

Lemma round_half_even_near (x : Q) :
  inject_Z (round_half_even x) - (1 # 2) <= x <= inject_Z (round_half_even x) + (1 # 2).
Proof.
  unfold round_half_even.
  pose proof (Qfloor_le x) as Hlo. pose proof (Qlt_floor x) as Hhi.
  rewrite inject_Z_plus in Hhi. change (inject_Z 1) with 1 in Hhi.
  destruct (x - inject_Z (Qfloor x) ?= 1 # 2) eqn:E.
  - rewrite <- Qeq_alt in E. destruct (Z.even (Qfloor x)).
    + lra.
    + rewrite inject_Z_plus. change (inject_Z 1) with 1. lra.
  - rewrite <- Qlt_alt in E. lra.
  - rewrite <- Qgt_alt in E. rewrite inject_Z_plus. change (inject_Z 1) with 1. lra.
Qed.

Lemma round_half_even_comp (x y : Q) :
  x == y -> round_half_even x = round_half_even y.
Proof.
  intros H. unfold round_half_even.
  rewrite (Qfloor_comp _ _ H).
  assert (Hc : (x - inject_Z (Qfloor y) ?= 1 # 2) = (y - inject_Z (Qfloor y) ?= 1 # 2))
    by (rewrite H; reflexivity).
  rewrite Hc. reflexivity.
Qed.

Lemma round_half_even_Z (z : Z) : round_half_even (inject_Z z) = z.
Proof.
  unfold round_half_even. rewrite Qfloor_Z.
  assert (H : (inject_Z z - inject_Z z ?= 1 # 2) = Lt).
  { rewrite <- Qlt_alt. lra. }
  rewrite H. reflexivity.
Qed.

Lemma round_half_even_le (x y : Q) :
  x <= y -> (round_half_even x <= round_half_even y)%Z.
Proof.
  intros Hxy.
  pose proof (Qfloor_resp_le _ _ Hxy) as Hf.
  assert (Hx : (round_half_even x <= Qfloor x + 1)%Z).
  { unfold round_half_even. destruct (_ ?= _); [destruct (Z.even _)|..]; lia. }
  assert (Hy : (Qfloor y <= round_half_even y)%Z).
  { unfold round_half_even. destruct (_ ?= _); [destruct (Z.even _)|..]; lia. }
  destruct (Z.eq_dec (Qfloor x) (Qfloor y)) as [He|Hne]; [|lia].
  unfold round_half_even. rewrite He.
  destruct (x - inject_Z (Qfloor y) ?= 1 # 2) eqn:Ex;
    destruct (y - inject_Z (Qfloor y) ?= 1 # 2) eqn:Ey;
    try (destruct (Z.even (Qfloor y)); lia); try lia;
    first [rewrite <- Qeq_alt in Ex|rewrite <- Qlt_alt in Ex|rewrite <- Qgt_alt in Ex];
    first [rewrite <- Qeq_alt in Ey|rewrite <- Qlt_alt in Ey|rewrite <- Qgt_alt in Ey];
    exfalso; lra.
Qed.

Lemma two_neq_0 : ~ 2 == 0.
Proof. intros H. discriminate H. Qed.

Lemma pow2_pos (e : Z) : 0 < 2 ^ e.
Proof. apply Qpower_0_lt. reflexivity. Qed.

Lemma pow2_add (a b : Z) : 2 ^ (a + b) == 2 ^ a * 2 ^ b.
Proof. apply Qpower_plus, two_neq_0. Qed.

Lemma pow2_succ (a : Z) : 2 ^ (a + 1) == 2 * 2 ^ a.
Proof. rewrite pow2_add. change (2 ^ 1) with 2. ring. Qed.

Lemma pow2_le (a b : Z) : (a <= b)%Z -> 2 ^ a <= 2 ^ b.
Proof. intros H. apply Qpower_le_compat_l; [exact H|]. discriminate. Qed.

Lemma pow2_lt_inv (a b : Z) : 2 ^ a < 2 ^ b -> (a < b)%Z.
Proof.
  intros H. destruct (Z_lt_le_dec a b) as [Hlt|Hge]; [exact Hlt|].
  apply pow2_le in Hge. lra.
Qed.

Lemma pow2_Z (k : Z) : (0 <= k)%Z -> inject_Z (2 ^ k) == 2 ^ k.
Proof. intros H. apply (Zpower_Qpower 2 k H). Qed.

Lemma pow2_bounds (n k : Z) :
  (0 <= k)%Z -> (2 ^ k <= n < 2 ^ Z.succ k)%Z -> 2 ^ k <= inject_Z n < 2 * 2 ^ k.
Proof.
  intros Hk [Hlo Hhi].
  pose proof (pow2_Z k Hk) as H1.
  assert (H2 : inject_Z (2 ^ Z.succ k) == 2 * 2 ^ k).
  { unfold Z.succ. rewrite pow2_Z by lia. apply pow2_succ. }
  rewrite Zle_Qle in Hlo. rewrite Zlt_Qlt in Hhi. lra.
Qed.

Lemma ilog2_spec (x : Q) : 0 < x -> 2 ^ ilog2 x <= x < 2 ^ (ilog2 x + 1).
Proof.
  intros Hx. destruct x as [n d]. unfold ilog2. cbn [Qnum Qden].
  assert (Hn : (0 < n)%Z) by (unfold Qlt in Hx; cbn in Hx; lia).
  set (a := Z.log2 n). set (b := Z.log2 (Z.pos d)).
  pose proof (Z.log2_spec n Hn) as Ha. fold a in Ha.
  pose proof (Z.log2_spec (Z.pos d) eq_refl) as Hb. fold b in Hb.
  pose proof (Z.log2_nonneg n) as Ha0. fold a in Ha0.
  pose proof (Z.log2_nonneg (Z.pos d)) as Hb0. fold b in Hb0.
  pose proof (pow2_bounds n a Ha0 Ha) as HA.
  pose proof (pow2_bounds (Z.pos d) b Hb0 Hb) as HB.
  assert (Hl : 2 ^ (a - b) * 2 ^ b == 2 ^ a).
  { rewrite <- pow2_add. replace (a - b + b)%Z with a by lia. reflexivity. }
  assert (Hx' : (n # d) * inject_Z (Z.pos d) == inject_Z n).
  { rewrite (Qmake_Qdiv n d). field. intros H. discriminate H. }
  pose proof (pow2_pos a) as Pa. pose proof (pow2_pos b) as Pb.
  pose proof (pow2_pos (a - b)) as Pl.
  set (X := n # d) in *. set (N := inject_Z n) in *. set (D := inject_Z (Z.pos d)) in *.
  destruct (Qle_bool (2 ^ (a - b)) X) eqn:E.
  - apply Qle_bool_iff in E. split; [exact E|].
    rewrite pow2_succ.
    set (L := 2 ^ (a - b)) in *. set (A := 2 ^ a) in *. set (B := 2 ^ b) in *.
    nra.
  - assert (E' : X < 2 ^ (a - b)).
    { apply Qnot_le_lt. intros H. apply Qle_bool_iff in H. congruence. }
    replace (a - b - 1 + 1)%Z with (a - b)%Z by lia. split; [|exact E'].
    assert (Hh : 2 * 2 ^ (a - b - 1) == 2 ^ (a - b)).
    { rewrite <- pow2_succ. replace (a - b - 1 + 1)%Z with (a - b)%Z by lia. reflexivity. }
    pose proof (pow2_pos (a - b - 1)) as Ph.
    set (L := 2 ^ (a - b)) in *. set (A := 2 ^ a) in *. set (B := 2 ^ b) in *.
    set (H2 := 2 ^ (a - b - 1)) in *.
    nra.
Qed.

Lemma ilog2_le (x y : Q) : 0 < x -> x <= y -> (ilog2 x <= ilog2 y)%Z.
Proof.
  intros Hx Hxy.
  destruct (ilog2_spec x Hx) as [Hlo _].
  destruct (ilog2_spec y) as [_ Hhi]; [lra|].
  assert (H : 2 ^ ilog2 x < 2 ^ (ilog2 y + 1)) by lra.
  apply pow2_lt_inv in H. lia.
Qed.

Lemma ilog2_comp (x y : Q) : 0 < x -> x == y -> ilog2 x = ilog2 y.
Proof.
  intros Hx Hxy.
  assert (H1 : (ilog2 x <= ilog2 y)%Z) by (apply ilog2_le; lra).
  assert (H2 : (ilog2 y <= ilog2 x)%Z) by (apply ilog2_le; lra).
  lia.
Qed.

Lemma Qabs_of_pos (x : Q) : 0 < x -> Qabs x = x.
Proof.
  destruct x as [n d]. unfold Qlt. cbn. intros H.
  rewrite Z.abs_eq by lia. reflexivity.
Qed.

Lemma round53_zero (x : Q) : x == 0 -> round53 x = 0.
Proof.
  intros H. unfold round53.
  destruct (Qeq_bool x 0) eqn:E; [reflexivity|].
  apply Qeq_bool_neq in E. contradiction.
Qed.

Lemma round53_nonzero (x : Q) :
  ~ x == 0 ->
  round53 x =
    inject_Z (round_half_even (x / 2 ^ (ilog2 (Qabs x) - 52))) * 2 ^ (ilog2 (Qabs x) - 52).
Proof.
  intros H. unfold round53.
  destruct (Qeq_bool x 0) eqn:E; [|reflexivity].
  apply Qeq_bool_iff in E. contradiction.
Qed.

Lemma round53_of_pos (x : Q) :
  0 < x ->
  round53 x = inject_Z (round_half_even (x / 2 ^ (ilog2 x - 52))) * 2 ^ (ilog2 x - 52).
Proof.
  intros H. rewrite round53_nonzero by lra. rewrite (Qabs_of_pos x H). reflexivity.
Qed.

Lemma round53_comp (x y : Q) : x == y -> round53 x == round53 y.
Proof.
  intros H.
  destruct (Qeq_dec x 0) as [Hz|Hnz].
  - rewrite (round53_zero x Hz), (round53_zero y) by lra. reflexivity.
  - rewrite (round53_nonzero x Hnz), (round53_nonzero y) by lra.
    assert (Ha : 0 < Qabs x).
    { pose proof (Qabs_nonneg x) as H0.
      destruct (Qeq_dec (Qabs x) 0) as [Hq|Hq]; [|lra].
      exfalso. apply Hnz.
      assert (Hc : Qabs x <= 0) by lra.
      apply Qabs_Qle_condition in Hc. lra. }
    rewrite <- (ilog2_comp (Qabs x) (Qabs y) Ha (Qabs_wd x y H)).
    rewrite (round_half_even_comp (y / 2 ^ (ilog2 (Qabs x) - 52))
                                  (x / 2 ^ (ilog2 (Qabs x) - 52))).
    + reflexivity.
    + apply Qdiv_comp; [symmetry; exact H|reflexivity].
Qed.

(** The scaled value of a positive number lies between [2^52] and [2^53]. *)
Lemma scaled_bounds (x : Q) :
  0 < x ->
  inject_Z (2 ^ 52) <= x / 2 ^ (ilog2 x - 52) < inject_Z (2 ^ 53).
Proof.
  intros Hx. destruct (ilog2_spec x Hx) as [Hlo Hhi].
  set (l := ilog2 x) in *.
  pose proof (pow2_pos (l - 52)) as Pe.
  assert (H1 : 2 ^ l == inject_Z (2 ^ 52) * 2 ^ (l - 52)).
  { rewrite (pow2_Z 52) by lia. rewrite <- pow2_add.
    replace (52 + (l - 52))%Z with l by lia. reflexivity. }
  assert (H2 : 2 ^ (l + 1) == inject_Z (2 ^ 53) * 2 ^ (l - 52)).
  { rewrite (pow2_Z 53) by lia. rewrite <- pow2_add.
    replace (53 + (l - 52))%Z with (l + 1)%Z by lia. reflexivity. }
  split.
  - apply Qle_shift_div_l; [exact Pe|]. lra.
  - apply Qlt_shift_div_r; [exact Pe|]. lra.
Qed.

Lemma mantissa_bounds (x : Q) :
  0 < x ->
  (2 ^ 52 <= round_half_even (x / 2 ^ (ilog2 x - 52)) <= 2 ^ 53)%Z.
Proof.
  intros Hx. destruct (scaled_bounds x Hx) as [Hlo Hhi].
  split.
  - rewrite <- (round_half_even_Z (2 ^ 52)). apply round_half_even_le, Hlo.
  - rewrite <- (round_half_even_Z (2 ^ 53)). apply round_half_even_le. lra.
Qed.

Lemma round53_pos (x : Q) : 0 < x -> 0 < round53 x.
Proof.
  intros Hx. rewrite (round53_of_pos x Hx).
  destruct (mantissa_bounds x Hx) as [Hlo _].
  pose proof (pow2_pos (ilog2 x - 52)) as Pe.
  assert (H : 0 < inject_Z (round_half_even (x / 2 ^ (ilog2 x - 52)))).
  { change 0 with (inject_Z 0). rewrite <- Zlt_Qlt. lia. }
  nra.
Qed.


(** The error of a rounding is at most [2^-53] of the result. *)
Lemma round53_err (x : Q) :
  0 < x ->
  inject_Z (2 ^ 53) * (x - round53 x) <= round53 x /\
  inject_Z (2 ^ 53) * (round53 x - x) <= round53 x.
Proof.
  intros Hx. rewrite (round53_of_pos x Hx).
  destruct (mantissa_bounds x Hx) as [Hlo _].
  set (e := (ilog2 x - 52)%Z) in *.
  pose proof (pow2_pos e) as Pe.
  pose proof (round_half_even_near (x / 2 ^ e)) as [Hn1 Hn2].
  set (m := round_half_even (x / 2 ^ e)) in *.
  assert (Hm : inject_Z (2 ^ 52) <= inject_Z m) by (rewrite <- Zle_Qle; exact Hlo).
  assert (Hxe : x == (x / 2 ^ e) * 2 ^ e) by (field; lra).
  set (s := x / 2 ^ e) in *. set (p := 2 ^ e) in *.
  assert (H53 : inject_Z (2 ^ 53) == 2 * inject_Z (2 ^ 52)) by reflexivity.
  set (K := inject_Z (2 ^ 52)) in *. set (K2 := inject_Z (2 ^ 53)) in *.
  set (M := inject_Z m) in *.
  assert (HK : 1 <= K) by (subst K; vm_compute; discriminate).
  split.
  - assert (E : K2 * (x - M * p) == (2 * K * (s - M)) * p) by (rewrite Hxe, H53; ring).
    rewrite E. apply Qmult_le_compat_r; [nra|lra].
  - assert (E : K2 * (M * p - x) == (2 * K * (M - s)) * p) by (rewrite Hxe, H53; ring).
    rewrite E. apply Qmult_le_compat_r; [nra|lra].
Qed.

(** Integers up to [2^53] are doubles. *)
Lemma round53_Z (z : Z) :
  (0 <= z <= 2 ^ 53)%Z -> round53 (inject_Z z) == inject_Z z.
Proof.
  intros [H0 H53].
  destruct (Z.eq_dec z 0%Z) as [->|Hnz]; [reflexivity|].
  assert (Hx : 0 < inject_Z z).
  { change 0 with (inject_Z 0). rewrite <- Zlt_Qlt. lia. }
  rewrite (round53_of_pos _ Hx).
  destruct (ilog2_spec _ Hx) as [Hlo Hhi].
  set (l := ilog2 (inject_Z z)) in *.
  assert (Hl : (l < 54)%Z).
  { apply pow2_lt_inv. rewrite <- (pow2_Z 54) by lia.
    apply Qle_lt_trans with (inject_Z z); [exact Hlo|].
    rewrite <- Zlt_Qlt. lia. }
  pose proof (pow2_pos (l - 52)) as Pe.
  destruct (Z_le_gt_dec (l - 52)%Z 0%Z) as [He|He].
  - assert (Hs : inject_Z z / 2 ^ (l - 52) == inject_Z (z * 2 ^ (- (l - 52)))).
    { rewrite inject_Z_mult, pow2_Z by lia. rewrite Qpower_opp. field. lra. }
    rewrite (round_half_even_comp _ _ Hs), round_half_even_Z.
    rewrite inject_Z_mult, pow2_Z by lia. rewrite Qpower_opp. field. lra.
  - assert (El : (l - 52 = 1)%Z) by lia. rewrite El.
    assert (Ez : z = (2 ^ 53)%Z).
    { assert (H : inject_Z (2 ^ 53) <= inject_Z z).
      { rewrite (pow2_Z 53) by lia. replace l with 53%Z in Hlo by lia. exact Hlo. }
      rewrite <- Zle_Qle in H. lia. }
    subst z. reflexivity.
Qed.

(** Rounding keeps the order of non-negative numbers. *)
Lemma round53_le (x y : Q) : 0 <= x -> x <= y -> round53 x <= round53 y.
Proof.
  intros Hx0 Hxy.
  destruct (Qeq_dec x 0) as [Hz|Hnz].
  - rewrite (round53_zero x Hz).
    destruct (Qeq_dec y 0) as [Hy|Hy].
    + rewrite (round53_zero y Hy). lra.
    + apply Qlt_le_weak, round53_pos. lra.
  - assert (Hx : 0 < x) by lra. assert (Hy : 0 < y) by lra.
    rewrite (round53_of_pos x Hx), (round53_of_pos y Hy).
    pose proof (ilog2_le x y Hx Hxy) as Hl.
    destruct (mantissa_bounds x Hx) as [_ Hmx].
    destruct (mantissa_bounds y Hy) as [Hmy _].
    set (ex := (ilog2 x - 52)%Z) in *. set (ey := (ilog2 y - 52)%Z) in *.
    pose proof (pow2_pos ex) as Px. pose proof (pow2_pos ey) as Py.
    destruct (Z.eq_dec (ilog2 x) (ilog2 y)) as [Heq|Hne].
    + assert (Hee : ex = ey) by (subst ex ey; lia). rewrite Hee in *.
      apply Qmult_le_compat_r; [|lra].
      rewrite <- Zle_Qle. apply round_half_even_le.
      apply Qmult_le_compat_r; [exact Hxy|].
      apply Qlt_le_weak, Qinv_lt_0_compat, Py.
    + assert (Hp : 2 * 2 ^ ex <= 2 ^ ey).
      { rewrite <- pow2_succ. apply pow2_le. subst ex ey. lia. }
      rewrite Zle_Qle in Hmx, Hmy.
      assert (H53 : inject_Z (2 ^ 53) == 2 * inject_Z (2 ^ 52)) by reflexivity.
      assert (HK : 1 <= inject_Z (2 ^ 52)) by (vm_compute; discriminate).
      set (Mx := inject_Z (round_half_even (x / 2 ^ ex))) in *.
      set (My := inject_Z (round_half_even (y / 2 ^ ey))) in *.
      set (K := inject_Z (2 ^ 52)) in *. set (K2 := inject_Z (2 ^ 53)) in *.
      set (px := 2 ^ ex) in *. set (py := 2 ^ ey) in *.
      apply Qle_trans with (K * py); [|apply Qmult_le_compat_r; lra].
      apply Qle_trans with (K2 * px); [apply Qmult_le_compat_r; lra|].
      rewrite H53. nra.
Qed.

Lemma float_Z (z : Z) : (0 <= z <= 2 ^ 53)%Z -> float z == inject_Z z.
Proof. apply round53_Z. Qed.




Lemma Qceiling_between (x : Q) (n : Z) :
  inject_Z (n - 1) < x -> x <= inject_Z n -> Qceiling x = n.
Proof.
  intros Hlo Hhi.
  pose proof (Qceiling_resp_le _ _ Hhi) as H1. rewrite Qceiling_Z in H1.
  pose proof (Qle_ceiling x) as H2.
  assert (H3 : inject_Z (n - 1) < inject_Z (Qceiling x)) by lra.
  rewrite <- Zlt_Qlt in H3. lia.
Qed.

(** The quotient of two integers, as a rational, against integer bounds. *)
Lemma quotient_le (t d n : Z) :
  (0 < d)%Z -> (inject_Z t / inject_Z d <= inject_Z n <-> (t <= n * d)%Z).
Proof.
  intros Hd.
  assert (HD : 0 < inject_Z d) by (change 0 with (inject_Z 0); rewrite <- Zlt_Qlt; lia).
  rewrite Zle_Qle, inject_Z_mult. split; intros H.
  - assert (E : inject_Z t == inject_Z t / inject_Z d * inject_Z d) by (field; lra).
    rewrite E. apply Qmult_le_compat_r; [exact H|lra].
  - apply Qle_shift_div_r; [exact HD|exact H].
Qed.

Lemma quotient_gt (t d n : Z) :
  (0 < d)%Z -> (inject_Z n < inject_Z t / inject_Z d <-> (n * d < t)%Z).
Proof.
  intros Hd.
  assert (HD : 0 < inject_Z d) by (change 0 with (inject_Z 0); rewrite <- Zlt_Qlt; lia).
  rewrite Zlt_Qlt, inject_Z_mult. split; intros H.
  - assert (E : inject_Z t == inject_Z t / inject_Z d * inject_Z d) by (field; lra).
    rewrite E. apply Qmult_lt_compat_r; [exact HD|exact H].
  - apply Qlt_shift_div_l; [exact HD|exact H].
Qed.

(** Up to [2^53] the three roundings of [_count_batch_accum] do not show:
    the result is the ceiling of the exact quotient. *)
Lemma double_ceiling_exact (t d : Z) :
  (0 < d <= 2 ^ 53)%Z -> (0 <= t <= 2 ^ 53)%Z ->
  let c := Qceiling (truediv (float t) (float d)) in
  ((c - 1) * d < t <= c * d)%Z.
Proof.
  intros [Hd Hd53] [Ht Ht53] c.
  assert (Hq : float t / float d == inject_Z t / inject_Z d).
  { rewrite (float_Z t), (float_Z d) by lia. reflexivity. }
  assert (Hc : c = Qceiling (round53 (inject_Z t / inject_Z d))).
  { subst c. unfold truediv. apply Qceiling_comp, round53_comp, Hq. }
  clearbody c. subst c.
  set (x := inject_Z t / inject_Z d).
  set (n := Qceiling x).
  assert (Hn1 : ((n - 1) * d < t)%Z).
  { apply quotient_gt; [exact Hd|]. apply Qceiling_lt. }
  assert (Hn2 : (t <= n * d)%Z).
  { apply quotient_le; [exact Hd|]. apply Qle_ceiling. }
  assert (Hnt : (0 <= n <= t)%Z) by nia.
  destruct (Z.eq_dec t 0%Z) as [Et|Et].
  - subst t. assert (Hx : x == 0) by (subst x; field; intros H; 
      apply (inject_Z_injective d 0%Z) in H; lia).
    rewrite (round53_zero x Hx). change (Qceiling 0) with 0%Z. lia.
  - assert (Hx : 0 < x).
    { subst x. change 0 with (inject_Z 0). apply quotient_gt; lia. }
    enough (E : Qceiling (round53 x) = n) by (rewrite E; lia).
    apply Qceiling_between.
    + destruct (Z_le_gt_dec (n - 1)%Z 0%Z) as [Hle|Hgt].
      * apply Qle_lt_trans with 0; [|apply round53_pos, Hx].
        change 0 with (inject_Z 0). rewrite <- Zle_Qle. exact Hle.
      * assert (Hlt : inject_Z (n - 1) < x) by apply Qceiling_lt.
        assert (Hge : inject_Z (n - 1) <= round53 x).
        { rewrite <- (round53_Z (n - 1)) by lia. apply round53_le.
          - change 0 with (inject_Z 0). rewrite <- Zle_Qle. lia.
          - lra. }
        destruct (Qeq_dec (round53 x) (inject_Z (n - 1))) as [Heq|Hneq]; [exfalso|lra].
        destruct (round53_err x Hx) as [Herr _]. rewrite Heq in Herr.
        assert (Hz : (2 ^ 53 * (t - (n - 1) * d) <= (n - 1) * d)%Z).
        { rewrite Zle_Qle. unfold Z.sub at 1.
          rewrite !inject_Z_mult, inject_Z_plus, inject_Z_opp, inject_Z_mult.
          assert (HD : 0 < inject_Z d)
            by (change 0 with (inject_Z 0); rewrite <- Zlt_Qlt; lia).
          assert (E : inject_Z t == x * inject_Z d) by (subst x; field; lra).
          rewrite E.
          assert (E2 : inject_Z (2 ^ 53) * (x * inject_Z d + - (inject_Z (n - 1) * inject_Z d))
                       == (inject_Z (2 ^ 53) * (x - inject_Z (n - 1))) * inject_Z d) by ring.
          rewrite E2.
          apply Qmult_le_compat_r; [exact Herr|lra]. }
        nia.
    + rewrite <- (round53_Z n) by lia. apply round53_le; [lra|]. apply Qle_ceiling.
Qed.




End DoublePrecision.

(** ** [_count_batch_accum] *)

(** The rounding of the model is the rounding of the Standard Library's
    binary64 on the sample arguments. *)
Lemma count_batch_accum_agrees_with_binary64 :
  Forall (fun '(b, e, r) =>
            Ok <$> binary64_count b e r = Some (_count_batch_accum b e r))
         count_samples.
Proof. repeat constructor. Qed.


(** While the target and the divisor are at most [2^53] the count is the
    ceiling of the exact quotient. *)
Lemma count_batch_accum_exact (b e r : Z) :
  0 < b * r <= 2 ^ 53 -> 0 <= e <= 2 ^ 53 ->
  exists c, _count_batch_accum b e r = Ok c /\
            (c - 1) * (b * r) < e <= c * (b * r).
Proof.
  intros Hd He. unfold _count_batch_accum.
  destruct (Z.eqb_spec (b * r) 0) as [E|_]; [lia|].
  eexists; split; [reflexivity|].
  apply double_ceiling_exact; assumption.
Qed.





(** ** The batch size search *)

Lemma config_paths_differ (c : Config) :
  config_path_of c <> session_config_path_of c.
Proof.
  unfold config_path_of, session_config_path_of, path_join.
  destruct (model_dir c) as [|a s]; [discriminate|].
  destruct (last_is_slash (String a s)); intros H.
  - apply (inj (String.app (String a s))) in H. discriminate.
  - apply (inj (String.app (String a s))) in H. discriminate.
Qed.

Lemma search_iteration_ok env cp args nd c lo hi w st' w' :
  search_iteration env cp args nd (c, lo, hi) w = (Ok st', w') ->
  exists c' code,
    st' = (c', (if code =? 0 then (hi + lo) / 2 else lo),
               (if code =? 0 then hi else (hi + lo) / 2 - 1)) /\
    batch_size c' = PyInt ((hi + lo) / 2) /\
    effective_batch_size c' = effective_batch_size c /\
    fs w' = <[cp := YamlConfig c']> (fs w) /\
    spawned w' = spawned w ++
      [{| trial_args := args; trial_files := fs w'; trial_exit := code |}] /\
    popen env args (fs w') = Some code.
Proof.
  unfold search_iteration. intros H.
  apply bind_ok in H as (c' & w1 & Hc & H).
  apply bind_ok in H as ([] & w2 & Hw & H).
  apply bind_ok in H as (code & w3 & Hp & H).
  assert (w1 = w /\ batch_size c' = PyInt ((hi + lo) / 2) /\
          effective_batch_size c' = effective_batch_size c) as (-> & Hb & He).
  { cbn in Hc. destruct (get (effective_batch_size c)).
    - apply bind_ok in Hc as (a & w0 & Ha & Hc).
      unfold lift in Ha. unfold ret in Hc. inversion Ha; inversion Hc; subst.
      auto.
    - unfold ret in Hc. inversion Hc; subst. auto. }
  unfold write_file, modify in Hw. inversion Hw; subst w2; clear Hw.
  unfold popen_wait in Hp. cbn in Hp.
  destruct (popen env args (<[cp:=YamlConfig c']> (fs w))) as [code'|] eqn:Hpo;
    [|discriminate].
  inversion Hp; subst code' w3; clear Hp.
  exists c', code. cbn.
  destruct (Z.eqb_spec code 0); cbn in H; unfold ret in H; inversion H; subst;
    cbn; auto 10.
Qed.

(** Bounds on a midpoint [(a + b) / 2]. *)
Ltac half_bounds :=
  match goal with
  | |- context [(?a + ?b) / 2] =>
      pose proof (Z.div_mod (a + b) 2 ltac:(lia));
      pose proof (Z.mod_pos_bound (a + b) 2 ltac:(lia));
      lia
  end.

Lemma search_loop_spec env cp args nd prec :
  forall fuel c lo hi w st' w',
  while_loop fuel (search_guard prec) (search_iteration env cp args nd)
    (c, lo, hi) w = (Ok st', w') ->
  exists trials,
    spawned w' = spawned w ++ trials /\
    spec_binary_search prec lo hi (map (trial_observation cp) trials)
      (search_low st') /\
    search_high st' - search_low st' <= prec /\
    Forall (fun t => popen env (trial_args t) (trial_files t) = Some (trial_exit t))
      trials /\
    (trials = [] /\ fs w' = fs w \/
     trials <> [] /\ exists c', fs w' = <[cp := YamlConfig c']> (fs w)).
Proof.
  induction fuel as [|fuel IH]; intros c lo hi w st' w' H.
  - cbn [while_loop] in H. destruct (search_guard prec (c, lo, hi)) eqn:G;
      [unfold out_of_fuel in H; discriminate|].
    unfold ret in H. inversion H; subst. exists []. cbn in *.
    rewrite app_nil_r. repeat split; try lia; [constructor; lia|auto..].
  - rewrite while_loop_unfold in H.
    destruct (search_guard prec (c, lo, hi)) eqn:G.
    + apply bind_ok in H as (st1 & w1 & Hit & Hloop).
      apply search_iteration_ok in Hit as (c' & code & -> & Hb & _ & Hfs & Hsp & Hpo).
      apply IH in Hloop as (trials & Hsp' & Hspec & Hexit & Hcons & Hfiles).
      cbn in G. apply Z.gtb_lt in G.
      eexists (_ :: trials). split; [|split; [|split; [|split]]].
      * rewrite Hsp', Hsp, <- app_assoc. reflexivity.
      * cbn [map]. unfold trial_observation at 1. cbn.
        rewrite Hfs, lookup_insert_eq, Hb. cbn.
        replace ((hi + lo) / 2) with ((lo + hi) / 2) in * by (f_equal; lia).
        destruct (Z.eqb_spec code 0) as [->|Hne].
        -- apply spec_search_feasible; [lia|assumption].
        -- apply spec_search_infeasible; [lia|assumption|assumption].
      * assumption.
      * constructor; [exact Hpo|assumption].
      * right. split; [discriminate|].
        destruct Hfiles as [[_ ->]|[_ [c2 ->]]].
        -- eauto.
        -- exists c2. rewrite Hfs. apply insert_insert_eq.
    + unfold ret in H. inversion H; subst. exists []. cbn in *.
      rewrite Z.gtb_ltb in G. apply Z.ltb_ge in G.
      rewrite app_nil_r. repeat split; try lia; [constructor; lia|auto..].
Qed.

Lemma spec_search_bounds prec lo hi obs v :
  spec_binary_search prec lo hi obs v ->
  0 <= prec -> lo <= v /\ (v <= hi \/ v = lo).
Proof.
  induction 1 as [lo hi Hd|lo hi rest v Hg _ IH|lo hi code rest v Hg Hc _ IH];
    intros Hp.
  - lia.
  - specialize (IH Hp).
    assert (lo <= (lo + hi) / 2 < hi) by half_bounds.
    lia.
  - specialize (IH Hp).
    assert (lo <= (lo + hi) / 2 < hi) by half_bounds.
    lia.
Qed.



Lemma os_remove_ok path w u w' :
  os_remove path w = (Ok u, w') ->
  is_Some (fs w !! path) /\ fs w' = delete path (fs w) /\ spawned w' = spawned w.
Proof.
  unfold os_remove. destruct (fs w !! path) eqn:E; [|discriminate].
  intros H. inversion H; subst. cbn. eauto.
Qed.


(** [_auto_tune_batch_size] split into its three phases. *)
Lemma auto_tune_unfold fuel env config min max prec si nd gpu w :
  _auto_tune_batch_size fuel env config min max prec si nd gpu w =
  bind (while_loop fuel (search_guard prec)
          (search_iteration env (config_path_of config)
             (search_args config nd gpu) nd)
          (set_trial_defaults si config, min, max))
       (fun st =>
          bind (os_remove (config_path_of config))
            (fun _ =>
               bind (if Qle_bool 1 gpu then ret tt
                     else os_remove (session_config_path_of config))
                 (fun _ => ret (search_low st))))
       (after_session_write config gpu w).
Proof.
  unfold _auto_tune_batch_size, after_session_write, search_args.
  change (config_path_of (set_trial_defaults si config))
    with (config_path_of config).
  change (session_config_path_of (set_trial_defaults si config))
    with (session_config_path_of config).
  destruct (Qle_bool 1 gpu); cbn [negb];
    unfold bind, ret, write_file, modify; cbn [app];
    match goal with
    | |- context [while_loop ?f ?g ?b ?s ?w0] =>
        destruct (while_loop f g b s w0) as [[[[c lo] hi]|e|] w1]
    end; try reflexivity;
    destruct (os_remove (config_path_of config) w1) as [[u|e|] w2];
    reflexivity.
Qed.

Lemma auto_tune_ok fuel env config min max prec si nd gpu w v w' :
  _auto_tune_batch_size fuel env config min max prec si nd gpu w = (Ok v, w') ->
  exists trials,
    spawned w' = spawned w ++ trials /\
    spec_binary_search prec min max
      (map (trial_observation (config_path_of config)) trials) v /\
    Forall (fun t => popen env (trial_args t) (trial_files t) = Some (trial_exit t))
      trials /\
    fs w' = (if Qle_bool 1 gpu then delete (config_path_of config) (fs w)
             else delete (session_config_path_of config)
                    (delete (config_path_of config) (fs w))).
Proof.
  rewrite auto_tune_unfold. intros H.
  apply bind_ok in H as (st & w1 & Hloop & H).
  apply bind_ok in H as ([] & w2 & Hrm & H).
  apply bind_ok in H as ([] & w3 & Hrm2 & H).
  unfold ret in H. inversion H; subst v w3; clear H.
  destruct st as [[c lo] hi].
  apply search_loop_spec in Hloop as (trials & Hsp & Hspec & _ & Hcons & Hfiles).
  apply os_remove_ok in Hrm as (_ & Hfs2 & Hsp2).
  assert (fs w2 = delete (config_path_of config)
                    (fs (after_session_write config gpu w))) as Hfs2'.
  { rewrite Hfs2. destruct Hfiles as [[_ ->]|[_ [c' ->]]]; [reflexivity|].
    apply delete_insert_eq. }
  assert (spawned (after_session_write config gpu w) = spawned w) as Hsp0.
  { unfold after_session_write. destruct (Qle_bool 1 gpu); reflexivity. }
  exists trials. split; [|split; [|split]]; try assumption.
  - unfold after_session_write in *. destruct (Qle_bool 1 gpu).
    + unfold ret in Hrm2. inversion Hrm2; subst. congruence.
    + apply os_remove_ok in Hrm2 as (_ & _ & ->). congruence.
  - unfold after_session_write in *. destruct (Qle_bool 1 gpu).
    + unfold ret in Hrm2. inversion Hrm2; subst. exact Hfs2'.
    + apply os_remove_ok in Hrm2 as (_ & -> & _). rewrite Hfs2'. cbn.
      rewrite (delete_delete _ (session_config_path_of config)
                 (config_path_of config)).
      rewrite delete_insert_eq. apply delete_delete.
Qed.






Lemma observations_feasible env cp limit trials :
  feasible_up_to env cp limit ->
  Forall (fun t => popen env (trial_args t) (trial_files t) = Some (trial_exit t))
    trials ->
  Forall (fun o => forall b, fst o = Some b ->
                   (snd o = 0 <-> (b <=? limit) = true))
    (map (trial_observation cp) trials).
Proof.
  intros Henv Hcons. apply Forall_map. eapply Forall_impl; [exact Hcons|].
  intros t Ht b Hb. unfold trial_observation in *. cbn in *.
  destruct (trial_files t !! cp) as [[c| |]|] eqn:E; try discriminate.
  rewrite (Henv _ _ _ _ _ E Hb Ht). symmetry. apply Z.leb_le.
Qed.




Lemma threshold_env_feasible limit :
  feasible_up_to (threshold_env limit) (config_path_of example_config) limit.
Proof.
  intros args files c b code Hf Hb. cbn.
  change (config_path_of example_config) with "run/batch_size_autotuner.yml" in Hf.
  rewrite Hf, Hb. intros H. inversion H; subst.
  destruct (Z.leb_spec b limit); split; intros; try lia; discriminate.
Qed.


(** The search on the example of the specification, evaluated. *)
Example auto_tune_example_run :
  let r := _auto_tune_batch_size 6 (threshold_env 9000) example_config
             1024 16384 256 5 1 (8 # 10) initial_world in
  fst r = Ok 8943 /\
  map (trial_observation "run/batch_size_autotuner.yml") (spawned (snd r)) =
    [(Some 8704, 0); (Some 12544, 1); (Some 10623, 1); (Some 9663, 1);
     (Some 9183, 1); (Some 8943, 0)] /\
  fs (snd r) = ∅.
Proof. vm_compute. repeat split. Qed.


(** C4 (amended).  For a precision of at least 1, every iteration of the
    search starts from [low <= high], ends with [low <= high], keeps the new
    interval inside the old one and makes it strictly narrower. *)
Theorem search_iteration_shrinks env cp args nd prec st w st' w' :
  1 <= prec ->
  search_guard prec st = true ->
  search_iteration env cp args nd st w = (Ok st', w') ->
  search_low st <= search_high st /\
  search_low st' <= search_high st' /\
  search_low st <= search_low st' /\
  search_high st' <= search_high st /\
  search_high st' - search_low st' < search_high st - search_low st.
Proof.
  intros Hprec G H. destruct st as [[c lo] hi].
  apply search_iteration_ok in H as (c' & code & -> & _).
  cbn in G. apply Z.gtb_lt in G. unfold search_low, search_high. cbn.
  assert (lo < (hi + lo) / 2 < hi) by half_bounds.
  destruct (code =? 0); lia.
Qed.

Lemma search_iteration_shrinks_witness :
  search_low (example_config, 1024, 16384) <= search_high (example_config, 1024, 16384) /\
  search_low (set_batch_size (PyInt 8704) example_config, 1024, 8703)
    <= search_high (set_batch_size (PyInt 8704) example_config, 1024, 8703) /\
  search_low (example_config, 1024, 16384)
    <= search_low (set_batch_size (PyInt 8704) example_config, 1024, 8703) /\
  search_high (set_batch_size (PyInt 8704) example_config, 1024, 8703)
    <= search_high (example_config, 1024, 16384) /\
  search_high (set_batch_size (PyInt 8704) example_config, 1024, 8703)
  - search_low (set_batch_size (PyInt 8704) example_config, 1024, 8703)
    < search_high (example_config, 1024, 16384)
      - search_low (example_config, 1024, 16384).
Proof.
  eapply (search_iteration_shrinks failing_env "run/batch_size_autotuner.yml"
            [] 1 256 (example_config, 1024, 16384) initial_world).
  - lia.
  - reflexivity.
  - reflexivity.
Defined.

(** C4, as stated, fails for a precision of 0: from [low = 5], [high = 6] a
    failed trial leaves [low = 5 > high = 4], and a successful trial leaves
    the interval as it was. *)
Lemma search_invariant_fails_at_precision_zero :
  search_guard 0 (example_config, 5, 6) = true /\
  (exists st' w',
     search_iteration failing_env "run/batch_size_autotuner.yml" [] 1
       (example_config, 5, 6) initial_world = (Ok st', w') /\
     search_low st' = 5 /\ search_high st' = 4 /\
     ~ search_low st' <= search_high st') /\
  (exists st' w',
     search_iteration succeeding_env "run/batch_size_autotuner.yml" [] 1
       (example_config, 5, 6) initial_world = (Ok st', w') /\
     search_low st' = 5 /\ search_high st' = 6 /\
     ~ search_high st' - search_low st' < 6 - 5).
Proof.
  split; [reflexivity|]. split.
  - eexists _, _. split; [vm_compute; reflexivity|]. cbn.
    split; [reflexivity|]. split; [reflexivity|]. lia.
  - eexists _, _. split; [vm_compute; reflexivity|]. cbn.
    split; [reflexivity|]. split; [reflexivity|]. lia.
Qed.





Lemma search_iteration_frame env cp args nd st w o w' p :
  search_iteration env cp args nd st w = (o, w') ->
  p <> cp -> fs w' !! p = fs w !! p.
Proof.
  destruct st as [[c lo] hi]. unfold search_iteration. intros H Hp.
  unfold bind, lift, ret, write_file, modify, popen_wait in H. cbn in H.
  destruct (get (effective_batch_size c)).
  - destruct (_count_batch_accum _ _ _); cbn in H.
    + destruct (popen env args _); cbn in H.
      * destruct (negb _); inversion H; subst; cbn;
          apply lookup_insert_ne; congruence.
      * inversion H; subst; cbn. apply lookup_insert_ne; congruence.
    + inversion H; subst. reflexivity.
    + inversion H; subst. reflexivity.
  - destruct (popen env args _); cbn in H.
    + destruct (negb _); inversion H; subst; cbn;
        apply lookup_insert_ne; congruence.
    + inversion H; subst; cbn. apply lookup_insert_ne; congruence.
Qed.

Lemma search_loop_frame env cp args nd prec p :
  p <> cp ->
  forall fuel st w o w',
  while_loop fuel (search_guard prec) (search_iteration env cp args nd) st w
    = (o, w') ->
  fs w' !! p = fs w !! p.
Proof.
  intros Hp. induction fuel as [|fuel IH]; intros st w o w' H.
  - cbn [while_loop] in H. unfold out_of_fuel, ret in H.
    destruct (search_guard prec st); inversion H; subst; reflexivity.
  - rewrite while_loop_unfold in H.
    destruct (search_guard prec st);
      [|unfold ret in H; inversion H; subst; reflexivity].
    unfold bind in H.
    destruct (search_iteration env cp args nd st w) as [[st1|e|] w1] eqn:Hit.
    + rewrite (IH _ _ _ _ H). eapply search_iteration_frame; eassumption.
    + inversion H; subst. eapply search_iteration_frame; eassumption.
    + inversion H; subst. eapply search_iteration_frame; eassumption.
Qed.

Lemma auto_tune_raise_keeps_session_file
    fuel env config min max prec si nd gpu w e w' :
  _auto_tune_batch_size fuel env config min max prec si nd gpu w = (Raise e, w') ->
  Qle_bool 1 gpu = false ->
  fs w' !! session_config_path_of config = Some (SessionConfig gpu).
Proof.
  rewrite auto_tune_unfold. intros H G.
  set (cp := config_path_of config) in *.
  set (sp := session_config_path_of config) in *.
  assert (sp <> cp) as Hne.
  { intros E. symmetry in E. exact (config_paths_differ config E). }
  assert (fs (after_session_write config gpu w) !! sp = Some (SessionConfig gpu))
    as H0.
  { unfold after_session_write. rewrite G. cbn. apply lookup_insert_eq. }
  unfold bind at 1 in H.
  destruct (while_loop _ _ _ _ _) as [[st|e1|] w1] eqn:Hloop; try discriminate.
  - pose proof (search_loop_frame _ _ _ _ _ sp Hne _ _ _ _ _ Hloop) as Hf.
    unfold bind at 1 in H.
    destruct (os_remove cp w1) as [[u|e2|] w2] eqn:Hrm; try discriminate.
    + apply os_remove_ok in Hrm as (_ & Hfs2 & _).
      rewrite G in H. unfold bind, os_remove in H.
      rewrite Hfs2, lookup_delete_ne, Hf, H0 in H by congruence.
      discriminate.
    + unfold os_remove in Hrm. destruct (fs w1 !! cp); [discriminate|].
      inversion Hrm; subst. inversion H; subst. congruence.
  - inversion H; subst.
    rewrite (search_loop_frame _ _ _ _ _ sp Hne _ _ _ _ _ Hloop). exact H0.
Qed.

(** C7 (amended).  When the search returns a batch size, the trial
    configuration file and, when it was written, the session configuration
    file are gone.  When the search ends with an exception, the session
    configuration file it wrote is still there: the two [os.remove] calls
    are the last statements of the function and nothing guards them. *)
Theorem auto_tune_cleanup fuel env config min max prec si nd gpu w :
  match _auto_tune_batch_size fuel env config min max prec si nd gpu w with
  | (Ok _, w') =>
      fs w' = (if Qle_bool 1 gpu then delete (config_path_of config) (fs w)
               else delete (session_config_path_of config)
                      (delete (config_path_of config) (fs w)))
  | (Raise _, w') =>
      if Qle_bool 1 gpu then True
      else fs w' !! session_config_path_of config = Some (SessionConfig gpu)
  | (OutOfFuel, _) => True
  end.
Proof.
  destruct (_auto_tune_batch_size _ _ _ _ _ _ _ _ _ _) as [[v|e|] w'] eqn:H;
    [| |exact I].
  - apply auto_tune_ok in H as (_ & _ & _ & _ & Hfs). exact Hfs.
  - destruct (Qle_bool 1 gpu) eqn:G; [exact I|].
    eapply auto_tune_raise_keeps_session_file; eassumption.
Qed.

(** C7, as stated, fails.  When a trial cannot be started the search ends
    with [OSError] and both files are left behind; when the search has no
    iteration to run, [os.remove] of the trial configuration, which was never
    written, raises [OSError] to the caller and the session configuration
    file stays. *)
Lemma auto_tune_leaves_files_behind :
  (let r := _auto_tune_batch_size 20 broken_env example_config
              1024 16384 256 5 1 (8 # 10) initial_world in
   fst r = Raise OSError /\
   is_Some (fs (snd r) !! config_path_of example_config) /\
   is_Some (fs (snd r) !! session_config_path_of example_config)) /\
  (let r := _auto_tune_batch_size 20 succeeding_env example_config
              1024 1200 256 5 1 (8 # 10) initial_world in
   fst r = Raise OSError /\
   spawned (snd r) = [] /\
   is_Some (fs (snd r) !! session_config_path_of example_config)).
Proof.
  split; vm_compute; repeat split; eauto.
Qed.



(** ** [Runner._finalize_training_parameters] *)

(** C6.  When the training batch size is absent or zero and batches are
    counted in examples, finalizing the training parameters raises
    [ValueError] and leaves the world as it was: no file is written and no
    trial process is started.  When the batch size is set and positive, the
    world is left as it was too (no search takes place) and the batch size
    is kept. *)
Theorem finalize_autotune_precondition fuel env r w :
  ((get (batch_size (config r)) = None \/ get (batch_size (config r)) = Some 0) ->
   batch_type (config r) = "examples" ->
   _finalize_training_parameters fuel env r w = (Raise ValueError, w)) /\
  (forall b, get (batch_size (config r)) = Some b -> 0 < b ->
     snd (_finalize_training_parameters fuel env r w) = w /\
     forall r', fst (_finalize_training_parameters fuel env r w) = Ok r' ->
                batch_size (config r') = batch_size (config r)).
Proof.
  split.
  - intros Hb Ht. unfold _finalize_training_parameters.
    rewrite Ht. destruct Hb as [-> | ->]; reflexivity.
  - intros b Hb Hpos. unfold _finalize_training_parameters.
    rewrite Hb. cbn [none_or_zero].
    destruct (Z.eqb_spec b 0) as [?|_]; [lia|].
    unfold bind, ret, lift, raise. cbn.
    destruct (get (effective_batch_size (config r))); cbn.
    + rewrite Hb.
      destruct (_count_batch_accum b z (num_replicas r)); cbn; split; try reflexivity;
        intros r' H; inversion H; subst; reflexivity.
    + split; [reflexivity|]. intros r' H. inversion H; subst. reflexivity.
Qed.

Lemma finalize_autotune_precondition_witness :
  _finalize_training_parameters 20 succeeding_env examples_runner initial_world
    = (Raise ValueError, initial_world) /\
  snd (_finalize_training_parameters 20 succeeding_env sized_runner initial_world)
    = initial_world.
Proof.
  split.
  - apply (finalize_autotune_precondition 20 succeeding_env examples_runner
             initial_world); [left|]; reflexivity.
  - apply (finalize_autotune_precondition 20 succeeding_env sized_runner
             initial_world) with (b := 32); [reflexivity|lia].
Defined.

(** The search of [_finalize_training_parameters] stays within its bounds
    when the effective batch size is at least the smallest batch size
    considered. *)
Lemma finalize_tuned_at_most_effective fuel env r w r' w' e :
  (get (batch_size (config r)) = None \/ get (batch_size (config r)) = Some 0) ->
  get (effective_batch_size (config r)) = Some e ->
  default_min_batch_size <= e ->
  _finalize_training_parameters fuel env r w = (Ok r', w') ->
  exists b, get (batch_size (config r')) = Some b /\
            default_min_batch_size <= b <= e.
Proof.
  intros Hb He Hle H. unfold _finalize_training_parameters in H.
  assert (exists tuned w1,
    _auto_tune_batch_size fuel env (config r) default_min_batch_size
      (Z.min default_max_batch_size e) default_min_range
      default_sample_iterations (num_devices r) default_gpu_memory_fraction w
      = (Ok tuned, w1) /\
    batch_size (config r') = PyInt tuned) as (tuned & w1 & Hrun & Hr').
  { rewrite He in H.
    assert (none_or_zero (get (batch_size (config r))) = true) as Hz
      by (destruct Hb as [-> | ->]; reflexivity).
    rewrite Hz in H.
    destruct (String.eqb (batch_type (config r)) "examples"); [discriminate|].
    apply bind_ok in H as (c1 & w1 & H1 & H2).
    apply bind_ok in H1 as (tuned & w2 & Hrun & Hret).
    unfold ret in Hret. inversion Hret; subst c1 w2.
    exists tuned, w1. split; [exact Hrun|].
    cbn in H2. rewrite He in H2.
    apply bind_ok in H2 as (a & w3 & _ & H2).
    unfold ret in H2. inversion H2; subst. reflexivity. }
  apply auto_tune_ok in Hrun as (trials & _ & Hspec & _).
  apply spec_search_bounds in Hspec; [|unfold default_min_range; lia].
  exists tuned. rewrite Hr'. split; [reflexivity|].
  unfold default_min_batch_size, default_max_batch_size in *. lia.
Qed.

(** C9, at the input where the code departs from it: with an effective
    batch size of 512 and a trial configuration left in the model
    directory, no trial runs and the batch size becomes 1024, above the
    effective batch size; in a clean model directory the same call ends with
    [OSError]. *)
Theorem finalize_tuned_above_effective_batch_size :
  (let r := _finalize_training_parameters 20 succeeding_env small_target_runner
              stale_world in
   exists r', fst r = Ok r' /\
     get (effective_batch_size (config r')) = Some 512 /\
     get (batch_size (config r')) = Some 1024 /\
     spawned (snd r) = []) /\
  fst (_finalize_training_parameters 20 succeeding_env small_target_runner
         initial_world) = Raise OSError.
Proof.
  split.
  - eexists. vm_compute. repeat split.
  - vm_compute. reflexivity.
Qed.


(** ** The order restorer *)

Section OrderRestorerProofs.

Context {W P X : Type}.
Variable index_fn : P -> nat.
Variable callback_fn : P -> M W unit.
Variable good : W -> Prop.
Variable sink_of : W -> list X.
Variable label : P -> X.
Variable sink0 : list X.

Hypothesis callback_records : records_to callback_fn good sink_of label.

Lemma sink_holds_snoc w w' released x :
  sink_holds good sink_of label sink0 w released ->
  good w' ->
  sink_of w' = sink_of w ++ [label x] ->
  sink_holds good sink_of label sink0 w' (released ++ [x]).
Proof.
  intros [_ Hs] Hg Hs'. split; [assumption|].
  rewrite Hs', Hs, fmap_app, <- app_assoc. reflexivity.
Qed.

Lemma drain_restores pushed :
  forall fuel (r : OrderRestorer P) w released,
  (size (pending r) <= fuel)%nat ->
  restorer_state index_fn pushed r released ->
  sink_holds good sink_of label sink0 w released ->
  exists r' w' released',
    while_loop fuel drain_guard (drain_step callback_fn) r w = (Ok r', w') /\
    restorer_inv index_fn pushed r' released' /\
    sink_holds good sink_of label sink0 w' released'.
Proof.
  induction fuel as [|fuel IH];
    intros r w released Hsize (Hrel & Hperm & Hpend) Hsink.
  - assert (pending r = ∅) as Hempty by (apply map_size_empty_iff; lia).
    exists r, w, released. split; [|split; [|assumption]].
    + apply while_loop_exit. unfold drain_guard.
      rewrite Hempty, lookup_empty. apply bool_decide_eq_false. intros [? ?].
      discriminate.
    + split; [split; [|split]; assumption|].
      rewrite Hempty. apply lookup_empty.
  - rewrite while_loop_unfold. unfold drain_guard at 1.
    destruct (pending r !! next_expected r) as [x|] eqn:E.
    + rewrite bool_decide_eq_true_2 by eauto.
      destruct (callback_records x w (proj1 Hsink)) as (w1 & Hcb & Hg1 & Hs1).
      unfold drain_step at 1. rewrite E.
      unfold bind at 1 2. rewrite Hcb. cbn [ret].
      apply (IH _ w1 (released ++ [x])).
      * cbn. rewrite map_size_delete_Some by eauto. lia.
      * destruct (Hpend _ _ E) as [Hx _].
        split; [|split]; cbn [next_expected pending].
        -- rewrite fmap_app, Hrel, seq_S. cbn. rewrite Hx. reflexivity.
        -- rewrite <- Hperm. unfold pending_items. cbn [next_expected pending].
           rewrite <- (map_to_list_delete _ _ _ E). cbn.
           rewrite <- app_assoc. cbn. reflexivity.
        -- intros i y Hy.
           destruct (decide (i = next_expected r)) as [->|Hne].
           ++ rewrite lookup_delete_eq in Hy. discriminate.
           ++ rewrite lookup_delete_ne in Hy by congruence.
              destruct (Hpend _ _ Hy). split; [assumption|lia].
      * eapply sink_holds_snoc; eassumption.
    + rewrite bool_decide_eq_false_2 by (intros [? ?]; discriminate).
      exists r, w, released. split; [reflexivity|].
      split; [|assumption].
      split; [split; [|split]; assumption|assumption].
Qed.

Lemma push_restores pushed x (r : OrderRestorer P) w released :
  restorer_inv index_fn pushed r released ->
  sink_holds good sink_of label sink0 w released ->
  index_fn x ∉ index_fn <$> pushed ->
  exists r' w' released',
    push index_fn callback_fn x r w = (Ok r', w') /\
    restorer_inv index_fn (pushed ++ [x]) r' released' /\
    sink_holds good sink_of label sink0 w' released'.
Proof.
  intros [(Hrel & Hperm & Hpend) Hnext] Hsink Hfresh. unfold push.
  destruct (Nat.eqb_spec (index_fn x) (next_expected r)) as [Heq|Hne].
  - destruct (callback_records x w (proj1 Hsink)) as (w1 & Hcb & Hg1 & Hs1).
    unfold bind at 1. rewrite Hcb. unfold drain.
    apply (drain_restores _ _ _ w1 (released ++ [x])); [cbn; lia| |].
    + split; [|split]; cbn [next_expected pending].
      * rewrite fmap_app, Hrel, seq_S. cbn. rewrite Heq. reflexivity.
      * rewrite <- Hperm. unfold pending_items. cbn [next_expected pending].
        rewrite <- !app_assoc. apply Permutation_app_head.
        apply Permutation_app_comm.
      * intros i y Hy. destruct (Hpend _ _ Hy) as [? ?]. split; [assumption|].
        destruct (decide (i = next_expected r)) as [->|?]; [congruence|lia].
    + eapply sink_holds_snoc; eassumption.
  - destruct (Nat.ltb_spec (next_expected r) (index_fn x)) as [Hlt|Hge].
    + destruct (pending r !! index_fn x) as [y|] eqn:E.
      * exfalso. apply Hfresh. destruct (Hpend _ _ E) as [Hy _].
        rewrite <- Hy.
        apply list_elem_of_fmap_2. rewrite <- Hperm. apply elem_of_app. right.
        unfold pending_items. apply list_elem_of_fmap.
        exists (index_fn x, y). split; [reflexivity|].
        apply elem_of_map_to_list. assumption.
      * eexists _, w, released. split; [reflexivity|]. split; [|assumption].
        split; [split; [|split]|]; cbn.
        -- assumption.
        -- rewrite <- Hperm. unfold pending_items. cbn.
           rewrite map_to_list_insert by assumption. cbn.
           rewrite <- app_assoc. apply Permutation_app_head.
           apply Permutation_cons_append.
        -- intros i y Hy.
           destruct (decide (i = index_fn x)) as [->|Hi].
           ++ rewrite lookup_insert_eq in Hy. inversion Hy; subst.
              split; [reflexivity|lia].
           ++ rewrite lookup_insert_ne in Hy by congruence. auto.
        -- rewrite lookup_insert_ne by lia. assumption.
    + exfalso. apply Hfresh.
      assert (index_fn x ∈ index_fn <$> released) as Hin.
      { rewrite Hrel. apply elem_of_seq. lia. }
      apply list_elem_of_fmap in Hin as (y & Hy & Hin). rewrite Hy.
      apply list_elem_of_fmap_2. rewrite <- Hperm. apply elem_of_app. auto.
Qed.

Lemma push_all_restores :
  forall xs pushed (r : OrderRestorer P) w released,
  restorer_inv index_fn pushed r released ->
  sink_holds good sink_of label sink0 w released ->
  NoDup (index_fn <$> (pushed ++ xs)) ->
  exists r' w' released',
    push_all index_fn callback_fn xs r w = (Ok r', w') /\
    restorer_inv index_fn (pushed ++ xs) r' released' /\
    sink_holds good sink_of label sink0 w' released'.
Proof.
  induction xs as [|x xs IH]; intros pushed r w released Hinv Hsink Hnd.
  - exists r, w, released. rewrite app_nil_r. auto.
  - cbn [push_all].
    destruct (push_restores pushed x r w released Hinv Hsink)
      as (r1 & w1 & released1 & Hpush & Hinv1 & Hsink1).
    { rewrite fmap_app in Hnd. apply NoDup_app in Hnd as (_ & Hdis & _).
      intros Hin. apply (Hdis _ Hin). cbn. left. }
    rewrite (bind_eq_ok _ _ _ _ _ Hpush).
    replace (pushed ++ x :: xs) with ((pushed ++ [x]) ++ xs) in *
      by (rewrite <- app_assoc; reflexivity).
    apply (IH _ _ _ released1); assumption.
Qed.

End OrderRestorerProofs.

Lemma new_restorer_inv {P} (index_fn : P -> nat) :
  restorer_inv index_fn [] new_restorer [].
Proof.
  split; [split; [|split]|]; cbn.
  - reflexivity.
  - unfold pending_items. cbn. rewrite map_to_list_empty. reflexivity.
  - intros i x H. rewrite lookup_empty in H. discriminate.
  - apply lookup_empty.
Qed.

Lemma restorer_inv_complete {P} (index_fn : P -> nat) xs n
    (r : OrderRestorer P) released :
  restorer_inv index_fn xs r released ->
  index_fn <$> xs ≡ₚ seq 0 n ->
  pending r = ∅ /\ next_expected r = n /\ released ≡ₚ xs.
Proof.
  intros [(Hrel & Hperm & Hpend) Hnext] Hxs.
  assert (forall y, y ∈ pending_items r ->
                    pending r !! index_fn y = Some y) as Hitems.
  { intros y Hy. unfold pending_items in Hy.
    apply list_elem_of_fmap in Hy as ([j z] & -> & Hjz). cbn.
    apply elem_of_map_to_list in Hjz. destruct (Hpend _ _ Hjz) as [-> _].
    assumption. }
  assert (forall i, (i < n)%nat ->
                    (i < next_expected r)%nat \/ is_Some (pending r !! i)) as Hall.
  { intros i Hi.
    assert (i ∈ index_fn <$> (released ++ pending_items r)) as Hin.
    { rewrite Hperm, Hxs. apply elem_of_seq. lia. }
    rewrite fmap_app in Hin. apply elem_of_app in Hin as [Hin|Hin].
    - left. rewrite Hrel in Hin. apply elem_of_seq in Hin. lia.
    - right. apply list_elem_of_fmap in Hin as (y & -> & Hy). eauto. }
  assert (pending r = ∅) as Hempty.
  { apply map_eq. intros i. rewrite lookup_empty.
    destruct (pending r !! i) as [x|] eqn:E; [exfalso|reflexivity].
    destruct (Hpend _ _ E) as [Hx Hle].
    assert (i <> next_expected r) as Hne by congruence.
    assert (i ∈ seq 0 n) as Hin.
    { rewrite <- Hxs, <- Hperm, <- Hx. apply list_elem_of_fmap_2.
      apply elem_of_app. right. unfold pending_items.
      apply list_elem_of_fmap. exists (i, x). split; [reflexivity|].
      apply elem_of_map_to_list. assumption. }
    apply elem_of_seq in Hin.
    destruct (Hall (next_expected r)) as [?|[y Hy]]; [lia|lia|congruence]. }
  assert (released ≡ₚ xs) as Hrelperm.
  { rewrite <- Hperm. unfold pending_items. rewrite Hempty, map_to_list_empty.
    cbn. rewrite app_nil_r. reflexivity. }
  repeat split; try assumption.
  assert (length (seq 0 (next_expected r)) = length (seq 0 n)) as Hlen.
  { rewrite <- Hrel, <- Hxs, !length_fmap. rewrite Hrelperm. reflexivity. }
  rewrite !length_seq in Hlen. assumption.
Qed.

Lemma record_sink_records {P} :
  records_to (@record_sink P) (fun _ => True) id id.
Proof. intros x w _. exists (w ++ [x]). auto. Qed.

(** C3.  For every [n] and every list of items whose indices are a
    permutation of [0 .. n-1], pushing the items one at a time makes the
    sink receive them in the order of their indices 0, 1, ..., n-1, each
    exactly once, and leaves nothing buffered. *)
Theorem order_restorer_complete {P} (index_fn : P -> nat) (xs : list P) (n : nat) :
  index_fn <$> xs ≡ₚ seq 0 n ->
  exists r sink,
    push_all index_fn record_sink xs new_restorer [] = (Ok r, sink) /\
    index_fn <$> sink = seq 0 n /\
    sink ≡ₚ xs /\
    pending r = ∅ /\
    next_expected r = n.
Proof.
  intros Hxs.
  destruct (push_all_restores index_fn record_sink (fun _ => True) id id []
              record_sink_records xs [] new_restorer [] [])
    as (r & sink & released & Hrun & Hinv & _ & Hsink).
  - apply new_restorer_inv.
  - split; [exact I|reflexivity].
  - cbn. rewrite Hxs. apply NoDup_seq.
  - cbn in Hinv, Hsink. rewrite list_fmap_id in Hsink. subst released.
    destruct (restorer_inv_complete index_fn xs n r sink Hinv Hxs)
      as (Hempty & Hn & Hperm).
    exists r, sink. repeat split; try assumption.
    destruct Hinv as [(Hrel & _) _]. rewrite Hrel, Hn. reflexivity.
Qed.

Lemma order_restorer_complete_witness :
  exists r sink,
    push_all id record_sink [2; 0; 1]%nat new_restorer [] = (Ok r, sink) /\
    id <$> sink = seq 0 3 /\
    sink ≡ₚ [2; 0; 1]%nat /\
    pending r = ∅ /\
    next_expected r = 3%nat.
Proof.
  apply (order_restorer_complete id [2; 0; 1]%nat 3).
  cbn. apply perm_trans with [0; 2; 1]%nat.
  - apply perm_swap.
  - apply perm_skip, perm_swap.
Defined.

(** The example of the specification, evaluated: indices pushed in the
    order 2, 0, 1 reach the sink in the order 0, 1, 2. *)
Example order_restorer_example :
  let items := [(2%nat, "c"); (0%nat, "a"); (1%nat, "b")] in
  exists r,
    push_all fst record_sink items new_restorer [] =
      (Ok r, [(0%nat, "a"); (1%nat, "b"); (2%nat, "c")]).
Proof. eexists. vm_compute. reflexivity. Qed.

(** ** The output stream of [infer] and [score] *)

Lemma keeps_open_ret {A} (Q : A -> Prop) (a : A) : Q a -> keeps_open Q (ret a).
Proof. intros Ha w H. cbn. auto. Qed.

Lemma keeps_open_raise {A} (Q : A -> Prop) e : keeps_open Q (raise e).
Proof. intros w H. cbn. assumption. Qed.

Lemma keeps_open_bind {A B} (Q : A -> Prop) (R : B -> Prop)
    (m : M IOWorld A) (k : A -> M IOWorld B) :
  keeps_open Q m -> (forall a, Q a -> keeps_open R (k a)) ->
  keeps_open R (bind m k).
Proof.
  intros Hm Hk w Hw. unfold bind. specialize (Hm w Hw).
  destruct (m w) as [[a|e|] w1]; cbn in *.
  - destruct Hm as [Hw1 Ha]. apply (Hk a Ha). assumption.
  - assumption.
  - assumption.
Qed.

Lemma keeps_open_write line :
  keeps_open (fun _ => True) (stream_write FileStream line).
Proof. intros w Hw. unfold stream_write. rewrite Hw. cbn. auto. Qed.

Lemma keeps_open_drain (cb : Prediction -> M IOWorld unit) :
  (forall x, keeps_open (fun _ => True) (cb x)) ->
  forall fuel r, (size (pending r) <= fuel)%nat ->
  keeps_open (fun _ => True) (while_loop fuel drain_guard (drain_step cb) r).
Proof.
  intros Hcb. induction fuel as [|fuel IH]; intros r Hsize.
  - cbn [while_loop]. unfold drain_guard.
    assert (pending r = ∅) as -> by (apply map_size_empty_iff; lia).
    rewrite lookup_empty, bool_decide_eq_false_2 by (intros [? ?]; discriminate).
    apply keeps_open_ret. exact I.
  - rewrite while_loop_unfold. destruct (drain_guard r) eqn:G;
      [|apply keeps_open_ret; exact I].
    unfold drain_guard in G. apply bool_decide_eq_true in G as [x Hx].
    apply keeps_open_bind
      with (Q := fun r' => (size (pending r') <= fuel)%nat).
    + unfold drain_step. rewrite Hx.
      eapply keeps_open_bind; [apply Hcb|].
      intros _ _. apply keeps_open_ret. cbn.
      rewrite map_size_delete_Some by eauto. lia.
    + intros r' Hr'. apply IH. assumption.
Qed.

Lemma keeps_open_push (cb : Prediction -> M IOWorld unit) index_fn x r :
  (forall y, keeps_open (fun _ => True) (cb y)) ->
  keeps_open (fun _ => True) (push index_fn cb x r).
Proof.
  intros Hcb. unfold push.
  destruct (index_fn x =? next_expected r)%nat.
  - eapply keeps_open_bind; [apply Hcb|]. intros _ _.
    unfold drain. apply keeps_open_drain; [assumption|cbn; lia].
  - destruct (next_expected r <? index_fn x)%nat; [|apply keeps_open_raise].
    destruct (pending r !! index_fn x);
      [apply keeps_open_raise|apply keeps_open_ret; exact I].
Qed.

Lemma keeps_open_write_predictions ps :
  forall writer,
  keeps_open (fun _ => True) (write_predictions FileStream ps writer).
Proof.
  induction ps as [|p ps IH]; intros writer; cbn [write_predictions].
  - apply keeps_open_ret. exact I.
  - destruct (index p).
    + eapply keeps_open_bind.
      * apply keeps_open_push. intros y. apply keeps_open_write.
      * intros r _. apply IH.
    + eapply keeps_open_bind; [apply keeps_open_write|].
      intros _ _. apply IH.
Qed.

Lemma keeps_open_infer_loop log_time dataset :
  forall writer t,
  keeps_open (fun _ => True) (infer_loop FileStream log_time dataset writer t).
Proof.
  induction dataset as [|b dataset IH]; intros writer t; cbn [infer_loop].
  - apply keeps_open_ret. exact I.
  - destruct (batch_predictions b) as [e|ps]; [apply keeps_open_raise|].
    eapply keeps_open_bind; [apply keeps_open_write_predictions|].
    intros w _. apply IH.
Qed.

Lemma keeps_open_write_lines lines :
  keeps_open (fun _ => True) (write_lines FileStream lines).
Proof.
  induction lines as [|l lines IH]; cbn [write_lines].
  - apply keeps_open_ret. exact I.
  - eapply keeps_open_bind; [apply keeps_open_write|]. intros _ _. exact IH.
Qed.

Lemma keeps_open_score_loop dataset :
  keeps_open (fun _ => True) (score_loop FileStream dataset).
Proof.
  induction dataset as [|[e|lines] dataset IH]; cbn [score_loop].
  - apply keeps_open_ret. exact I.
  - apply keeps_open_raise.
  - eapply keeps_open_bind; [apply keeps_open_write_lines|].
    intros _ _. exact IH.
Qed.

(** C8 (amended).  An execution of [infer] or of [score] that opened a file
    for writing closes it when it returns; when an exception ends it, the
    file is left open: [stream.close()] is the last statement of both
    methods and nothing guards it. *)
Theorem output_stream_closed_on_return
    (predictions_file output_file : option string) (log_time : bool)
    (batches : list InferBatch) (model : ModelKind)
    (scored : list (exn + list string)) (w : IOWorld) :
  (truthy predictions_file = true ->
   match infer predictions_file log_time batches w with
   | (Ok _, w') => file_status w' = Closed
   | (Raise _, w') => file_status w' = Opened
   | (OutOfFuel, _) => False
   end) /\
  (truthy output_file = true ->
   model <> OtherModel ->
   (model = SequenceToSequence -> truthy predictions_file = true) ->
   match score model predictions_file output_file scored w with
   | (Ok _, w') => file_status w' = Closed
   | (Raise _, w') => file_status w' = Opened
   | (OutOfFuel, _) => False
   end).
Proof.
  split.
  - intros Hfile. unfold infer. rewrite Hfile.
    unfold bind at 1. cbn [io_open].
    set (w1 := {| file_status := Opened; file_lines := [];
                  stdout_lines := stdout_lines w |}).
    unfold bind at 1.
    pose proof (keeps_open_infer_loop log_time batches None
      {| total_time := 0; total_tokens := 0; total_examples := 0 |} w1 eq_refl)
      as Hloop.
    destruct (infer_loop _ _ _ _ _ w1) as [[t|e|] w2]; [|assumption|assumption].
    destruct Hloop as [Hopen _].
    unfold bind. destruct log_time; cbn.
    + destruct (total_examples t =? 0); [exact Hopen|reflexivity].
    + reflexivity.
  - intros Hfile Hmodel Hpred. unfold score.
    assert (match model with
            | SequenceToSequence => negb (truthy predictions_file)
            | _ => false
            end = false) as ->.
    { destruct model; try reflexivity. rewrite Hpred; reflexivity. }
    rewrite Hfile.
    assert (forall m : M IOWorld unit,
      match m w with
      | (Ok _, w') => file_status w' = Closed
      | (Raise _, w') => file_status w' = Opened
      | (OutOfFuel, _) => False
      end ->
      match match model with OtherModel => raise ValueError | _ => m end w with
      | (Ok _, w') => file_status w' = Closed
      | (Raise _, w') => file_status w' = Opened
      | (OutOfFuel, _) => False
      end) as Hcase.
    { intros m Hm. destruct model; [exact Hm|exact Hm|congruence]. }
    apply Hcase. clear Hcase.
    unfold bind at 1. cbn [io_open].
    set (w1 := {| file_status := Opened; file_lines := [];
                  stdout_lines := stdout_lines w |}).
    unfold bind.
    pose proof (keeps_open_score_loop scored w1 eq_refl) as Hloop.
    destruct (score_loop _ _ w1) as [[u|e|] w2]; [|assumption|assumption].
    reflexivity.
Qed.

Lemma output_stream_closed_on_return_witness :
  match infer (Some "out.txt") false shuffled_batches initial_io with
  | (Ok _, w') => file_status w' = Closed
  | (Raise _, w') => file_status w' = Opened
  | (OutOfFuel, _) => False
  end /\
  match score LanguageModel None (Some "scores.txt") [inr ["x"; "y"]] initial_io with
  | (Ok _, w') => file_status w' = Closed
  | (Raise _, w') => file_status w' = Opened
  | (OutOfFuel, _) => False
  end.
Proof.
  split.
  - refine (proj1 (output_stream_closed_on_return (Some "out.txt")
             (Some "scores.txt") false shuffled_batches LanguageModel
             [inr ["x"; "y"]] initial_io) _).
    reflexivity.
  - refine (proj2 (output_stream_closed_on_return None (Some "scores.txt")
             false shuffled_batches LanguageModel [inr ["x"; "y"]] initial_io)
             _ _ _).
    + reflexivity.
    + discriminate.
    + discriminate.
Defined.

(** Inference over batches that arrive out of order: the lines are written
    in the order of their indices and the file is closed. *)
Example infer_example_run :
  infer (Some "out.txt") true shuffled_batches initial_io =
    (Ok tt, {| file_status := Closed; file_lines := ["a"; "b"; "c"];
               stdout_lines := [] |}).
Proof. vm_compute. reflexivity. Qed.

(** C8, as stated, fails.  A batch that raises in the middle of the loop
    ends [infer] and [score] with the file still open, and so does the
    division by the zero number of examples that [infer] performs after the
    loop when [log_time] is set and the dataset is empty. *)
Lemma output_stream_left_open_on_error :
  (let r := infer (Some "out.txt") false [failing_batch] initial_io in
   fst r = Raise ModelError /\ file_status (snd r) = Opened) /\
  (let r := infer (Some "out.txt") true [] initial_io in
   fst r = Raise ZeroDivisionError /\ file_status (snd r) = Opened) /\
  (let r := score LanguageModel None (Some "scores.txt")
              [inr ["x"]; inl ModelError] initial_io in
   fst r = Raise ModelError /\ file_status (snd r) = Opened).
Proof. vm_compute. repeat split. Qed.


(** ** [infer] writes indexed predictions in the order of their indices *)

Lemma write_fn_records :
  records_to (write_fn FileStream) (fun w => file_status w = Opened)
    file_lines text.
Proof.
  intros p w Hw. unfold write_fn, stream_write. rewrite Hw.
  eexists. split; [reflexivity|]. cbn. auto.
Qed.

Lemma write_predictions_restores sink0 :
  forall ps pushed ow w released,
  Forall (fun p => is_Some (index p)) ps ->
  restorer_inv index_of pushed (writer_of ow) released ->
  sink_holds (fun w => file_status w = Opened) file_lines text sink0 w released ->
  NoDup (index_of <$> (pushed ++ ps)) ->
  exists ow' w' released',
    write_predictions FileStream ps ow w = (Ok ow', w') /\
    restorer_inv index_of (pushed ++ ps) (writer_of ow') released' /\
    sink_holds (fun w => file_status w = Opened) file_lines text sink0 w' released'.
Proof.
  induction ps as [|p ps IH]; intros pushed ow w released Hps Hinv Hsink Hnd.
  - exists ow, w, released. rewrite app_nil_r. auto.
  - apply Forall_cons in Hps as [[i Hi] Hps]. cbn [write_predictions].
    rewrite Hi. fold (writer_of ow).
    destruct (push_restores index_of (write_fn FileStream) _ _ _ sink0
                write_fn_records pushed p (writer_of ow) w released Hinv Hsink)
      as (r1 & w1 & released1 & Hpush & Hinv1 & Hsink1).
    { rewrite fmap_app in Hnd. apply NoDup_app in Hnd as (_ & Hdis & _).
      intros Hin. apply (Hdis _ Hin). cbn. left. }
    rewrite (bind_eq_ok _ _ _ _ _ Hpush).
    replace (pushed ++ p :: ps) with ((pushed ++ [p]) ++ ps) in *
      by (rewrite <- app_assoc; reflexivity).
    apply (IH _ (Some r1) w1 released1); assumption.
Qed.

Lemma infer_loop_restores sink0 log_time :
  forall dataset pushed ow t w released,
  Forall indexed_batch dataset ->
  restorer_inv index_of pushed (writer_of ow) released ->
  sink_holds (fun w => file_status w = Opened) file_lines text sink0 w released ->
  NoDup (index_of <$> (pushed ++ all_predictions dataset)) ->
  exists t' w' ow' released',
    infer_loop FileStream log_time dataset ow t w = (Ok t', w') /\
    restorer_inv index_of (pushed ++ all_predictions dataset)
      (writer_of ow') released' /\
    sink_holds (fun w => file_status w = Opened) file_lines text sink0 w' released'.
Proof.
  induction dataset as [|b dataset IH];
    intros pushed ow t w released Hds Hinv Hsink Hnd.
  - exists t, w, ow, released. cbn. rewrite app_nil_r. auto.
  - apply Forall_cons in Hds as [(ps & Hb & Hps) Hds].
    cbn [infer_loop all_predictions flat_map] in *. rewrite Hb in *.
    fold (all_predictions dataset) in *. rewrite app_assoc in Hnd.
    destruct (write_predictions_restores sink0 ps pushed ow w released
                Hps Hinv Hsink)
      as (ow1 & w1 & released1 & Hwrite & Hinv1 & Hsink1).
    { rewrite fmap_app in Hnd. apply NoDup_app in Hnd as (Hnd & _). exact Hnd. }
    rewrite (bind_eq_ok _ _ _ _ _ Hwrite). rewrite app_assoc.
    apply (IH _ ow1 _ w1 released1); assumption.
Qed.

(** When every batch comes with indexed predictions and the indices are a
    permutation of [0 .. n-1], [infer] writes the predictions to the file
    in the order of their indices, each exactly once, and closes the
    file. *)
Lemma infer_writes_in_index_order predictions_file dataset n w :
  truthy predictions_file = true ->
  Forall indexed_batch dataset ->
  index_of <$> all_predictions dataset ≡ₚ seq 0 n ->
  exists w' released,
    infer predictions_file false dataset w = (Ok tt, w') /\
    file_status w' = Closed /\
    file_lines w' = text <$> released /\
    index_of <$> released = seq 0 n /\
    released ≡ₚ all_predictions dataset.
Proof.
  intros Hfile Hds Hperm. unfold infer. rewrite Hfile.
  unfold bind at 1. cbn [io_open].
  set (w1 := {| file_status := Opened; file_lines := [];
                stdout_lines := stdout_lines w |}).
  destruct (infer_loop_restores [] false dataset [] None
              {| total_time := 0; total_tokens := 0; total_examples := 0 |}
              w1 [] Hds (new_restorer_inv index_of))
    as (t & w2 & ow & released & Hloop & Hinv & Hopen & Hlines).
  - split; reflexivity.
  - cbn. rewrite Hperm. apply NoDup_seq.
  - rewrite (bind_eq_ok _ _ _ _ _ Hloop). cbn in Hinv, Hlines.
    destruct (restorer_inv_complete index_of _ n _ _ Hinv Hperm)
      as (_ & Hn & Hrel).
    eexists _, released. split; [reflexivity|]. cbn.
    repeat split; try assumption.
    destruct Hinv as [(Hidx & _) _]. rewrite Hidx, Hn. reflexivity.
Qed.

(** ** Gradient accumulation *)

Lemma pending_start_le k i : 1 <= k -> (pending_start k i <= i)%nat.
Proof.
  intros Hk. unfold pending_start.
  destruct (Nat.eqb_spec i 0); [lia|].
  destruct (Z.ltb_spec (Z.of_nat i) k); [lia|].
  pose proof (Z.mod_pos_bound (Z.of_nat i) k ltac:(lia)). lia.
Qed.

Lemma pending_start_applied k i :
  1 <= k -> apply_at k i = true -> pending_start k (S i) = S i.
Proof.
  intros Hk Ha. unfold apply_at, pending_start in *.
  change (S i =? 0)%nat with false. cbn [negb].
  destruct (Nat.eqb_spec i 0) as [->|Hi]; cbn in Ha.
  - destruct (Z.ltb_spec (Z.of_nat 1) k); [reflexivity|].
    assert (k = 1) as -> by lia. reflexivity.
  - apply Z.eqb_eq in Ha.
    replace (Z.of_nat (S i)) with (Z.of_nat i + 1) by lia.
    pose proof (Z.div_mod (Z.of_nat i + 1) k ltac:(lia)) as Hdm.
    rewrite Ha in *.
    destruct (Z.ltb_spec (Z.of_nat i + 1) k) as [Hlt|Hge]; [|lia].
    assert ((Z.of_nat i + 1) / k = 0) by (apply Z.div_small; lia). lia.
Qed.

Lemma mod_succ (a k : Z) :
  1 <= k -> (a + 1) mod k <> 0 -> (a + 1) mod k = a mod k + 1.
Proof.
  intros Hk Hne.
  pose proof (Z.mod_pos_bound a k ltac:(lia)) as Hb.
  destruct (Z.eq_dec (a mod k + 1) k) as [E|E].
  - exfalso. apply Hne.
    rewrite <- Z.add_mod_idemp_l by lia. rewrite E. apply Z.mod_same. lia.
  - rewrite <- Z.add_mod_idemp_l by lia. apply Z.mod_small. lia.
Qed.

Lemma pending_start_not_applied k i :
  1 <= k -> apply_at k i = false -> pending_start k (S i) = pending_start k i.
Proof.
  intros Hk Ha. unfold apply_at, pending_start in *.
  change (S i =? 0)%nat with false. cbn [negb].
  destruct (Nat.eqb_spec i 0) as [->|Hi]; cbn in Ha; [discriminate|].
  apply Z.eqb_neq in Ha.
  replace (Z.of_nat (S i)) with (Z.of_nat i + 1) by lia.
  pose proof (mod_succ (Z.of_nat i) k Hk Ha) as Hs.
  destruct (Z.ltb_spec (Z.of_nat i + 1) k) as [Hlt|Hge].
  - destruct (Z.ltb_spec (Z.of_nat i) k); [reflexivity|lia].
  - destruct (Z.ltb_spec (Z.of_nat i) k) as [Hlt'|Hge'].
    + exfalso. assert (Z.of_nat i + 1 = k) as E by lia.
      apply Ha. rewrite E. apply Z.mod_same. lia.
    + rewrite Hs. f_equal. lia.
Qed.

Lemma pending_start_window k i :
  1 <= k -> apply_at k i = true ->
  pending_start k i = (S i - window_len k i)%nat.
Proof.
  intros Hk Ha. unfold apply_at, pending_start, window_len in *.
  destruct (Nat.eqb_spec i 0) as [->|Hi]; cbn in Ha; [reflexivity|].
  apply Z.eqb_eq in Ha.
  pose proof (Z.div_mod (Z.of_nat i + 1) k ltac:(lia)) as Hdm.
  rewrite Ha in Hdm.
  destruct (Z.eqb_spec (Z.of_nat i) (k - 1)) as [E|E].
  - clear Hdm Ha. destruct (Z.ltb_spec (Z.of_nat i) k); lia.
  - assert (0 < (Z.of_nat i + 1) / k) by nia.
    assert ((Z.of_nat i + 1) / k <> 1) by nia.
    destruct (Z.ltb_spec (Z.of_nat i) k) as [Hlt|Hge]; [nia|].
    pose proof (mod_succ (Z.of_nat i) k Hk) as Hs.
    destruct (Z.eq_dec k 1) as [->|Hk1].
    + rewrite Z.mod_1_r. lia.
    + assert (Z.of_nat i mod k = k - 1) as Hm.
      { pose proof (Z.mod_pos_bound (Z.of_nat i) k ltac:(lia)) as Hb.
        destruct (Z.eq_dec (Z.of_nat i mod k) (k - 1)) as [?|Hne]; [assumption|].
        exfalso.
        rewrite <- Z.add_mod_idemp_l in Ha by lia.
        rewrite Z.mod_small in Ha by lia. lia. }
      rewrite Hm. lia.
Qed.

Lemma window_len_pos k i : 1 <= k -> apply_at k i = true ->
  (1 <= window_len k i <= S i)%nat.
Proof.
  intros Hk Ha. unfold window_len, apply_at in *.
  destruct (Nat.eqb_spec i 0); cbn in Ha; [lia|].
  apply Z.eqb_eq in Ha.
  assert (k <= Z.of_nat i + 1).
  { destruct (Z.le_gt_cases k (Z.of_nat i + 1)) as [?|Hgt]; [assumption|].
    rewrite Z.mod_small in Ha by lia. lia. }
  clear Ha. destruct (Z.eqb_spec (Z.of_nat i) (k - 1)); lia.
Qed.


Section AccumulationProofs.

Context {T : Type}.
Variable tadd : T -> T -> T.
Variable zeros_like : T -> T.

Lemma length_assign_add (b g : list T) :
  length (assign_add tadd b g) = length b.
Proof.
  revert g. induction b as [|x b IH]; intros [|y g]; cbn; try reflexivity.
  rewrite IH. reflexivity.
Qed.

Lemma lookup_assign_add (b g : list T) j :
  length b = length g ->
  assign_add tadd b g !! j =
    match b !! j, g !! j with
    | Some x, Some y => Some (tadd x y)
    | _, _ => None
    end.
Proof.
  revert g j. induction b as [|x b IH]; intros [|y g] j Hlen;
    try discriminate; [reflexivity|].
  destruct j as [|j]; cbn; [reflexivity|]. apply IH. cbn in Hlen. lia.
Qed.

Lemma zero_vec_map n (g : list T) :
  length g = n -> zero_vec zeros_like n (map zeros_like g).
Proof.
  intros Hn. split; [rewrite length_map; assumption|].
  apply Forall_map. apply Forall_true. intros x. cbn. eauto.
Qed.

Lemma accumulate_snoc (gs : list (list T)) g :
  gs <> [] ->
  accumulate tadd (gs ++ [g]) = assign_add tadd (accumulate tadd gs) g.
Proof.
  destruct gs as [|g0 gs]; [congruence|]. intros _. cbn.
  rewrite fold_left_app. reflexivity.
Qed.

Lemma length_fold_assign_add (gs : list (list T)) b :
  length (fold_left (assign_add tadd) gs b) = length b.
Proof.
  revert b. induction gs as [|g gs IH]; intros b; cbn; [reflexivity|].
  rewrite IH. apply length_assign_add.
Qed.

Lemma length_accumulate n (gs : list (list T)) :
  Forall (fun g => length g = n) gs -> gs <> [] ->
  length (accumulate tadd gs) = n.
Proof.
  destruct gs as [|g gs]; [congruence|]. intros H _. cbn.
  rewrite length_fold_assign_add. apply Forall_cons in H as [H _]. exact H.
Qed.

Lemma lookup_fold_assign_add n (gs : list (list T)) :
  Forall (fun g => length g = n) gs ->
  forall b j, length b = n ->
  fold_left (assign_add tadd) gs b !! j =
    match b !! j with
    | Some x => Some (fold_left tadd (column j gs) x)
    | None => None
    end.
Proof.
  induction gs as [|g gs IH]; intros Hgs b j Hb.
  - cbn. destruct (b !! j); reflexivity.
  - apply Forall_cons in Hgs as [Hg Hgs]. cbn [fold_left].
    rewrite IH; [|assumption|rewrite length_assign_add; assumption].
    rewrite lookup_assign_add by congruence.
    destruct (b !! j) as [x|] eqn:Ex; [|reflexivity].
    unfold column. cbn.
    destruct (g !! j) as [y|] eqn:Ey; [reflexivity|].
    apply lookup_lt_Some in Ex. apply lookup_ge_None in Ey. lia.
Qed.

Lemma column_cons (g : list T) gs j :
  column j (g :: gs) =
    match g !! j with
    | Some x => x :: column j gs
    | None => column j gs
    end.
Proof. reflexivity. Qed.

Lemma column_beyond n (gs : list (list T)) j :
  Forall (fun g => length g = n) gs -> (n <= j)%nat -> column j gs = [].
Proof.
  induction gs as [|g gs IH]; intros H Hj; [reflexivity|].
  apply Forall_cons in H as [Hg Hgs]. rewrite column_cons.
  rewrite (proj2 (lookup_ge_None g j)) by lia. apply IH; assumption.
Qed.

(** The accumulated buffers, variable by variable. *)
Lemma lookup_accumulate n (gs : list (list T)) j :
  Forall (fun g => length g = n) gs ->
  accumulate tadd gs !! j = var_sum tadd (column j gs).
Proof.
  destruct gs as [|g gs]; [reflexivity|]. intros H.
  apply Forall_cons in H as [Hg Hgs]. cbn [accumulate].
  rewrite (lookup_fold_assign_add n), column_cons by assumption.
  destruct (g !! j) as [x|] eqn:Ex; [reflexivity|].
  apply lookup_ge_None in Ex.
  rewrite (column_beyond n) by (assumption || lia). reflexivity.
Qed.

Lemma slice_snoc {A} (ds : list A) lo i g :
  ds !! i = Some g -> (lo <= i)%nat ->
  slice lo (S i) ds = slice lo i ds ++ [g].
Proof.
  intros Hg Hlo. unfold slice. rewrite (take_S_r _ _ _ Hg).
  apply lookup_lt_Some in Hg.
  rewrite drop_app_le; [reflexivity|]. rewrite length_take. lia.
Qed.

Lemma slice_empty {A} (ds : list A) i : slice i i ds = [].
Proof. unfold slice. apply drop_ge. rewrite length_take. lia. Qed.

Lemma slice_nonempty {A} (ds : list A) lo i :
  (lo < i)%nat -> (i <= length ds)%nat -> slice lo i ds <> [].
Proof.
  intros Hlo Hi E. apply (f_equal length) in E. unfold slice in E.
  rewrite length_drop, length_take in E. cbn in E. lia.
Qed.

Lemma length_slice {A} (ds : list A) lo i :
  (i <= length ds)%nat -> length (slice lo i ds) = (i - lo)%nat.
Proof. intros Hi. unfold slice. rewrite length_drop, length_take. lia. Qed.

End AccumulationProofs.


Section AccumulationLoop.

Context {T : Type}.
Variable tadd : T -> T -> T.
Variable zeros_like : T -> T.

(** Adding to a buffer of zeros gives what was added. *)
Hypothesis zeros_add : forall u g, tadd (zeros_like u) g = g.

Lemma assign_add_zero n (b g : list T) :
  zero_vec zeros_like n b -> length g = n -> assign_add tadd b g = g.
Proof.
  intros [Hlen Hz] Hg. subst n. revert g Hg.
  induction Hz as [|x b [u ->] _ IH]; intros [|y g] Hg; try discriminate.
  - reflexivity.
  - cbn. rewrite zeros_add, IH; [reflexivity|]. cbn in Hg. lia.
Qed.

Lemma after_apply_frame re ss ts (w : @TrainWorld T) :
  gradients (snd (after_apply re ss ts w)) = gradients w /\
  exists evs,
    trace (snd (after_apply re ss ts w)) = trace w ++ evs /\
    Forall is_bookkeeping evs.
Proof.
  unfold after_apply, bind, gets, lift, log_event, modify, ret. cbn.
  destruct (np_mod (iterations w) re) as [r|e|]; cbn;
    [|split; [reflexivity|exists []; rewrite app_nil_r; auto]..].
  destruct (r =? 0); cbn.
  - destruct (np_mod (iterations w) ss) as [s|e|]; cbn;
      [|split; [reflexivity|eexists [_]; split; [reflexivity|repeat constructor]]..].
    destruct ((s =? 0) || py_eq (iterations w) ts); cbn.
    + split; [reflexivity|]. eexists [_; _].
      rewrite <- app_assoc. split; [reflexivity|repeat constructor].
    + split; [reflexivity|]. eexists [_]. split; [reflexivity|repeat constructor].
  - destruct (np_mod (iterations w) ss) as [s|e|]; cbn;
      [|split; [reflexivity|exists []; rewrite app_nil_r; auto]..].
    destruct ((s =? 0) || py_eq (iterations w) ts); cbn.
    + split; [reflexivity|]. eexists [_]. split; [reflexivity|repeat constructor].
    + split; [reflexivity|]. exists []. rewrite app_nil_r; auto.
Qed.

Lemma train_loop_cons k re ss ts i g rest (w : @TrainWorld T) :
  k <> 0 ->
  train_loop tadd zeros_like (Some k) re ss ts i (g :: rest) w =
  bind (after_apply re ss ts)
       (fun stop : bool =>
          if stop then ret tt
          else train_loop tadd zeros_like (Some k) re ss ts (S i) rest)
       (stepped tadd zeros_like k i g w).
Proof.
  intros Hk. cbn [train_loop]. unfold stepped, apply_at.
  unfold bind at 1. cbn [_step modify snd].
  unfold bind at 1.
  destruct (Nat.eqb_spec i 0) as [->|Hi]; cbn [orb ret].
  - unfold bind at 1. cbn [_apply_gradients modify snd].
    unfold after_apply, bind, gets, lift, ret. cbn.
    destruct (np_mod _ re) as [r|e|]; cbn; try reflexivity.
    destruct (r =? 0); cbn;
      destruct (np_mod _ ss) as [s|e|]; cbn; try reflexivity;
      destruct ((s =? 0) || py_eq _ ts); cbn;
      destruct (py_eq _ ts); reflexivity.
  - assert (py_mod (Z.of_nat i + 1) (Some k) = Ok ((Z.of_nat i + 1) mod k)) as ->.
    { unfold py_mod. destruct (Z.eqb_spec k 0); [congruence|reflexivity]. }
    unfold bind at 1. cbn [lift ret].
    destruct ((Z.of_nat i + 1) mod k =? 0).
    + unfold bind at 1. cbn [_apply_gradients modify snd].
      unfold after_apply, bind, gets, lift, ret. cbn.
      destruct (np_mod _ re) as [r|e|]; cbn; try reflexivity.
      destruct (r =? 0); cbn;
        destruct (np_mod _ ss) as [s|e|]; cbn; try reflexivity;
        destruct ((s =? 0) || py_eq _ ts); cbn;
        destruct (py_eq _ ts); reflexivity.
    + unfold bind at 1. cbn [ret snd].
      unfold after_apply, bind, gets, lift, ret. cbn.
      destruct (np_mod _ re) as [r|e|]; cbn; try reflexivity.
      destruct (r =? 0); cbn;
        destruct (np_mod _ ss) as [s|e|]; cbn; try reflexivity;
        destruct ((s =? 0) || py_eq _ ts); cbn;
        destruct (py_eq _ ts); reflexivity.
Qed.


Lemma accum_inv_bookkeeping k n ds tr0 i (w w' : @TrainWorld T) evs :
  accum_inv tadd zeros_like k n ds tr0 i w ->
  gradients w' = gradients w ->
  trace w' = trace w ++ evs ->
  Forall is_bookkeeping evs ->
  accum_inv tadd zeros_like k n ds tr0 i w'.
Proof.
  intros (tr & Htr & HA & HS & HB) Hg Ht Hevs.
  assert (forall ev, ~ is_bookkeeping ev -> ev ∈ tr ++ evs -> ev ∈ tr) as Hin.
  { intros ev Hev Hin. apply elem_of_app in Hin as [?|Hin]; [assumption|].
    exfalso. apply Hev. rewrite Forall_forall in Hevs. auto. }
  exists (tr ++ evs). split; [|split; [|split]].
  - rewrite Ht, Htr, app_assoc. reflexivity.
  - intros i' vals Hi'. apply HA. apply Hin; [|assumption]. cbn. auto.
  - intros i' g Hi'. apply Hin in Hi'; [|cbn; auto].
    destruct (HS _ _ Hi') as (? & ? & Hex). repeat split; try assumption.
    intros Ha. destruct (Hex Ha) as [vals Hv]. exists vals.
    apply elem_of_app. auto.
  - rewrite Hg. exact HB.
Qed.

Lemma stepped_gradients k n ds tr0 i g (w : @TrainWorld T) :
  1 <= k ->
  Forall (fun g => length g = n) ds ->
  ds !! i = Some g ->
  accum_inv tadd zeros_like k n ds tr0 i w ->
  gradients (snd (_step tadd zeros_like i g w)) =
    accumulate tadd (slice (pending_start k i) (S i) ds) /\
  length (gradients (snd (_step tadd zeros_like i g w))) = n.
Proof.
  intros Hk Hds Hg (tr & _ & _ & _ & HB).
  assert (length g = n) as Hlen.
  { rewrite Forall_forall in Hds. apply Hds. eapply list_elem_of_lookup_2.
    eassumption. }
  pose proof (pending_start_le k i Hk) as Hle.
  pose proof (lookup_lt_Some _ _ _ Hg) as Hi.
  cbn [_step modify snd gradients].
  rewrite (slice_snoc ds _ i g Hg Hle).
  destruct (decide (pending_start k i = i)) as [E|E].
  - rewrite E, slice_empty. cbn [app accumulate fold_left].
    assert (zero_vec zeros_like n
              match gradients w with
              | [] => map zeros_like g
              | _ :: _ => gradients w
              end) as Hz.
    { destruct HB as [->|Hz]; [apply zero_vec_map; assumption|].
      destruct (gradients w); [apply zero_vec_map|]; assumption. }
    rewrite (assign_add_zero n) by assumption. auto.
  - assert (slice (pending_start k i) i ds <> []) as Hne
      by (apply slice_nonempty; lia).
    assert (Forall (fun g => length g = n) (slice (pending_start k i) i ds))
      as Hall.
    { unfold slice. apply Forall_drop, Forall_take. assumption. }
    pose proof (length_accumulate tadd n _ Hall Hne) as Hacc.
    rewrite accumulate_snoc by assumption. rewrite <- HB in *.
    assert (match gradients w with
            | [] => map zeros_like g
            | _ :: _ => gradients w
            end = gradients w) as ->.
    { destruct (gradients w) eqn:Eg; [|reflexivity].
      cbn in Hacc. subst n. destruct g; [reflexivity|discriminate]. }
    split; [reflexivity|]. rewrite length_assign_add. assumption.
Qed.

Lemma stepped_inv k n ds tr0 i g (w : @TrainWorld T) :
  1 <= k ->
  Forall (fun g => length g = n) ds ->
  ds !! i = Some g ->
  accum_inv tadd zeros_like k n ds tr0 i w ->
  accum_inv tadd zeros_like k n ds tr0 (S i) (stepped tadd zeros_like k i g w).
Proof.
  intros Hk Hds Hg Hinv.
  destruct (stepped_gradients k n ds tr0 i g w Hk Hds Hg Hinv) as [Hgr Hlen].
  destruct Hinv as (tr & Htr & HA & HS & HB).
  pose proof (pending_start_le k i Hk) as Hle.
  unfold stepped. destruct (apply_at k i) eqn:Ha.
  - exists (tr ++ [EvStep i g; EvApplied i
                     (gradients (snd (_step tadd zeros_like i g w)))]).
    split; [|split; [|split]].
    + cbn. rewrite Htr, <- !app_assoc. reflexivity.
    + intros i' vals Hin. apply elem_of_app in Hin as [Hin|Hin].
      * destruct (HA _ _ Hin) as (? & ? & ? & ?).
        repeat split; try assumption. lia.
      * apply elem_of_cons in Hin as [Hin|Hin]; [discriminate|].
        apply list_elem_of_singleton in Hin.
        injection Hin as Hi' Hvals. subst i' vals.
        repeat split; [lia|eapply lookup_lt_Some; eassumption|assumption|].
        rewrite <- (pending_start_window k i Hk Ha). exact Hgr.
    + intros i' g' Hin. apply elem_of_app in Hin as [Hin|Hin].
      * destruct (HS _ _ Hin) as (? & ? & Hex).
        repeat split; [lia|assumption|].
        intros Ha'. destruct (Hex Ha') as [vals Hv]. exists vals.
        apply elem_of_app. auto.
      * apply elem_of_cons in Hin as [Hin|Hin].
        -- injection Hin as Hi' Hg'. subst i' g'.
           repeat split; [lia|assumption|].
           intros _. eexists. apply elem_of_app. right.
           apply elem_of_cons. right. apply list_elem_of_singleton. reflexivity.
        -- apply list_elem_of_singleton in Hin. discriminate.
    + rewrite (pending_start_applied k i Hk Ha).
      rewrite decide_True by reflexivity. right. cbn.
      apply zero_vec_map. assumption.
  - exists (tr ++ [EvStep i g]). split; [|split; [|split]].
    + cbn. rewrite Htr, <- !app_assoc. reflexivity.
    + intros i' vals Hin. apply elem_of_app in Hin as [Hin|Hin].
      * destruct (HA _ _ Hin) as (? & ? & ? & ?).
        repeat split; try assumption. lia.
      * apply list_elem_of_singleton in Hin. discriminate.
    + intros i' g' Hin. apply elem_of_app in Hin as [Hin|Hin].
      * destruct (HS _ _ Hin) as (? & ? & Hex).
        repeat split; [lia|assumption|].
        intros Ha'. destruct (Hex Ha') as [vals Hv]. exists vals.
        apply elem_of_app. auto.
      * apply list_elem_of_singleton in Hin.
        injection Hin as Hi' Hg'. subst i' g'.
        repeat split; [lia|assumption|]. congruence.
    + rewrite (pending_start_not_applied k i Hk Ha).
      rewrite decide_False by lia. exact Hgr.
Qed.

Lemma train_loop_accum_inv k n ds tr0 re ss ts :
  1 <= k ->
  Forall (fun g => length g = n) ds ->
  forall rest i (w : @TrainWorld T),
  drop i ds = rest ->
  accum_inv tadd zeros_like k n ds tr0 i w ->
  exists i',
    accum_inv tadd zeros_like k n ds tr0 i'
      (snd (train_loop tadd zeros_like (Some k) re ss ts i rest w)).
Proof.
  intros Hk Hds. induction rest as [|g rest IH]; intros i w Hdrop Hinv.
  - exists i. exact Hinv.
  - assert (ds !! i = Some g) as Hg.
    { rewrite <- (Nat.add_0_r i), <- lookup_drop, Hdrop. reflexivity. }
    assert (drop (S i) ds = rest) as Hdrop'.
    { replace (S i) with (i + 1)%nat by lia.
      rewrite <- drop_drop, Hdrop. reflexivity. }
    rewrite train_loop_cons by lia.
    pose proof (stepped_inv k n ds tr0 i g w Hk Hds Hg Hinv) as Hinv2.
    destruct (after_apply_frame re ss ts (stepped tadd zeros_like k i g w))
      as (Hgr & evs & Htr & Hevs).
    pose proof (accum_inv_bookkeeping _ _ _ _ _ _ _ _ Hinv2 Hgr Htr Hevs) as Hinv3.
    unfold bind.
    destruct (after_apply re ss ts _) as [[stop|e|] w3]; cbn [snd] in *.
    + destruct stop; [exists (S i); exact Hinv3|]. apply IH; assumption.
    + exists (S i). exact Hinv3.
    + exists (S i). exact Hinv3.
Qed.


Lemma filter_bookkeeping (evs : list (@TrainEvent T)) :
  Forall is_bookkeeping evs -> List.filter accum_event evs = [].
Proof.
  induction 1 as [|ev evs Hev _ IH]; [reflexivity|].
  cbn. destruct ev; cbn in Hev; try contradiction; exact IH.
Qed.

Lemma accumulation_schedule_S k (ds : list (list T)) i g :
  ds !! i = Some g ->
  accumulation_schedule tadd k ds (S i) =
    accumulation_schedule tadd k ds i ++
    EvStep i g ::
    (if apply_at k i
     then [EvApplied i (accumulate tadd (slice (S i - window_len k i) (S i) ds))]
     else []).
Proof.
  intros Hg. unfold accumulation_schedule.
  rewrite seq_S, flat_map_app. cbn [flat_map Nat.add]. rewrite Hg, app_nil_r.
  reflexivity.
Qed.

(** With a report period and a checkpoint period in the configuration, the
    part of an iteration that follows the application returns, and says to
    stop exactly when [train_steps] is reached. *)
Lemma after_apply_set r s ts (w : @TrainWorld T) :
  exists w',
    after_apply (Some r) (Some s) ts w = (Ok (py_eq (iterations w) ts), w') /\
    iterations w' = iterations w.
Proof.
  unfold after_apply, bind, gets, lift, np_mod, log_event, modify, ret.
  destruct (r =? 0); destruct (s =? 0); cbn;
    repeat match goal with
           | |- context [if ?b then _ else _] => destruct b; cbn
           end;
    eexists; split; reflexivity.
Qed.

(** The loop takes the steps of the dataset in order, and at every step does
    to the buffers what the schedule says; it goes on to the end of the
    dataset unless [train_steps] is reached or an exception ends it. *)
Lemma train_loop_schedule k n ds tr0 re ss ts :
  1 <= k ->
  Forall (fun g => length g = n) ds ->
  forall rest i (w : @TrainWorld T),
  drop i ds = rest ->
  (i <= length ds)%nat ->
  accum_inv tadd zeros_like k n ds tr0 i w ->
  (exists tr, trace w = tr0 ++ tr /\
              List.filter accum_event tr = accumulation_schedule tadd k ds i) ->
  exists j tr,
    (i <= j <= length ds)%nat /\ (rest <> [] -> (i < j)%nat) /\
    trace (snd (train_loop tadd zeros_like (Some k) re ss ts i rest w)) = tr0 ++ tr /\
    List.filter accum_event tr = accumulation_schedule tadd k ds j /\
    (is_Some re -> is_Some ss ->
     fst (train_loop tadd zeros_like (Some k) re ss ts i rest w) = Ok tt /\
     ((j < length ds)%nat ->
      ts = Some (iterations
                   (snd (train_loop tadd zeros_like (Some k) re ss ts i rest w))))).
Proof.
  intros Hk Hds. induction rest as [|g rest IH]; intros i w Hdrop Hi Hinv Hsched.
  - destruct Hsched as (tr & Htr & Hf). exists i, tr.
    split; [lia|]. split; [congruence|]. split; [exact Htr|]. split; [exact Hf|].
    intros _ _. split; [reflexivity|].
    intros Hlt. exfalso. apply (f_equal length) in Hdrop.
    rewrite length_drop in Hdrop. cbn in Hdrop. lia.
  - assert (ds !! i = Some g) as Hg.
    { rewrite <- (Nat.add_0_r i), <- lookup_drop, Hdrop. reflexivity. }
    assert (drop (S i) ds = rest) as Hdrop'.
    { replace (S i) with (i + 1)%nat by lia.
      rewrite <- drop_drop, Hdrop. reflexivity. }
    pose proof (lookup_lt_Some _ _ _ Hg) as Hlt.
    rewrite train_loop_cons by lia.
    pose proof (stepped_inv k n ds tr0 i g w Hk Hds Hg Hinv) as Hinv2.
    destruct (stepped_gradients k n ds tr0 i g w Hk Hds Hg Hinv) as [Hgr _].
    assert (exists tr,
              trace (stepped tadd zeros_like k i g w) = tr0 ++ tr /\
              List.filter accum_event tr = accumulation_schedule tadd k ds (S i))
      as (tr2 & Htr2 & Hf2).
    { destruct Hsched as (tr & Htr & Hf).
      rewrite (accumulation_schedule_S k ds i g Hg), <- Hf.
      unfold stepped. destruct (apply_at k i) eqn:Ha.
      - exists (tr ++ [EvStep i g;
                       EvApplied i (gradients (snd (_step tadd zeros_like i g w)))]).
        split.
        + cbn. rewrite Htr, <- !app_assoc. reflexivity.
        + rewrite List.filter_app. cbn [List.filter accum_event].
          rewrite Hgr, (pending_start_window k i Hk Ha). reflexivity.
      - exists (tr ++ [EvStep i g]). split.
        + cbn. rewrite Htr, <- !app_assoc. reflexivity.
        + rewrite List.filter_app. reflexivity. }
    destruct (after_apply_frame re ss ts (stepped tadd zeros_like k i g w))
      as (Hgr3 & evs & Htr3 & Hevs).
    pose proof (accum_inv_bookkeeping _ _ _ _ _ _ _ _ Hinv2 Hgr3 Htr3 Hevs) as Hinv3.
    assert (exists tr,
              trace (snd (after_apply re ss ts (stepped tadd zeros_like k i g w)))
                = tr0 ++ tr /\
              List.filter accum_event tr = accumulation_schedule tadd k ds (S i))
      as Hsched3.
    { exists (tr2 ++ evs). split.
      - rewrite Htr3, Htr2, app_assoc. reflexivity.
      - rewrite List.filter_app, (filter_bookkeeping evs Hevs), app_nil_r. exact Hf2. }
    assert (is_Some re -> is_Some ss ->
            exists w3,
              after_apply re ss ts (stepped tadd zeros_like k i g w)
                = (Ok (py_eq (iterations w3) ts), w3)) as Hset.
    { intros [r ->] [s ->].
      destruct (after_apply_set r s ts (stepped tadd zeros_like k i g w))
        as (w3 & Hrun & Hit).
      exists w3. rewrite Hrun, Hit. reflexivity. }
    unfold bind.
    destruct (after_apply re ss ts _) as [[stop|e|] w3] eqn:Hafter; cbn [snd] in *.
    + destruct stop.
      * destruct Hsched3 as (tr3 & Htr3' & Hf3). exists (S i), tr3.
        split; [lia|]. split; [lia|]. split; [exact Htr3'|]. split; [exact Hf3|].
        intros Hre Hss. split; [reflexivity|]. intros _.
        destruct (Hset Hre Hss) as (w3' & Hw3). inversion Hw3; subst w3'.
        cbn [ret snd]. unfold py_eq in *. destruct ts as [t|]; [|discriminate].
        match goal with H : true = (_ =? _) |- _ => symmetry in H;
          apply Z.eqb_eq in H; rewrite H; reflexivity end.
      * destruct (IH (S i) w3 Hdrop' ltac:(lia) Hinv3 Hsched3)
          as (j & tr & Hj & _ & Htr & Hf & Hout).
        exists j, tr. split; [lia|]. split; [lia|]. split; [exact Htr|].
        split; [exact Hf|]. exact Hout.
    + destruct Hsched3 as (tr3 & Htr3' & Hf3). exists (S i), tr3.
      split; [lia|]. split; [lia|]. split; [exact Htr3'|]. split; [exact Hf3|].
      intros Hre Hss. destruct (Hset Hre Hss) as (w3' & Hw3). discriminate.
    + destruct Hsched3 as (tr3 & Htr3' & Hf3). exists (S i), tr3.
      split; [lia|]. split; [lia|]. split; [exact Htr3'|]. split; [exact Hf3|].
      intros Hre Hss. destruct (Hset Hre Hss) as (w3' & Hw3). discriminate.
Qed.

(** C1 (amended).  A training loop with accumulation count [k >= 1] takes
    the batches of the dataset in order, from the first one on: every step
    adds its gradients to the buffers, and the loop applies at step [i]
    exactly when [i = 0] or [(i + 1) mod k = 0].  Every application hands to
    the optimizer, for every variable, the exact sum of the gradients of the
    steps accumulated since the previous application: these are the
    gradients of one step at the first application, of [k - 1] steps at the
    application of step [k - 1], and of [k] steps at every later one; and
    every application leaves all buffers at zero.  With a report period and
    a checkpoint period in the configuration the loop returns, and it stops
    before the end of the dataset only when [train_steps] is reached. *)
Theorem gradient_accumulation k n re ss ts (ds : list (list T))
    (w : @TrainWorld T) :
  1 <= k ->
  Forall (fun g => length g = n) ds ->
  gradients w = [] ->
  (forall i w1,
     Forall (fun b => exists u, b = zeros_like u)
       (gradients (snd (_apply_gradients zeros_like i w1)))) /\
  exists tr j,
    trace (snd (train_loop tadd zeros_like (Some k) re ss ts 0 ds w))
      = trace w ++ tr /\
    (j <= length ds)%nat /\
    (ds <> [] -> (1 <= j)%nat) /\
    List.filter accum_event tr = accumulation_schedule tadd k ds j /\
    (is_Some re -> is_Some ss ->
     fst (train_loop tadd zeros_like (Some k) re ss ts 0 ds w) = Ok tt /\
     ((j < length ds)%nat ->
      ts = Some (iterations
                   (snd (train_loop tadd zeros_like (Some k) re ss ts 0 ds w))))) /\
    (forall i vals, EvApplied i vals ∈ tr ->
       apply_at k i = true /\
       let window := slice (S i - window_len k i) (S i) ds in
       length window = window_len k i /\
       forall j, vals !! j = var_sum tadd (column j window)) /\
    (forall i g, EvStep i g ∈ tr ->
       ds !! i = Some g /\
       (apply_at k i = true -> exists vals, EvApplied i vals ∈ tr)).
Proof.
  intros Hk Hds Hw. split.
  { intros i w1. cbn. apply Forall_map, Forall_true. intros x. cbn. eauto. }
  assert (accum_inv tadd zeros_like k n ds (trace w) 0 w) as Hinv0.
  { exists []. split; [rewrite app_nil_r; reflexivity|].
    split; [intros ? ? Hin; apply elem_of_nil in Hin; contradiction|].
    split; [intros ? ? Hin; apply elem_of_nil in Hin; contradiction|].
    rewrite decide_True by reflexivity. left. assumption. }
  destruct (train_loop_accum_inv k n ds (trace w) re ss ts Hk Hds ds 0%nat w
              eq_refl Hinv0) as (i' & tr & Htr & HA & HS & _).
  destruct (train_loop_schedule k n ds (trace w) re ss ts Hk Hds ds 0%nat w
              eq_refl ltac:(lia) Hinv0) as (j & tr' & Hj & Hfirst & Htr' & Hf & Hout).
  { exists []. split; [rewrite app_nil_r; reflexivity|reflexivity]. }
  assert (tr' = tr) as -> by (eapply app_inv_head; rewrite <- Htr, <- Htr'; reflexivity).
  exists tr, j. split; [assumption|]. split; [lia|].
  split; [intros Hne; specialize (Hfirst Hne); lia|].
  split; [exact Hf|]. split; [exact Hout|]. split.
  - intros i vals Hin. destruct (HA _ _ Hin) as (_ & Hlen & Ha & ->).
    split; [assumption|]. cbn zeta.
    pose proof (window_len_pos k i Hk Ha) as Hwl. split.
    + rewrite length_slice by lia. lia.
    + intros j0. apply (lookup_accumulate tadd n). unfold slice.
      apply Forall_drop, Forall_take. assumption.
  - intros i g Hin. destruct (HS _ _ Hin) as (_ & ? & ?). auto.
Qed.

End AccumulationLoop.


Lemma gradient_accumulation_witness :
  (forall i w1,
     Forall (fun b => exists u : Z, b = (fun _ => 0) u)
       (gradients (snd (_apply_gradients (fun _ : Z => 0) i w1)))) /\
  exists tr j,
    trace (snd (train_loop Z.add (fun _ => 0) (Some 2) (Some 100) (Some 5000)
                  None 0 example_gradients (initial_train_world initial_world)))
      = trace (initial_train_world initial_world) ++ tr /\
    (j <= length example_gradients)%nat /\
    (example_gradients <> [] -> (1 <= j)%nat) /\
    List.filter accum_event tr = accumulation_schedule Z.add 2 example_gradients j /\
    (is_Some (Some 100) -> is_Some (Some 5000) ->
     fst (train_loop Z.add (fun _ => 0) (Some 2) (Some 100) (Some 5000)
            None 0 example_gradients (initial_train_world initial_world)) = Ok tt /\
     ((j < length example_gradients)%nat ->
      None = Some (iterations
                     (snd (train_loop Z.add (fun _ => 0) (Some 2) (Some 100)
                             (Some 5000) None 0 example_gradients
                             (initial_train_world initial_world)))))) /\
    (forall i vals, EvApplied i vals ∈ tr ->
       apply_at 2 i = true /\
       let window := slice (S i - window_len 2 i) (S i) example_gradients in
       length window = window_len 2 i /\
       forall j, vals !! j = var_sum Z.add (column j window)) /\
    (forall i g, EvStep i g ∈ tr ->
       example_gradients !! i = Some g /\
       (apply_at 2 i = true -> exists vals, EvApplied i vals ∈ tr)).
Proof.
  apply (gradient_accumulation Z.add (fun _ => 0) (fun _ _ => eq_refl)
           2 1%nat (Some 100) (Some 5000) None example_gradients
           (initial_train_world initial_world)).
  - lia.
  - repeat constructor.
  - reflexivity.
Defined.

(** C1, as stated, fails.  With an accumulation count of 2 the loop applies
    at steps 0, 1 and 3; the application at step 1 hands over the gradient
    of step 1 alone, not the sum of two steps. *)
Lemma second_application_sums_one_step :
  trace (snd (example_train_loop (initial_train_world initial_world))) =
    [EvStep 0 [1]; EvApplied 0 [1];
     EvStep 1 [10]; EvApplied 1 [10];
     EvStep 2 [100];
     EvStep 3 [1000]; EvApplied 3 [1100]] /\
  accumulate Z.add (slice 0 2 example_gradients) = [11] /\
  [10] <> [11].
Proof. split; [vm_compute; reflexivity|]. split; [reflexivity|discriminate]. Qed.

(** ** Restoring the latest checkpoint *)

Section TraceProofs.

Context {T : Type}.
Variable tadd : T -> T -> T.
Variable zeros_like : T -> T.

Lemma appends_ret {A} (a : A) : appends_to_trace (@ret (@TrainWorld T) A a).
Proof. intros w. exists []. cbn. rewrite app_nil_r. reflexivity. Qed.

Lemma appends_raise {A} e : appends_to_trace (@raise (@TrainWorld T) A e).
Proof. intros w. exists []. cbn. rewrite app_nil_r. reflexivity. Qed.

Lemma appends_lift {A} (o : outcome A) : appends_to_trace (@lift (@TrainWorld T) A o).
Proof. intros w. exists []. cbn. rewrite app_nil_r. reflexivity. Qed.

Lemma appends_gets {A} (f : @TrainWorld T -> A) : appends_to_trace (gets f).
Proof. intros w. exists []. cbn. rewrite app_nil_r. reflexivity. Qed.

Lemma appends_log_event (ev : @TrainEvent T) : appends_to_trace (log_event ev).
Proof. intros w. exists [ev]. reflexivity. Qed.

Lemma appends_bind {A B} (m : M (@TrainWorld T) A) (k : A -> M (@TrainWorld T) B) :
  appends_to_trace m -> (forall a, appends_to_trace (k a)) ->
  appends_to_trace (bind m k).
Proof.
  intros Hm Hk w. unfold bind. destruct (Hm w) as [tr1 H1].
  destruct (m w) as [[a|e|] w1]; cbn in *; eauto.
  destruct (Hk a w1) as [tr2 H2]. exists (tr1 ++ tr2).
  rewrite H2, H1, app_assoc. reflexivity.
Qed.

Lemma appends_train_loop accum re ss ts dataset :
  forall i, appends_to_trace (train_loop tadd zeros_like accum re ss ts i dataset).
Proof.
  induction dataset as [|g dataset IH]; intros i; cbn [train_loop].
  - apply appends_ret.
  - apply appends_bind; [intros w; exists [EvStep i g]; reflexivity|]. intros _.
    apply appends_bind.
    { destruct (i =? 0)%nat; [apply appends_ret|].
      apply appends_bind; [apply appends_lift|]. intros m. apply appends_ret. }
    intros apply_now. apply appends_bind.
    { destruct apply_now; [|apply appends_ret].
      intros w. eexists [_]. reflexivity. }
    intros _. apply appends_bind; [apply appends_gets|]. intros step.
    apply appends_bind; [apply appends_lift|]. intros r.
    apply appends_bind.
    { destruct (r =? 0); [apply appends_log_event|apply appends_ret]. }
    intros _. apply appends_bind; [apply appends_lift|]. intros s.
    apply appends_bind.
    { destruct ((s =? 0) || py_eq step ts);
        [apply appends_log_event|apply appends_ret]. }
    intros _. destruct (py_eq step ts); [apply appends_ret|apply IH].
Qed.

Lemma appends_maybe_average cenv c :
  appends_to_trace (@_maybe_average_checkpoints T cenv c).
Proof.
  unfold _maybe_average_checkpoints.
  destruct (get_default (average_last_checkpoints c) 0);
    [|apply appends_raise].
  destruct ((0 <? z) && is_chief cenv); [|apply appends_ret].
  apply appends_bind; [apply appends_log_event|]. intros _. apply appends_ret.
Qed.

End TraceProofs.

Lemma finalize_keeps_model_dir fuel env r w r' w' :
  _finalize_training_parameters fuel env r w = (Ok r', w') ->
  model_dir (config r') = model_dir (config r).
Proof.
  unfold _finalize_training_parameters. intros H.
  apply bind_ok in H as (c1 & w1 & H1 & H2).
  assert (model_dir c1 = model_dir (config r)) as Hc1.
  { destruct (none_or_zero _).
    - destruct (String.eqb _ _); [discriminate|].
      apply bind_ok in H1 as (t & w2 & _ & H1).
      unfold ret in H1. inversion H1; subst. reflexivity.
    - unfold ret in H1. inversion H1; subst. reflexivity. }
  destruct (get (effective_batch_size c1)).
  - destruct (get (batch_size c1)); [|discriminate].
    apply bind_ok in H2 as (a & w2 & _ & H2).
    unfold ret in H2. inversion H2; subst. cbn. assumption.
  - unfold ret in H2. inversion H2; subst. cbn. assumption.
Qed.


(** C10.  When [train] is called without a checkpoint path and the model
    directory has a latest checkpoint, then, once the training parameters
    are finalized, the checkpoint is restored before anything else: the run
    continues from the state in which [optimizer.iterations] is the value
    stored in that checkpoint and the restore is the only event so far, so
    every step of the loop comes after it. *)
Theorem train_restores_latest_checkpoint {T} (tadd : T -> T -> T)
    (zeros_like : T -> T) fuel env cenv r (ds : list (list T)) w0 r' w1 p :
  _finalize_training_parameters fuel env r w0 = (Ok r', w1) ->
  latest_checkpoint cenv (model_dir (config r)) = Some p ->
  let restored :=
    {| world := w1; gradients := [];
       iterations := checkpoint_iterations cenv p;
       trace := [EvRestored p] |} in
  let c := config r' in
  train tadd zeros_like fuel env cenv r ds None (initial_train_world w0) =
    (if match get (train_steps c) with
        | Some n => n <=? checkpoint_iterations cenv p
        | None => false
        end
     then ret (model_dir c)
     else (train_loop tadd zeros_like
             (get_default (gradients_accum c) 1)
             (get_default (save_summary_steps c) 100)
             (get_default (save_checkpoints_steps c) 5000)
             (get (train_steps c)) 0 ds ;;;
           _maybe_average_checkpoints cenv c)%py) restored /\
  exists tr,
    trace (snd (train tadd zeros_like fuel env cenv r ds None
                  (initial_train_world w0))) = EvRestored p :: tr.
Proof.
  intros Hfin Hlatest restored c.
  assert (train tadd zeros_like fuel env cenv r ds None (initial_train_world w0) =
    (if match get (train_steps c) with
        | Some n => n <=? checkpoint_iterations cenv p
        | None => false
        end
     then ret (model_dir c)
     else (train_loop tadd zeros_like
             (get_default (gradients_accum c) 1)
             (get_default (save_summary_steps c) 100)
             (get_default (save_checkpoints_steps c) 5000)
             (get (train_steps c)) 0 ds ;;;
           _maybe_average_checkpoints cenv c)%py) restored) as Heq.
  { unfold train. unfold bind at 1. unfold lift_world at 1.
    cbn [initial_train_world world gradients iterations trace].
    rewrite Hfin. fold c.
    unfold c at 1. rewrite (finalize_keeps_model_dir _ _ _ _ _ _ Hfin), Hlatest.
    unfold bind at 1 2 3. cbn [restore modify gets ret app]. reflexivity. }
  split; [exact Heq|]. rewrite Heq.
  assert (appends_to_trace
    (if match get (train_steps c) with
        | Some n => n <=? checkpoint_iterations cenv p
        | None => false
        end
     then ret (model_dir c)
     else (train_loop tadd zeros_like
             (get_default (gradients_accum c) 1)
             (get_default (save_summary_steps c) 100)
             (get_default (save_checkpoints_steps c) 5000)
             (get (train_steps c)) 0 ds ;;;
           _maybe_average_checkpoints cenv c)%py)) as Happ.
  { destruct (match get (train_steps c) with
              | Some n => n <=? checkpoint_iterations cenv p
              | None => false
              end); [apply appends_ret|].
    apply appends_bind; [apply appends_train_loop|].
    intros _. apply appends_maybe_average. }
  destruct (Happ restored) as [tr Htr]. exists tr. rewrite Htr. reflexivity.
Qed.

Lemma train_restores_latest_checkpoint_witness :
  let restored :=
    {| world := initial_world; gradients := [];
       iterations := checkpoint_iterations example_checkpoints "run/ckpt-40";
       trace := [EvRestored "run/ckpt-40"] |} in
  let c := config sized_runner in
  train Z.add (fun _ => 0) 20 succeeding_env example_checkpoints sized_runner
    example_gradients None (initial_train_world initial_world) =
    (if match get (train_steps c) with
        | Some n => n <=? checkpoint_iterations example_checkpoints "run/ckpt-40"
        | None => false
        end
     then ret (model_dir c)
     else (train_loop Z.add (fun _ => 0)
             (get_default (gradients_accum c) 1)
             (get_default (save_summary_steps c) 100)
             (get_default (save_checkpoints_steps c) 5000)
             (get (train_steps c)) 0 example_gradients ;;;
           _maybe_average_checkpoints example_checkpoints c)%py) restored /\
  exists tr,
    trace (snd (train Z.add (fun _ => 0) 20 succeeding_env example_checkpoints
                  sized_runner example_gradients None
                  (initial_train_world initial_world)))
      = EvRestored "run/ckpt-40" :: tr.
Proof.
  apply (train_restores_latest_checkpoint Z.add (fun _ => 0) 20 succeeding_env
           example_checkpoints sized_runner example_gradients initial_world
           sized_runner initial_world "run/ckpt-40").
  - reflexivity.
  - reflexivity.
Defined.

(** A whole run, evaluated: the restore comes first, and with the default
    accumulation count of 1 every step applies its own gradients. *)
Example train_example_run :
  let r := train Z.add (fun _ => 0) 20 succeeding_env example_checkpoints
             sized_runner example_gradients None
             (initial_train_world initial_world) in
  fst r = Ok "run" /\
  iterations (snd r) = 44 /\
  trace (snd r) =
    [EvRestored "run/ckpt-40";
     EvStep 0 [1]; EvApplied 0 [1]; EvStep 1 [10]; EvApplied 1 [10];
     EvStep 2 [100]; EvApplied 2 [100]; EvStep 3 [1000]; EvApplied 3 [1000]].
Proof. vm_compute. repeat split. Qed.


(** * Further properties *)

(** ** The trials of the batch size search *)

Lemma search_iteration_trial env config si nd gpu c lo hi w :
  search_config_inv config si c ->
  (Qle_bool 1 gpu = false ->
   fs w !! session_config_path_of config = Some (SessionConfig gpu)) ->
  match search_iteration env (config_path_of config) (search_args config nd gpu)
          nd (c, lo, hi) w with
  | (Ok (c', _, _), w') =>
      search_config_inv config si c' /\
      (Qle_bool 1 gpu = false ->
       fs w' !! session_config_path_of config = Some (SessionConfig gpu)) /\
      exists t, spawned w' = spawned w ++ [t] /\ trial_of_search config si nd gpu t
  | (_, w') => spawned w' = spawned w
  end.
Proof.
  intros Hinv Hsess.
  destruct Hinv as (Hmd & Hbt & Hebs & Hsss & Hts & Hscs & Halc & Hga).
  assert (forall c' b,
    search_config_inv config si c' -> batch_size c' = PyInt b ->
    (forall e, get (effective_batch_size config) = Some e ->
       exists a, _count_batch_accum b e nd = Ok a /\ gradients_accum c' = PyInt a) ->
    match (write_file (config_path_of config) (YamlConfig c') ;;;
           exit_code <- popen_wait env (search_args config nd gpu) ;;
           if negb (exit_code =? 0)
           then ret (c', lo, b - 1)
           else ret (c', b, hi))%py w with
    | (Ok (c'', _, _), w') =>
        search_config_inv config si c'' /\
        (Qle_bool 1 gpu = false ->
         fs w' !! session_config_path_of config = Some (SessionConfig gpu)) /\
        exists t, spawned w' = spawned w ++ [t] /\ trial_of_search config si nd gpu t
    | (_, w') => spawned w' = spawned w
    end) as Hrest.
  { intros c' b Hinv' Hb Hacc.
    unfold bind, write_file, modify, popen_wait, ret. cbn.
    destruct (popen env _ _) as [code|]; cbn; [|reflexivity].
    assert (forall st : SearchState, fst (fst st) = c' ->
      let '(c'', _, _) := st in
      search_config_inv config si c'' /\
      (Qle_bool 1 gpu = false ->
       <[config_path_of config:=YamlConfig c']> (fs w)
         !! session_config_path_of config = Some (SessionConfig gpu)) /\
      exists t,
        spawned w ++
          [{| trial_args := search_args config nd gpu;
              trial_files := <[config_path_of config:=YamlConfig c']> (fs w);
              trial_exit := code |}] = spawned w ++ [t] /\
        trial_of_search config si nd gpu t) as Hst.
    { intros [[c'' lo'] hi'] Hc''. cbn in Hc''. subst c''.
      assert (Qle_bool 1 gpu = false ->
        <[config_path_of config:=YamlConfig c']> (fs w)
          !! session_config_path_of config = Some (SessionConfig gpu)) as Hs.
      { intros G. rewrite lookup_insert_ne by exact (config_paths_differ config).
        auto. }
      split; [exact Hinv'|]. split; [exact Hs|].
      eexists. split; [reflexivity|]. split; [reflexivity|]. cbn. split; [|exact Hs].
      exists c'. rewrite lookup_insert_eq. split; [reflexivity|].
      split; [exact Hinv'|]. exists b. auto. }
    destruct (negb (code =? 0)); cbn;
      [apply (Hst (c', lo, b - 1))|apply (Hst (c', b, hi))]; reflexivity. }
  unfold search_iteration. cbn [effective_batch_size set_batch_size].
  destruct (get (effective_batch_size c)) as [e|] eqn:Ee.
  - unfold bind at 1. unfold bind at 1. unfold lift at 1.
    destruct (_count_batch_accum ((hi + lo) / 2) e nd) as [a|ex|] eqn:Ea;
      cbn [ret]; [|reflexivity..].
    apply Hrest with (b := (hi + lo) / 2).
    + repeat split; cbn; try assumption. intros He. rewrite <- Hebs, Ee in He.
      discriminate.
    + reflexivity.
    + intros e' He'. rewrite <- Hebs, Ee in He'. inversion He'; subst e'.
      exists a. split; [exact Ea|reflexivity].
  - unfold bind at 1. cbn [ret].
    apply Hrest with (b := (hi + lo) / 2).
    + repeat split; cbn; assumption.
    + reflexivity.
    + intros e' He'. rewrite <- Hebs, Ee in He'. discriminate.
Qed.

Lemma search_loop_trials env config si nd gpu prec :
  forall fuel c lo hi w,
  search_config_inv config si c ->
  (Qle_bool 1 gpu = false ->
   fs w !! session_config_path_of config = Some (SessionConfig gpu)) ->
  exists trials,
    spawned (snd (while_loop fuel (search_guard prec)
                    (search_iteration env (config_path_of config)
                       (search_args config nd gpu) nd) (c, lo, hi) w))
      = spawned w ++ trials /\
    Forall (trial_of_search config si nd gpu) trials.
Proof.
  induction fuel as [|fuel IH]; intros c lo hi w Hinv Hsess.
  - exists []. rewrite app_nil_r. cbn [while_loop].
    destruct (search_guard prec (c, lo, hi)); cbn; auto.
  - rewrite while_loop_unfold.
    destruct (search_guard prec (c, lo, hi));
      [|exists []; rewrite app_nil_r; cbn; auto].
    pose proof (search_iteration_trial env config si nd gpu c lo hi w Hinv Hsess)
      as Hit.
    unfold bind.
    destruct (search_iteration _ _ _ _ _ w) as [[[[c1 lo1] hi1]|e|] w1].
    + destruct Hit as (Hinv1 & Hsess1 & t & Hsp & Ht).
      destruct (IH c1 lo1 hi1 w1 Hinv1 Hsess1) as (trials & Hsp' & Htrials).
      exists (t :: trials). rewrite Hsp', Hsp, <- app_assoc. split; [reflexivity|].
      constructor; assumption.
    + exists []. rewrite app_nil_r. cbn. auto.
    + exists []. rewrite app_nil_r. cbn. auto.
Qed.

Lemma os_remove_spawned path w :
  spawned (snd (os_remove path w)) = spawned w.
Proof. unfold os_remove. destruct (fs w !! path); reflexivity. Qed.

Lemma set_trial_defaults_inv config si :
  search_config_inv config si (set_trial_defaults si config).
Proof. repeat split. Qed.

(** X1.  Every trial process of a search, whatever the outcome of the search,
    is started with the command line of the search and finds the trial
    configuration in place: the caller's configuration with [train_steps] set
    to the number of sample iterations, [save_checkpoints_steps] set to
    [None], [average_last_checkpoints] set to 0, the batch size under test and
    the accumulation count computed for it; the session configuration is there
    too when one was written. *)
Theorem auto_tune_trials_read_trial_configuration
    fuel env config min max prec si nd gpu w :
  exists trials,
    spawned (snd (_auto_tune_batch_size fuel env config min max prec si nd gpu w))
      = spawned w ++ trials /\
    Forall (trial_of_search config si nd gpu) trials.
Proof.
  rewrite auto_tune_unfold.
  destruct (search_loop_trials env config si nd gpu prec fuel
              (set_trial_defaults si config) min max
              (after_session_write config gpu w)
              (set_trial_defaults_inv config si))
    as (trials & Hsp & Htrials).
  { intros G. unfold after_session_write. rewrite G. cbn. apply lookup_insert_eq. }
  exists trials. split; [|exact Htrials].
  assert (spawned (after_session_write config gpu w) = spawned w) as Hsp0.
  { unfold after_session_write. destruct (Qle_bool 1 gpu); reflexivity. }
  rewrite Hsp0 in Hsp. rewrite <- Hsp.
  unfold bind at 1.
  destruct (while_loop _ _ _ _ _) as [[st|e|] w1]; cbn [snd]; try reflexivity.
  unfold bind at 1.
  pose proof (os_remove_spawned (config_path_of config) w1) as H1.
  destruct (os_remove (config_path_of config) w1) as [[u|e|] w2]; cbn [snd] in *;
    try assumption.
  unfold bind, ret. destruct (Qle_bool 1 gpu); cbn; [assumption|].
  pose proof (os_remove_spawned (session_config_path_of config) w2) as H2.
  destruct (os_remove (session_config_path_of config) w2) as [[u'|e|] w3];
    cbn [snd] in *; congruence.
Qed.

Lemma os_remove_frame path w p :
  p <> path -> fs (snd (os_remove path w)) !! p = fs w !! p.
Proof.
  intros Hp. unfold os_remove. destruct (fs w !! path); cbn; [|reflexivity].
  apply lookup_delete_ne. congruence.
Qed.

(** X2.  The writes and removals of [_auto_tune_batch_size] itself name its
    trial configuration and its session configuration only: whatever the
    outcome of the call, every other file is, as far as the function's own
    statements go, neither written, nor changed, nor removed.  What the trial
    processes do to the files is outside the model, which takes a trial to
    leave them as they are. *)
Theorem auto_tune_touches_only_its_files
    fuel env config min max prec si nd gpu w p :
  p <> config_path_of config ->
  p <> session_config_path_of config ->
  fs (snd (_auto_tune_batch_size fuel env config min max prec si nd gpu w)) !! p
    = fs w !! p.
Proof.
  intros Hcp Hsp. rewrite auto_tune_unfold.
  assert (fs (after_session_write config gpu w) !! p = fs w !! p) as H0.
  { unfold after_session_write. destruct (Qle_bool 1 gpu); [reflexivity|].
    cbn. apply lookup_insert_ne. congruence. }
  rewrite <- H0. unfold bind at 1.
  destruct (while_loop _ _ _ _ _) as [o w1] eqn:Hloop.
  pose proof (search_loop_frame _ _ _ _ _ p Hcp _ _ _ _ _ Hloop) as H1.
  rewrite <- H1.
  destruct o as [st|e|]; cbn [snd]; try reflexivity.
  unfold bind at 1.
  pose proof (os_remove_frame (config_path_of config) w1 p Hcp) as H2.
  destruct (os_remove (config_path_of config) w1) as [[u|e|] w2]; cbn [snd] in *;
    try assumption.
  rewrite <- H2. unfold bind, ret. destruct (Qle_bool 1 gpu); cbn; [reflexivity|].
  pose proof (os_remove_frame (session_config_path_of config) w2 p Hsp) as H3.
  destruct (os_remove (session_config_path_of config) w2) as [[u'|e|] w3];
    cbn [snd] in *; assumption.
Qed.

Lemma auto_tune_touches_only_its_files_witness :
  fs (snd (_auto_tune_batch_size 20 (threshold_env 9000) example_config
             1024 16384 256 5 1 (8 # 10)
             {| fs := {[ "run/model.ckpt" := OtherFile ]}; spawned := [] |}))
    !! "run/model.ckpt"
  = fs {| fs := {[ "run/model.ckpt" := OtherFile ]}; spawned := [] |}
    !! "run/model.ckpt".
Proof.
  apply (auto_tune_touches_only_its_files 20 (threshold_env 9000) example_config
           1024 16384 256 5 1 (8 # 10)
           {| fs := {[ "run/model.ckpt" := OtherFile ]}; spawned := [] |}
           "run/model.ckpt").
  - vm_compute. discriminate.
  - vm_compute. discriminate.
Defined.

Lemma spec_search_consistent prec lo hi obs v :
  spec_binary_search prec lo hi obs v ->
  1 <= prec ->
  Forall (fun o => exists b, fst o = Some b /\
                     (snd o = 0 -> b <= v) /\ (snd o <> 0 -> v < b)) obs /\
  (obs = [] /\ v = lo \/ (Some v, 0) ∈ obs \/
   v = lo /\ Forall (fun o => snd o <> 0) obs).
Proof.
  induction 1 as [lo hi Hd|lo hi rest v Hg Hrec IH|lo hi code rest v Hg Hc Hrec IH];
    intros Hp.
  - split; [constructor|auto].
  - destruct (IH Hp) as [Hall Hv].
    pose proof (spec_search_bounds _ _ _ _ _ Hrec ltac:(lia)) as [Hlo _].
    split.
    + constructor; [|exact Hall]. eexists. split; [reflexivity|].
      cbn. split; [intros _; exact Hlo|congruence].
    + right. left. destruct Hv as [[-> ->]|[Hin|[-> _]]].
      * left.
      * right. exact Hin.
      * left.
  - destruct (IH Hp) as [Hall Hv].
    pose proof (spec_search_bounds _ _ _ _ _ Hrec ltac:(lia)) as [Hlo Hhi].
    assert (lo < (lo + hi) / 2 < hi) as Hmid by half_bounds.
    split.
    + constructor; [|exact Hall]. eexists. split; [reflexivity|].
      cbn. split; [congruence|]. intros _. lia.
    + destruct Hv as [[-> ->]|[Hin|[-> Hf]]].
      * right. right. split; [reflexivity|]. constructor; [exact Hc|constructor].
      * right. left. right. exact Hin.
      * right. right. split; [reflexivity|]. constructor; [exact Hc|exact Hf].
Qed.

(** X3.  The batch size a search with a precision of at least 1 returns agrees
    with every trial it ran: it is at least every batch size whose trial
    exited with code 0 and below every batch size whose trial failed.  It is
    either a batch size whose trial succeeded, or the lower bound of the
    search, in which case no trial succeeded and the value returned was never
    tried. *)
Theorem auto_tune_result_agrees_with_trials
    fuel env config min max prec si nd gpu w v w' :
  1 <= prec ->
  _auto_tune_batch_size fuel env config min max prec si nd gpu w = (Ok v, w') ->
  exists trials,
    spawned w' = spawned w ++ trials /\
    Forall (fun t =>
      exists b, fst (trial_observation (config_path_of config) t) = Some b /\
                (trial_exit t = 0 -> b <= v) /\
                (trial_exit t <> 0 -> v < b)) trials /\
    ((exists t, t ∈ trials /\ trial_exit t = 0 /\
                fst (trial_observation (config_path_of config) t) = Some v) \/
     v = min /\ Forall (fun t => trial_exit t <> 0) trials).
Proof.
  intros Hprec H.
  apply auto_tune_ok in H as (trials & Hsp & Hspec & _).
  exists trials. split; [exact Hsp|].
  destruct (spec_search_consistent _ _ _ _ _ Hspec Hprec) as [Hall Hv].
  split.
  - exact (proj1 (Forall_map (trial_observation (config_path_of config))
             (fun o => exists b, fst o = Some b /\
                         (snd o = 0 -> b <= v) /\ (snd o <> 0 -> v < b))
             trials) Hall).
  - destruct Hv as [[Hnil ->]|[Hin|[-> Hf]]].
    + right. split; [reflexivity|]. destruct trials; [constructor|discriminate].
    + left. apply list_elem_of_fmap in Hin as (t & Ht & Hin).
      exists t. unfold trial_observation in *. inversion Ht. auto.
    + right. split; [reflexivity|].
      exact (proj1 (Forall_map (trial_observation (config_path_of config))
               (fun o => snd o <> 0) trials) Hf).
Qed.

Lemma auto_tune_result_agrees_with_trials_witness :
  exists trials,
    spawned (snd (_auto_tune_batch_size 6 (threshold_env 9000) example_config
                    1024 16384 256 5 1 (8 # 10) initial_world))
      = spawned initial_world ++ trials /\
    Forall (fun t =>
      exists b, fst (trial_observation (config_path_of example_config) t) = Some b /\
                (trial_exit t = 0 -> b <= 8943) /\
                (trial_exit t <> 0 -> 8943 < b)) trials /\
    ((exists t, t ∈ trials /\ trial_exit t = 0 /\
                fst (trial_observation (config_path_of example_config) t)
                  = Some 8943) \/
     8943 = 1024 /\ Forall (fun t => trial_exit t <> 0) trials).
Proof.
  apply (auto_tune_result_agrees_with_trials 6 (threshold_env 9000)
           example_config 1024 16384 256 5 1 (8 # 10) initial_world 8943).
  - lia.
  - vm_compute. reflexivity.
Defined.




(** ** How many trials a search runs, and how close it gets *)

Lemma search_iteration_spawned env cp args nd st w :
  match search_iteration env cp args nd st w with
  | (Ok _, w') => exists t, spawned w' = spawned w ++ [t]
  | (_, w') => spawned w' = spawned w
  end.
Proof.
  destruct st as [[c lo] hi]. unfold search_iteration.
  unfold bind, lift, ret, write_file, modify, popen_wait. cbn.
  destruct (get (effective_batch_size c)).
  - destruct (_count_batch_accum _ _ _); cbn; try reflexivity.
    destruct (popen env args _); cbn; [|reflexivity].
    destruct (negb _); cbn; eauto.
  - destruct (popen env args _); cbn; [|reflexivity].
    destruct (negb _); cbn; eauto.
Qed.

Lemma half_width (d p k : Z) :
  1 <= p -> 1 <= k -> p < d -> d <= p * 2 ^ k ->
  (d + 1) / 2 <= p * 2 ^ (k - 1).
Proof.
  intros Hp Hk Hd Hle.
  replace k with (Z.succ (k - 1)) in Hle by lia.
  rewrite Z.pow_succ_r in Hle by lia.
  set (X := 2 ^ (k - 1)) in *.
  enough ((d + 1) / 2 < p * X + 1) by lia.
  apply Z.div_lt_upper_bound; lia.
Qed.

Lemma search_loop_trial_count env cp args nd prec :
  1 <= prec ->
  forall fuel (k : nat) c lo hi w,
  hi - lo <= prec * 2 ^ Z.of_nat k ->
  exists trials,
    spawned (snd (while_loop fuel (search_guard prec)
                    (search_iteration env cp args nd) (c, lo, hi) w))
      = spawned w ++ trials /\
    (length trials <= k)%nat.
Proof.
  intros Hprec. induction fuel as [|fuel IH]; intros k c lo hi w Hk.
  - exists []. rewrite app_nil_r. cbn [while_loop].
    destruct (search_guard prec (c, lo, hi)); cbn; split; try reflexivity; lia.
  - rewrite while_loop_unfold.
    destruct (search_guard prec (c, lo, hi)) eqn:G;
      [|exists []; rewrite app_nil_r; cbn; split; [reflexivity|lia]].
    cbn in G. apply Z.gtb_lt in G.
    destruct k as [|k]; [cbn in Hk; lia|].
    pose proof (search_iteration_spawned env cp args nd (c, lo, hi) w) as Hsp.
    unfold bind.
    destruct (search_iteration env cp args nd (c, lo, hi) w)
      as [[st1|e|] w1] eqn:Hit.
    + destruct Hsp as [t Hsp].
      apply search_iteration_ok in Hit as (c' & code & -> & _).
      assert ((hi - lo + 1) / 2 <= prec * 2 ^ Z.of_nat k) as Hhalf.
      { replace (Z.of_nat k) with (Z.of_nat (S k) - 1) by lia.
        apply half_width; lia. }
      assert (lo < (hi + lo) / 2 < hi) as Hmid by half_bounds.
      assert (hi - (hi + lo) / 2 <= (hi - lo + 1) / 2) as Hup.
      { pose proof (Z.div_mod (hi + lo) 2 ltac:(lia)).
        pose proof (Z.mod_pos_bound (hi + lo) 2 ltac:(lia)).
        pose proof (Z.div_mod (hi - lo + 1) 2 ltac:(lia)).
        pose proof (Z.mod_pos_bound (hi - lo + 1) 2 ltac:(lia)). lia. }
      assert ((hi + lo) / 2 - 1 - lo <= (hi - lo + 1) / 2) as Hdown.
      { pose proof (Z.div_mod (hi + lo) 2 ltac:(lia)).
        pose proof (Z.mod_pos_bound (hi + lo) 2 ltac:(lia)).
        pose proof (Z.div_mod (hi - lo + 1) 2 ltac:(lia)).
        pose proof (Z.mod_pos_bound (hi - lo + 1) 2 ltac:(lia)). lia. }
      destruct (IH k c' (if code =? 0 then (hi + lo) / 2 else lo)
                  (if code =? 0 then hi else (hi + lo) / 2 - 1) w1)
        as (trials & Htr & Hlen).
      { destruct (code =? 0); lia. }
      exists (t :: trials). rewrite Htr, Hsp, <- app_assoc.
      split; [reflexivity|]. cbn. lia.
    + exists []. rewrite app_nil_r. cbn. split; [exact Hsp|lia].
    + exists []. rewrite app_nil_r. cbn. split; [exact Hsp|lia].
Qed.

(** X5.  A search with a precision of at least 1 starts at most [k] trial
    processes when the range is at most [2^k] times the precision, whatever
    the trials do and however the search ends: every trial at least halves the
    range.  With the defaults (1024, 16384, 256) that is at most 6 trials. *)
Theorem auto_tune_number_of_trials
    fuel env config min max prec si nd gpu w (k : nat) :
  1 <= prec ->
  max - min <= prec * 2 ^ Z.of_nat k ->
  exists trials,
    spawned (snd (_auto_tune_batch_size fuel env config min max prec si nd gpu w))
      = spawned w ++ trials /\
    (length trials <= k)%nat.
Proof.
  intros Hprec Hk. rewrite auto_tune_unfold.
  destruct (search_loop_trial_count env (config_path_of config)
              (search_args config nd gpu) nd prec Hprec fuel k
              (set_trial_defaults si config) min max
              (after_session_write config gpu w) Hk)
    as (trials & Hsp & Hlen).
  exists trials. split; [|exact Hlen].
  assert (spawned (after_session_write config gpu w) = spawned w) as Hsp0.
  { unfold after_session_write. destruct (Qle_bool 1 gpu); reflexivity. }
  rewrite Hsp0 in Hsp. rewrite <- Hsp.
  unfold bind at 1.
  destruct (while_loop _ _ _ _ _) as [[st|e|] w1]; cbn [snd]; try reflexivity.
  unfold bind at 1.
  pose proof (os_remove_spawned (config_path_of config) w1) as H1.
  destruct (os_remove (config_path_of config) w1) as [[u|e|] w2]; cbn [snd] in *;
    try assumption.
  unfold bind, ret. destruct (Qle_bool 1 gpu); cbn; [assumption|].
  pose proof (os_remove_spawned (session_config_path_of config) w2) as H2.
  destruct (os_remove (session_config_path_of config) w2) as [[u'|e|] w3];
    cbn [snd] in *; congruence.
Qed.

Lemma auto_tune_number_of_trials_witness :
  exists trials,
    spawned (snd (_auto_tune_batch_size 20 failing_env example_config
                    default_min_batch_size default_max_batch_size
                    default_min_range 5 1 (8 # 10) initial_world))
      = spawned initial_world ++ trials /\
    (length trials <= 6)%nat.
Proof.
  apply (auto_tune_number_of_trials 20 failing_env example_config
           default_min_batch_size default_max_batch_size default_min_range
           5 1 (8 # 10) initial_world 6).
  - unfold default_min_range. lia.
  - vm_compute. discriminate.
Defined.

Lemma spec_search_within_precision prec limit lo hi obs v :
  spec_binary_search prec lo hi obs v ->
  Forall (fun o => forall b, fst o = Some b -> (snd o = 0 <-> b <= limit)) obs ->
  lo <= limit <= hi ->
  v <= limit <= v + prec.
Proof.
  induction 1 as [lo hi Hd|lo hi rest v Hg Hrec IH|lo hi code rest v Hg Hc Hrec IH];
    intros Hobs Hlim.
  - lia.
  - apply Forall_cons in Hobs as [Hhd Htl]. apply IH; [exact Htl|].
    specialize (Hhd _ eq_refl). cbn in Hhd.
    pose proof (proj1 Hhd eq_refl). lia.
  - apply Forall_cons in Hobs as [Hhd Htl]. apply IH; [exact Htl|].
    specialize (Hhd _ eq_refl). cbn in Hhd.
    assert (~ (lo + hi) / 2 <= limit) by (intros Hle; apply Hc, Hhd, Hle). lia.
Qed.

(** X6.  When trials succeed exactly for the batch sizes up to some [limit]
    that lies in the range of the search, the batch size returned is one that
    succeeds, and the largest batch size that succeeds is at most [precision]
    above it. *)
Theorem auto_tune_result_within_precision
    fuel env config min max prec si nd gpu w limit v w' :
  feasible_up_to env (config_path_of config) limit ->
  min <= limit <= max ->
  _auto_tune_batch_size fuel env config min max prec si nd gpu w = (Ok v, w') ->
  v <= limit <= v + prec.
Proof.
  intros Hfeas Hlim H.
  apply auto_tune_ok in H as (trials & _ & Hspec & Hcons & _).
  eapply spec_search_within_precision; [exact Hspec| |exact Hlim].
  pose proof (observations_feasible _ _ _ _ Hfeas Hcons) as Hobs.
  eapply Forall_impl; [exact Hobs|].
  intros o Ho b Hb. rewrite (Ho b Hb). apply Z.leb_le.
Qed.

Lemma auto_tune_result_within_precision_witness :
  exists v w',
    _auto_tune_batch_size 6 (threshold_env 9000) example_config
      1024 16384 256 5 1 (8 # 10) initial_world = (Ok v, w') /\
    v <= 9000 <= v + 256.
Proof.
  eexists _, _. split; [vm_compute; reflexivity|].
  apply (auto_tune_result_within_precision 6 (threshold_env 9000)
           example_config 1024 16384 256 5 1 (8 # 10) initial_world 9000 8943
           (snd (_auto_tune_batch_size 6 (threshold_env 9000) example_config
                   1024 16384 256 5 1 (8 # 10) initial_world))).
  - apply threshold_env_feasible.
  - lia.
  - vm_compute. reflexivity.
Defined.

(** ** More on [_count_batch_accum] *)






(** ** More on [Runner._finalize_training_parameters] *)

Lemma with_config_same (r : Runner) : with_config (config r) r = r.
Proof. destruct r. reflexivity. Qed.

(** What a call that returns has done. *)
Lemma finalize_ok fuel env r w r' w' :
  _finalize_training_parameters fuel env r w = (Ok r', w') ->
  exists c1,
    (if none_or_zero (get (batch_size (config r)))
     then exists tuned,
       _auto_tune_batch_size fuel env (config r) default_min_batch_size
         (match get (effective_batch_size (config r)) with
          | Some effective => Z.min default_max_batch_size effective
          | None => default_max_batch_size
          end) default_min_range default_sample_iterations (num_devices r)
         default_gpu_memory_fraction w = (Ok tuned, w') /\
       c1 = set_batch_size (PyInt tuned) (config r)
     else c1 = config r /\ w' = w) /\
    match get (effective_batch_size (config r)) with
    | Some e =>
        exists b a, get (batch_size c1) = Some b /\
          _count_batch_accum b e (num_replicas r) = Ok a /\
          r' = with_config (set_gradients_accum (PyInt a) c1) r
    | None => r' = with_config c1 r
    end.
Proof.
  unfold _finalize_training_parameters. intros H.
  apply bind_ok in H as (c1 & w1 & H1 & H2).
  exists c1.
  assert (effective_batch_size c1 = effective_batch_size (config r) /\ w1 = w' /\
          if none_or_zero (get (batch_size (config r)))
          then exists tuned,
            _auto_tune_batch_size fuel env (config r) default_min_batch_size
              (match get (effective_batch_size (config r)) with
               | Some effective => Z.min default_max_batch_size effective
               | None => default_max_batch_size
               end) default_min_range default_sample_iterations (num_devices r)
              default_gpu_memory_fraction w = (Ok tuned, w1) /\
            c1 = set_batch_size (PyInt tuned) (config r)
          else c1 = config r /\ w1 = w) as (He & Hw & Hfirst).
  { assert (w1 = w') as Hw.
    { destruct (get (effective_batch_size c1)).
      - destruct (get (batch_size c1)); [|discriminate].
        apply bind_ok in H2 as (a & w2 & Ha & H2).
        unfold lift in Ha. unfold ret in H2. inversion Ha; inversion H2; congruence.
      - unfold ret in H2. inversion H2; reflexivity. }
    destruct (none_or_zero _).
    - destruct (String.eqb _ _); [discriminate|].
      apply bind_ok in H1 as (t & w2 & Hrun & H1).
      unfold ret in H1. inversion H1; subst.
      split; [reflexivity|]. split; [reflexivity|]. exists t. auto.
    - unfold ret in H1. inversion H1; subst. auto. }
  subst w1. split; [exact Hfirst|].
  rewrite He in H2.
  destruct (get (effective_batch_size (config r))) as [e|].
  - destruct (get (batch_size c1)) as [b|]; [|discriminate].
    apply bind_ok in H2 as (a & w2 & Ha & H2).
    unfold lift in Ha. unfold ret in H2. inversion Ha; inversion H2; subst.
    exists b, a. auto.
  - unfold ret in H2. inversion H2; subst. reflexivity.
Qed.

(** X9.  With a batch size in the configuration, finalizing the training
    parameters touches nothing but the accumulation count.  When an effective
    batch size is requested, the count is set (whatever [gradients_accum] held
    before) to the least number of batches that reach it over all replicas,
    as long as the effective batch size and the size of a batch over all
    replicas are at most [2^53], the integers that [float] converts as they
    are; when none is requested the runner is left as it was. *)
Theorem finalize_sets_accumulation fuel env r w b :
  get (batch_size (config r)) = Some b -> 0 < b -> 0 < num_devices r ->
  (forall e, get (effective_batch_size (config r)) = Some e ->
     0 <= e <= 2 ^ 53 -> b * num_devices r <= 2 ^ 53 ->
     exists c,
       _finalize_training_parameters fuel env r w =
         (Ok (with_config (set_gradients_accum (PyInt c) (config r)) r), w) /\
       (c - 1) * (b * num_devices r) < e <= c * (b * num_devices r)) /\
  (get (effective_batch_size (config r)) = None ->
   _finalize_training_parameters fuel env r w = (Ok r, w)).
Proof.
  intros Hb Hpos Hnd. unfold _finalize_training_parameters.
  rewrite Hb. cbn [none_or_zero].
  destruct (Z.eqb_spec b 0) as [?|_]; [lia|].
  split.
  - intros e He He53 Hd53.
    destruct (count_batch_accum_exact b e (num_devices r))
      as (c & Hc & Hbounds); [nia|exact He53|].
    exists c. split; [|exact Hbounds].
    unfold bind at 1. cbn [ret]. rewrite He, Hb.
    unfold bind, lift, ret, num_replicas. rewrite Hc. reflexivity.
  - intros He. unfold bind at 1. cbn [ret]. rewrite He.
    unfold ret. rewrite with_config_same. reflexivity.
Qed.

Lemma finalize_sets_accumulation_witness :
  _finalize_training_parameters 0 failing_env accumulating_runner initial_world =
    (Ok (with_config (set_gradients_accum (PyInt 4) (config accumulating_runner))
           accumulating_runner), initial_world) /\
  _finalize_training_parameters 0 failing_env sized_runner initial_world =
    (Ok sized_runner, initial_world).
Proof.
  split.
  - destruct (proj1 (finalize_sets_accumulation 0 failing_env accumulating_runner
                       initial_world 512 eq_refl ltac:(lia) ltac:(cbn; lia))
                4096 eq_refl ltac:(split; discriminate) ltac:(discriminate))
      as (c & H & Hc).
    cbn in Hc. assert (c = 4) as -> by lia. exact H.
  - apply (finalize_sets_accumulation 0 failing_env sized_runner initial_world 32);
      [reflexivity|lia|reflexivity|reflexivity].
Defined.

(** X10.  A batch size found by the search of [_finalize_training_parameters]
    lies between 1024 and 16384, and is at most the effective batch size when
    one of at least 1024 is requested; the accumulation count is then the
    least number of batches of that size that reach the effective batch size
    over all replicas. *)
Theorem finalize_tuned_batch_size_range fuel env r w r' w' :
  none_or_zero (get (batch_size (config r))) = true ->
  _finalize_training_parameters fuel env r w = (Ok r', w') ->
  exists b,
    get (batch_size (config r')) = Some b /\
    default_min_batch_size <= b <= default_max_batch_size /\
    forall e, get (effective_batch_size (config r)) = Some e ->
      (default_min_batch_size <= e -> b <= e) /\
      exists c, gradients_accum (config r') = PyInt c /\
                _count_batch_accum b e (num_devices r) = Ok c.
Proof.
  intros Hz H. apply finalize_ok in H as (c1 & Hfirst & Hsecond).
  rewrite Hz in Hfirst. destruct Hfirst as (tuned & Hrun & ->).
  apply auto_tune_ok in Hrun as (trials & _ & Hspec & _).
  apply spec_search_bounds in Hspec; [|unfold default_min_range; lia].
  exists tuned.
  destruct (get (effective_batch_size (config r))) as [e|] eqn:He.
  - destruct Hsecond as (b & a & Hb & Ha & ->). cbn in Hb.
    inversion Hb; subst b. cbn. split; [reflexivity|].
    unfold default_min_batch_size, default_max_batch_size in *.
    split; [lia|]. intros e' He'. inversion He'; subst e'.
    split; [lia|]. exists a. auto.
  - subst r'. cbn. split; [reflexivity|].
    unfold default_min_batch_size, default_max_batch_size in *.
    split; [lia|]. intros e' He'. discriminate.
Qed.

Lemma finalize_tuned_batch_size_range_witness :
  exists b,
    get (batch_size (set_batch_size (PyInt 8943) example_config)) = Some b /\
    default_min_batch_size <= b <= default_max_batch_size.
Proof.
  destruct (finalize_tuned_batch_size_range 6 (threshold_env 9000) tokens_runner
              initial_world
              (with_config (set_batch_size (PyInt 8943) example_config)
                 tokens_runner)
              (snd (_finalize_training_parameters 6 (threshold_env 9000)
                      tokens_runner initial_world)))
    as (b & Hb & Hrange & _).
  - reflexivity.
  - vm_compute. reflexivity.
  - exists b. split; [exact Hb|exact Hrange].
Defined.

(** X11.  Finalizing the training parameters a second time changes nothing: a
    runner that went through [_finalize_training_parameters] has a batch size,
    so no search takes place again (no file is written and no trial is
    started, whatever the environment), and the accumulation count is computed
    again to the same value. *)
Theorem finalize_twice fuel env r w r' w' :
  _finalize_training_parameters fuel env r w = (Ok r', w') ->
  forall fuel' env' w'',
    _finalize_training_parameters fuel' env' r' w'' = (Ok r', w'').
Proof.
  intros H fuel' env' w''.
  apply finalize_ok in H as (c1 & Hfirst & Hsecond).
  assert (exists b, get (batch_size c1) = Some b /\ b <> 0 /\
                    effective_batch_size c1 = effective_batch_size (config r))
    as (b & Hb & Hnz & He1).
  { destruct (none_or_zero (get (batch_size (config r)))) eqn:Hz.
    - destruct Hfirst as (tuned & Hrun & ->).
      apply auto_tune_ok in Hrun as (trials & _ & Hspec & _).
      apply spec_search_bounds in Hspec; [|unfold default_min_range; lia].
      exists tuned. unfold default_min_batch_size in *. cbn.
      repeat split; lia.
    - destruct Hfirst as [-> _].
      destruct (get (batch_size (config r))) as [b|]; [|discriminate].
      exists b. cbn in Hz. repeat split. lia. }
  unfold _finalize_training_parameters.
  destruct (get (effective_batch_size (config r))) as [e|] eqn:He.
  - destruct Hsecond as (b' & a & Hb' & Ha & ->).
    rewrite Hb in Hb'. inversion Hb'; subst b'.
    cbn [config with_config set_gradients_accum batch_size effective_batch_size].
    rewrite Hb. cbn [none_or_zero].
    destruct (Z.eqb_spec b 0) as [?|_]; [contradiction|].
    unfold bind at 1. cbn [ret].
    cbn [config with_config set_gradients_accum batch_size effective_batch_size].
    rewrite He1, He, Hb. unfold bind, lift, ret, num_replicas in *. cbn.
    rewrite Ha. reflexivity.
  - subst r'.
    cbn [config with_config]. rewrite Hb. cbn [none_or_zero].
    destruct (Z.eqb_spec b 0) as [?|_]; [contradiction|].
    unfold bind at 1. cbn [ret]. rewrite He1, He. reflexivity.
Qed.

Lemma finalize_twice_witness :
  _finalize_training_parameters 0 broken_env
    (with_config (set_gradients_accum (PyInt 4) (config accumulating_runner))
       accumulating_runner) stale_world =
  (Ok (with_config (set_gradients_accum (PyInt 4) (config accumulating_runner))
         accumulating_runner), stale_world).
Proof.
  apply (finalize_twice 0 failing_env accumulating_runner initial_world
           (with_config (set_gradients_accum (PyInt 4) (config accumulating_runner))
              accumulating_runner) initial_world).
  reflexivity.
Defined.

(** ** The iterations of the training loop *)

Lemma div_succ (a k : Z) :
  1 <= k -> (a + 1) / k = a / k + (if (a + 1) mod k =? 0 then 1 else 0).
Proof.
  intros Hk.
  pose proof (Z.div_mod a k ltac:(lia)) as Ha.
  pose proof (Z.mod_pos_bound a k ltac:(lia)) as Hab.
  destruct (Z.eqb_spec ((a + 1) mod k) 0) as [E|E].
  - symmetry. apply (Z.div_unique (a + 1) k (a / k + 1) 0); [lia|].
    pose proof (Z.div_mod (a + 1) k ltac:(lia)) as Hs. rewrite E in Hs.
    assert (a mod k = k - 1) as Hm.
    { destruct (Z.eq_dec (a mod k) (k - 1)) as [?|Hne]; [assumption|exfalso].
      rewrite <- Z.add_mod_idemp_l in E by lia.
      destruct (Z.eq_dec k 1) as [->|?]; [rewrite Z.mod_1_r in Hne; lia|].
      rewrite Z.mod_small in E by lia. lia. }
    lia.
  - pose proof (mod_succ a k Hk E) as Hs.
    rewrite Z.add_0_r. symmetry. apply (Z.div_unique (a + 1) k (a / k) (a mod k + 1)).
    + pose proof (Z.mod_pos_bound (a + 1) k ltac:(lia)). lia.
    + lia.
Qed.

Lemma applications_later k : 1 <= k ->
  forall m i, (1 <= i)%nat ->
  applications k i m = Z.of_nat (i + m) / k - Z.of_nat i / k.
Proof.
  intros Hk. induction m as [|m IH]; intros i Hi.
  - cbn. rewrite Nat.add_0_r. lia.
  - cbn [applications]. rewrite IH by lia. unfold apply_at.
    destruct (Nat.eqb_spec i 0); [lia|]. cbn [orb].
    replace (Z.of_nat (S i)) with (Z.of_nat i + 1) by lia.
    replace (Z.of_nat (S i + m)) with (Z.of_nat (i + S m)) by lia.
    rewrite (div_succ (Z.of_nat i) k Hk).
    destruct ((Z.of_nat i + 1) mod k =? 0); lia.
Qed.

Lemma applications_from_start k m : 1 <= k ->
  applications k 0 (S m) = 1 + Z.of_nat (S m) / k - (if k =? 1 then 1 else 0).
Proof.
  intros Hk. cbn [applications]. unfold apply_at at 1. cbn [Nat.eqb orb].
  rewrite applications_later by lia.
  replace (Z.of_nat (1 + m)) with (Z.of_nat (S m)) by lia.
  change (Z.of_nat 1) with 1.
  destruct (Z.eqb_spec k 1) as [->|Hne].
  - rewrite Z.div_1_r. change (1 / 1) with 1. lia.
  - rewrite (Z.div_small 1 k) by lia. lia.
Qed.

Section TrainLoopProofs.

Context {T : Type}.
Variable tadd : T -> T -> T.
Variable zeros_like : T -> T.

Lemma after_apply_ok re ss ts (w : @TrainWorld T) :
  re <> 0 -> ss <> 0 ->
  exists evs,
    after_apply (Some re) (Some ss) ts w =
      (Ok (py_eq (iterations w) ts),
       {| world := world w; gradients := gradients w;
          iterations := iterations w; trace := trace w ++ evs |}) /\
    Forall is_bookkeeping evs /\
    (py_eq (iterations w) ts = true ->
     exists evs', evs = evs' ++ [EvSaved (iterations w)]).
Proof.
  intros Hre Hss. unfold after_apply, bind, gets, lift, np_mod, log_event, modify, ret.
  destruct (Z.eqb_spec re 0) as [?|_]; [contradiction|].
  destruct (Z.eqb_spec ss 0) as [?|_]; [contradiction|]. cbn.
  destruct (iterations w mod re =? 0); cbn;
    destruct (iterations w mod ss =? 0); cbn;
    destruct (py_eq (iterations w) ts); cbn.
  all: try (eexists [_; _]; rewrite <- app_assoc; split; [reflexivity|];
            split; [repeat constructor|intros _; eexists [_]; reflexivity]).
  all: try (eexists [_]; split; [reflexivity|];
            split; [repeat constructor|intros _; exists []; reflexivity]).
  all: try (eexists [_]; split; [reflexivity|];
            split; [repeat constructor|intros; discriminate]).
  all: try (exists []; rewrite app_nil_r; split; [destruct w; reflexivity|];
            split; [constructor|intros; discriminate]).
  all: try (eexists [_; _]; rewrite <- app_assoc; split; [reflexivity|];
            split; [repeat constructor|intros; discriminate]).
Qed.

Lemma stepped_iterations k i g (w : @TrainWorld T) :
  iterations (stepped tadd zeros_like k i g w)
    = iterations w + (if apply_at k i then 1 else 0).
Proof. unfold stepped. destruct (apply_at k i); cbn; lia. Qed.

Lemma stepped_trace k i g (w : @TrainWorld T) :
  exists evs, trace (stepped tadd zeros_like k i g w)
                = trace w ++ EvStep i g :: evs.
Proof.
  unfold stepped. destruct (apply_at k i); cbn.
  - eexists [_]. rewrite <- app_assoc. reflexivity.
  - exists []. reflexivity.
Qed.

(** X12.  With [train_steps] set and not yet reached, the loop returns without
    an exception, never takes [optimizer.iterations] past [train_steps], and
    when it reaches [train_steps] the last thing it does is save the
    checkpoint of that step; when it does not reach it, every batch of the
    dataset was used for a step. *)
Theorem train_loop_stops_at_train_steps k re ss n :
  k <> 0 -> re <> 0 -> ss <> 0 ->
  forall ds i (w : @TrainWorld T),
  iterations w < n ->
  let r := train_loop tadd zeros_like (Some k) (Some re) (Some ss) (Some n)
             i ds w in
  fst r = Ok tt /\
  iterations w <= iterations (snd r) <= n /\
  exists tr,
    trace (snd r) = trace w ++ tr /\
    (iterations (snd r) = n -> exists tr', tr = tr' ++ [EvSaved n]) /\
    (iterations (snd r) < n ->
     forall j g, ds !! j = Some g -> EvStep (i + j) g ∈ tr).
Proof.
  intros Hk Hre Hss. induction ds as [|g ds IH]; intros i w Hlt; cbn zeta.
  - cbn. split; [reflexivity|]. split; [lia|]. exists [].
    rewrite app_nil_r. split; [reflexivity|]. split; [lia|].
    intros _ j g Hj. rewrite lookup_nil in Hj. discriminate.
  - rewrite train_loop_cons by assumption.
    pose proof (stepped_iterations k i g w) as Hit.
    destruct (stepped_trace k i g w) as [evs0 Htr0].
    set (w1 := stepped tadd zeros_like k i g w) in *.
    destruct (after_apply_ok re ss (Some n) w1 Hre Hss) as (evs & Hafter & _ & Hlast).
    rewrite (bind_eq_ok _ _ _ _ _ Hafter).
    set (w2 := {| world := world w1; gradients := gradients w1;
                  iterations := iterations w1; trace := trace w1 ++ evs |}) in *.
    assert (iterations w <= iterations w1 <= iterations w + 1) as Hstep
      by (destruct (apply_at k i); lia).
    destruct (py_eq (iterations w1) (Some n)) eqn:Hstop.
    + cbn in Hstop. apply Z.eqb_eq in Hstop. cbn [ret fst snd].
      split; [reflexivity|]. cbn [iterations w2]. split; [lia|].
      exists ((EvStep i g :: evs0) ++ evs). cbn [trace w2].
      rewrite Htr0, <- app_assoc. split; [reflexivity|]. split; [|lia].
      intros _. destruct (Hlast eq_refl) as [evs' ->].
      exists ((EvStep i g :: evs0) ++ evs'). rewrite Hstop, <- app_assoc.
      reflexivity.
    + cbn in Hstop. apply Z.eqb_neq in Hstop.
      destruct (IH (S i) w2) as (Hok & Hbound & tr & Htr & Hsaved & Hall).
      { cbn. lia. }
      cbn zeta in *. cbn [iterations w2] in Hbound.
      split; [exact Hok|]. split; [lia|].
      exists ((EvStep i g :: evs0) ++ evs ++ tr).
      split.
      { rewrite Htr. cbn [trace w2]. rewrite Htr0, <- !app_assoc. reflexivity. }
      split.
      * intros Hn. destruct (Hsaved Hn) as [tr' ->].
        exists ((EvStep i g :: evs0) ++ evs ++ tr'). rewrite <- !app_assoc.
        reflexivity.
      * intros Hn [|j] g' Hj.
        -- cbn in Hj. inversion Hj; subst g'. rewrite Nat.add_0_r.
           apply elem_of_app. left. left.
        -- cbn in Hj. apply elem_of_app. right. apply elem_of_app. right.
           replace (i + S j)%nat with (S i + j)%nat by lia. apply (Hall Hn). exact Hj.
Qed.

Lemma train_loop_iterations k re ss :
  k <> 0 -> re <> 0 -> ss <> 0 ->
  forall ds i (w : @TrainWorld T),
  let r := train_loop tadd zeros_like (Some k) (Some re) (Some ss) None i ds w in
  fst r = Ok tt /\
  iterations (snd r) = iterations w + applications k i (length ds).
Proof.
  intros Hk Hre Hss. induction ds as [|g ds IH]; intros i w; cbn zeta.
  - cbn. split; [reflexivity|lia].
  - rewrite train_loop_cons by assumption.
    pose proof (stepped_iterations k i g w) as Hit.
    set (w1 := stepped tadd zeros_like k i g w) in *.
    destruct (after_apply_ok re ss None w1 Hre Hss) as (evs & Hafter & _).
    rewrite (bind_eq_ok _ _ _ _ _ Hafter). cbn [py_eq].
    set (w2 := {| world := world w1; gradients := gradients w1;
                  iterations := iterations w1; trace := trace w1 ++ evs |}) in *.
    destruct (IH (S i) w2) as (Hok & Hcount). cbn zeta in *.
    split; [exact Hok|]. rewrite Hcount. cbn [iterations w2 length applications].
    lia.
Qed.

(** X13.  Without [train_steps], a loop over [n >= 1] batches with an
    accumulation count [k >= 1] returns after [1 + floor(n / k)] applications
    of the gradients when [k >= 2] (the first batch is applied on its own),
    and after [n] applications when [k = 1]: that is how far
    [optimizer.iterations] has advanced. *)
Theorem train_loop_iteration_count k re ss g ds (w : @TrainWorld T) :
  1 <= k -> re <> 0 -> ss <> 0 ->
  let n := Z.of_nat (length (g :: ds)) in
  let r := train_loop tadd zeros_like (Some k) (Some re) (Some ss) None
             0 (g :: ds) w in
  fst r = Ok tt /\
  iterations (snd r) =
    iterations w + (if k =? 1 then n else 1 + n / k).
Proof.
  intros Hk Hre Hss n r.
  destruct (train_loop_iterations k re ss ltac:(lia) Hre Hss (g :: ds) 0%nat w)
    as (Hok & Hcount).
  split; [exact Hok|]. subst r. rewrite Hcount.
  cbn [length]. rewrite applications_from_start by assumption.
  subst n. cbn [length].
  destruct (Z.eqb_spec k 1) as [->|_]; [rewrite Z.div_1_r|]; lia.
Qed.

End TrainLoopProofs.

Lemma train_loop_stops_at_train_steps_witness :
  let r := train_loop Z.add (fun _ => 0) (Some 2) (Some 100) (Some 5000) (Some 2)
             0 example_gradients (initial_train_world initial_world) in
  fst r = Ok tt /\
  iterations (initial_train_world (T := Z) initial_world) <= iterations (snd r) <= 2 /\
  exists tr,
    trace (snd r) = trace (initial_train_world initial_world) ++ tr /\
    (iterations (snd r) = 2 -> exists tr', tr = tr' ++ [EvSaved 2]) /\
    (iterations (snd r) < 2 ->
     forall j g, example_gradients !! j = Some g -> EvStep (0 + j) g ∈ tr).
Proof.
  apply (train_loop_stops_at_train_steps Z.add (fun _ => 0) 2 100 5000 2);
    cbn; lia.
Defined.

Lemma train_loop_iteration_count_witness :
  let n := Z.of_nat (length example_gradients) in
  let r := train_loop Z.add (fun _ => 0) (Some 2) (Some 100) (Some 5000) None
             0 example_gradients (initial_train_world initial_world) in
  fst r = Ok tt /\
  iterations (snd r) =
    iterations (initial_train_world (T := Z) initial_world)
    + (if 2 =? 1 then n else 1 + n / 2).
Proof.
  apply (train_loop_iteration_count Z.add (fun _ => 0) 2 100 5000 [1]
           [[10]; [100]; [1000]] (initial_train_world initial_world)); lia.
Defined.

(** ** Gradients left in the buffers *)

Section PendingGradients.

Context {T : Type}.
Variable tadd : T -> T -> T.
Variable zeros_like : T -> T.

(** Adding to a buffer of zeros gives what was added. *)
Hypothesis zeros_add : forall u g, tadd (zeros_like u) g = g.

Lemma train_loop_accum_inv_end k n ds tr0 re ss :
  1 <= k -> re <> 0 -> ss <> 0 ->
  Forall (fun g => length g = n) ds ->
  forall rest i (w : @TrainWorld T),
  drop i ds = rest ->
  accum_inv tadd zeros_like k n ds tr0 i w ->
  accum_inv tadd zeros_like k n ds tr0 (i + length rest)
    (snd (train_loop tadd zeros_like (Some k) (Some re) (Some ss) None i rest w)).
Proof.
  intros Hk Hre Hss Hds. induction rest as [|g rest IH]; intros i w Hdrop Hinv.
  - cbn. rewrite Nat.add_0_r. exact Hinv.
  - assert (ds !! i = Some g) as Hg.
    { rewrite <- (Nat.add_0_r i), <- lookup_drop, Hdrop. reflexivity. }
    assert (drop (S i) ds = rest) as Hdrop'.
    { replace (S i) with (i + 1)%nat by lia.
      rewrite <- drop_drop, Hdrop. reflexivity. }
    rewrite train_loop_cons by lia.
    pose proof (stepped_inv tadd zeros_like zeros_add k n ds tr0 i g w
                  Hk Hds Hg Hinv) as Hinv2.
    destruct (after_apply_ok re ss None (stepped tadd zeros_like k i g w) Hre Hss)
      as (evs & Hafter & Hevs & _).
    rewrite (bind_eq_ok _ _ _ _ _ Hafter). cbn [py_eq].
    replace (i + length (g :: rest))%nat with (S i + length rest)%nat by (cbn; lia).
    apply IH; [exact Hdrop'|].
    eapply (accum_inv_bookkeeping tadd zeros_like);
      [exact Hinv2|reflexivity|reflexivity|exact Hevs].
Qed.

(** X14.  When the dataset ends between two applications, the gradients
    accumulated since the last application stay in the buffers and are never
    handed to the optimizer: after a loop without [train_steps] over [m]
    batches, when the last batch is not one that applies, every buffer holds
    the sum of the gradients of the batches that came after the last
    application (all but the first batch when [m < k], and the last [m mod k]
    batches otherwise). *)
Theorem train_loop_leaves_pending_gradients k n re ss (ds : list (list T))
    (w : @TrainWorld T) :
  1 <= k -> re <> 0 -> ss <> 0 ->
  Forall (fun g => length g = n) ds ->
  gradients w = [] ->
  let m := length ds in
  let start := if Z.of_nat m <? k then 1%nat
               else Z.to_nat (Z.of_nat m - Z.of_nat m mod k) in
  (2 <= m)%nat -> Z.of_nat m mod k <> 0 ->
  (start < m)%nat /\
  forall j,
    gradients (snd (train_loop tadd zeros_like (Some k) (Some re) (Some ss) None
                      0 ds w)) !! j
    = var_sum tadd (column j (slice start m ds)).
Proof.
  intros Hk Hre Hss Hds Hw m start Hm Hmod.
  assert (pending_start k m = start) as Hstart.
  { unfold pending_start, start. destruct (Nat.eqb_spec m 0); [lia|reflexivity]. }
  assert (start < m)%nat as Hlt.
  { unfold start. destruct (Z.ltb_spec (Z.of_nat m) k); [lia|].
    pose proof (Z.mod_pos_bound (Z.of_nat m) k ltac:(lia)). lia. }
  split; [exact Hlt|]. intros j.
  pose proof (train_loop_accum_inv_end k n ds (trace w) re ss Hk Hre Hss Hds
                ds 0%nat w eq_refl) as Hinv.
  destruct Hinv as (tr & _ & _ & _ & Hbuf).
  { exists []. split; [rewrite app_nil_r; reflexivity|].
    split; [intros ? ? Hin; apply elem_of_nil in Hin; contradiction|].
    split; [intros ? ? Hin; apply elem_of_nil in Hin; contradiction|].
    rewrite decide_True by reflexivity. left. assumption. }
  cbn [Nat.add] in Hbuf. fold m in Hbuf. rewrite Hstart in Hbuf.
  rewrite decide_False in Hbuf by lia.
  rewrite Hbuf. apply (lookup_accumulate tadd n). unfold slice.
  apply Forall_drop, Forall_take. exact Hds.
Qed.

End PendingGradients.

Lemma train_loop_leaves_pending_gradients_witness :
  let ds := [[1]; [10]; [100]; [1000]; [10000]] in
  (4 < 5)%nat /\
  forall j,
    gradients (snd (train_loop Z.add (fun _ => 0) (Some 2) (Some 100) (Some 5000)
                      None 0 ds (initial_train_world initial_world))) !! j
    = var_sum Z.add (column j (slice 4 5 ds)).
Proof.
  apply (train_loop_leaves_pending_gradients Z.add (fun _ => 0)
           (fun _ _ => eq_refl) 2 1%nat 100 5000
           [[1]; [10]; [100]; [1000]; [10000]] (initial_train_world initial_world)).
  - lia.
  - lia.
  - lia.
  - repeat constructor.
  - reflexivity.
  - cbn. lia.
  - discriminate.
Defined.

(** ** [train] as a whole *)

Lemma finalize_keeps_settings fuel env r w r' w' :
  _finalize_training_parameters fuel env r w = (Ok r', w') ->
  model_dir (config r') = model_dir (config r) /\
  train_steps (config r') = train_steps (config r) /\
  save_checkpoints_steps (config r') = save_checkpoints_steps (config r) /\
  save_summary_steps (config r') = save_summary_steps (config r) /\
  average_last_checkpoints (config r') = average_last_checkpoints (config r).
Proof.
  intros H. apply finalize_ok in H as (c1 & Hfirst & Hsecond).
  assert (model_dir c1 = model_dir (config r) /\
          train_steps c1 = train_steps (config r) /\
          save_checkpoints_steps c1 = save_checkpoints_steps (config r) /\
          save_summary_steps c1 = save_summary_steps (config r) /\
          average_last_checkpoints c1 = average_last_checkpoints (config r)) as H1.
  { destruct (none_or_zero _).
    - destruct Hfirst as (tuned & _ & ->). cbn. auto.
    - destruct Hfirst as [-> _]. auto. }
  destruct (get (effective_batch_size (config r))).
  - destruct Hsecond as (b & a & _ & _ & ->). cbn. exact H1.
  - subst r'. cbn. exact H1.
Qed.

Section TrainProofs.

Context {T : Type}.
Variable tadd : T -> T -> T.
Variable zeros_like : T -> T.

Lemma train_unfold fuel env cenv r (ds : list (list T)) ckpt :
  train tadd zeros_like fuel env cenv r ds ckpt =
  bind (lift_world (_finalize_training_parameters fuel env r))
    (fun r' => train_from tadd zeros_like cenv (config r') ds
                 (resolve_checkpoint cenv (config r') ckpt)).
Proof. reflexivity. Qed.

Lemma train_after_finalize fuel env cenv r (ds : list (list T)) ckpt
    (w : @TrainWorld T) r' w1 :
  _finalize_training_parameters fuel env r (world w) = (Ok r', w1) ->
  train tadd zeros_like fuel env cenv r ds ckpt w =
  train_from tadd zeros_like cenv (config r') ds
    (resolve_checkpoint cenv (config r) ckpt)
    {| world := w1; gradients := gradients w; iterations := iterations w;
       trace := trace w |}.
Proof.
  intros H. rewrite train_unfold. unfold bind at 1, lift_world at 1. rewrite H.
  unfold resolve_checkpoint.
  destruct (finalize_keeps_settings _ _ _ _ _ _ H) as (-> & _). reflexivity.
Qed.


Lemma emits_ret {A} P (a : A) : emits P (@ret (@TrainWorld T) A a).
Proof. intros w. exists []. cbn. rewrite app_nil_r. auto. Qed.

Lemma emits_raise {A} P e : emits P (@raise (@TrainWorld T) A e).
Proof. intros w. exists []. cbn. rewrite app_nil_r. auto. Qed.

Lemma emits_lift {A} P (o : outcome A) : emits P (@lift (@TrainWorld T) A o).
Proof. intros w. exists []. cbn. rewrite app_nil_r. auto. Qed.

Lemma emits_gets {A} P (f : @TrainWorld T -> A) : emits P (gets f).
Proof. intros w. exists []. cbn. rewrite app_nil_r. auto. Qed.

Lemma emits_log_event (P : @TrainEvent T -> Prop) ev :
  P ev -> emits P (log_event ev).
Proof. intros Hev w. exists [ev]. cbn. auto. Qed.

Lemma emits_bind {A B} P (m : M (@TrainWorld T) A) (k : A -> M (@TrainWorld T) B) :
  emits P m -> (forall a, emits P (k a)) -> emits P (bind m k).
Proof.
  intros Hm Hk w. unfold bind. destruct (Hm w) as (tr1 & H1 & HP1).
  destruct (m w) as [[a|e|] w1]; cbn in *; eauto.
  destruct (Hk a w1) as (tr2 & H2 & HP2). exists (tr1 ++ tr2).
  rewrite H2, H1, app_assoc. split; [reflexivity|]. apply Forall_app. auto.
Qed.

Lemma emits_train_loop accum re ss ts dataset :
  forall i, emits is_loop_event (train_loop tadd zeros_like accum re ss ts i dataset).
Proof.
  induction dataset as [|g dataset IH]; intros i; cbn [train_loop].
  - apply emits_ret.
  - apply emits_bind.
    { intros w. exists [EvStep i g]. cbn. split; [reflexivity|]. repeat constructor. }
    intros _. apply emits_bind.
    { destruct (i =? 0)%nat; [apply emits_ret|].
      apply emits_bind; [apply emits_lift|]. intros m. apply emits_ret. }
    intros apply_now. apply emits_bind.
    { destruct apply_now; [|apply emits_ret].
      intros w. eexists [_]. cbn. split; [reflexivity|]. repeat constructor. }
    intros _. apply emits_bind; [apply emits_gets|]. intros step.
    apply emits_bind; [apply emits_lift|]. intros r.
    apply emits_bind.
    { destruct (r =? 0); [apply emits_log_event; exact I|apply emits_ret]. }
    intros _. apply emits_bind; [apply emits_lift|]. intros s.
    apply emits_bind.
    { destruct ((s =? 0) || py_eq step ts);
        [apply emits_log_event; exact I|apply emits_ret]. }
    intros _. destruct (py_eq step ts); [apply emits_ret|apply IH].
Qed.

Lemma train_from_some cenv c (ds : list (list T)) p (w : @TrainWorld T) :
  train_from tadd zeros_like cenv c ds (Some p) w =
  (if match get (train_steps c) with
      | Some n => n <=? checkpoint_iterations cenv p
      | None => false
      end
   then ret (model_dir c)
   else (train_loop tadd zeros_like (get_default (gradients_accum c) 1)
           (get_default (save_summary_steps c) 100)
           (get_default (save_checkpoints_steps c) 5000)
           (get (train_steps c)) 0 ds ;;;
         _maybe_average_checkpoints cenv c)%py)
    {| world := world w; gradients := gradients w;
       iterations := checkpoint_iterations cenv p;
       trace := trace w ++ [EvRestored p] |}.
Proof. reflexivity. Qed.

Lemma train_from_none cenv c (ds : list (list T)) (w : @TrainWorld T) :
  train_from tadd zeros_like cenv c ds None w =
  (train_loop tadd zeros_like (get_default (gradients_accum c) 1)
     (get_default (save_summary_steps c) 100)
     (get_default (save_checkpoints_steps c) 5000)
     (get (train_steps c)) 0 ds ;;;
   _maybe_average_checkpoints cenv c)%py w.
Proof. reflexivity. Qed.

(** The shape of the trace of a run: the restore if there is one, the
    events of the loop, the averaging if there is one. *)
Lemma train_from_trace cenv c (ds : list (list T)) start (w : @TrainWorld T) :
  let r := train_from tadd zeros_like cenv c ds start w in
  exists loop avg,
    trace (snd r) =
      trace w ++ match start with Some p => [EvRestored p] | None => [] end
      ++ loop ++ avg /\
    Forall is_loop_event loop /\
    (avg = [] /\ (forall dir, fst r = Ok dir -> dir = model_dir c) \/
     exists m, avg = [EvAveraged m] /\ 0 < m /\ is_chief cenv = true /\
               get_default (average_last_checkpoints c) 0 = Some m /\
               fst r = Ok (path_join (model_dir c) "avg")).
Proof.
  cbn zeta. unfold train_from.
  set (rest := fun reached : bool =>
    if reached then ret (model_dir c)
    else (train_loop tadd zeros_like (get_default (gradients_accum c) 1)
            (get_default (save_summary_steps c) 100)
            (get_default (save_checkpoints_steps c) 5000)
            (get (train_steps c)) 0 ds ;;;
          _maybe_average_checkpoints cenv c)%py).
  assert (forall reached (w0 : @TrainWorld T),
    exists loop avg,
      trace (snd (rest reached w0)) = trace w0 ++ loop ++ avg /\
      Forall is_loop_event loop /\
      (avg = [] /\ (forall dir, fst (rest reached w0) = Ok dir -> dir = model_dir c) \/
       exists m, avg = [EvAveraged m] /\ 0 < m /\ is_chief cenv = true /\
                 get_default (average_last_checkpoints c) 0 = Some m /\
                 fst (rest reached w0) = Ok (path_join (model_dir c) "avg")))
    as Hrest.
  { intros reached w0. unfold rest. destruct reached.
    - exists [], []. cbn. rewrite app_nil_r. split; [reflexivity|].
      split; [constructor|]. left. split; [reflexivity|].
      intros dir H. inversion H; reflexivity.
    - unfold bind.
      destruct (emits_train_loop (get_default (gradients_accum c) 1)
                  (get_default (save_summary_steps c) 100)
                  (get_default (save_checkpoints_steps c) 5000)
                  (get (train_steps c)) ds 0%nat w0) as (loop & Hloop & HP).
      destruct (train_loop _ _ _ _ _ _ _ _ w0) as [[u|e|] w1]; cbn [snd] in Hloop.
      + unfold _maybe_average_checkpoints.
        destruct (get_default (average_last_checkpoints c) 0) as [m|] eqn:Hm.
        * destruct (Z.ltb_spec 0 m) as [Hpos|Hneg]; cbn [andb].
          -- destruct (is_chief cenv) eqn:Hchief.
             ++ exists loop, [EvAveraged m]. cbn. rewrite Hloop, <- app_assoc.
                split; [reflexivity|]. split; [exact HP|]. right.
                exists m. split; [reflexivity|]. split; [exact Hpos|].
                split; [reflexivity|]. split; reflexivity.
             ++ exists loop, []. cbn. rewrite Hloop, app_nil_r.
                split; [reflexivity|]. split; [exact HP|]. left.
                split; [reflexivity|]. intros dir H. inversion H; reflexivity.
          -- exists loop, []. cbn. rewrite Hloop, app_nil_r.
             split; [reflexivity|]. split; [exact HP|]. left.
             split; [reflexivity|]. intros dir H. inversion H; reflexivity.
        * exists loop, []. cbn. rewrite Hloop, app_nil_r.
          split; [reflexivity|]. split; [exact HP|]. left.
          split; [reflexivity|]. intros dir H. discriminate.
      + exists loop, []. cbn. rewrite Hloop, app_nil_r.
        split; [reflexivity|]. split; [exact HP|]. left.
        split; [reflexivity|]. intros dir H. discriminate.
      + exists loop, []. cbn. rewrite Hloop, app_nil_r.
        split; [reflexivity|]. split; [exact HP|]. left.
        split; [reflexivity|]. intros dir H. discriminate. }
  destruct start as [p|].
  - unfold bind at 1. unfold bind at 1. cbn [restore modify]. unfold bind at 1.
    cbn [gets ret].
    match goal with
    | |- context [rest ?b ?w0] => destruct (Hrest b w0) as (loop & avg & Htr & HP & Havg)
    end.
    exists loop, avg. cbn [trace] in Htr. rewrite Htr, <- !app_assoc.
    split; [reflexivity|]. split; [exact HP|exact Havg].
  - unfold bind at 1. cbn [ret].
    destruct (Hrest false w) as (loop & avg & Htr & HP & Havg).
    exists loop, avg. split; [exact Htr|]. split; [exact HP|exact Havg].
Qed.

Lemma loop_event_not_restored (tr : list (@TrainEvent T)) :
  Forall is_loop_event tr ->
  (forall q, EvRestored q ∉ tr) /\ (forall m, EvAveraged m ∉ tr).
Proof.
  intros H. rewrite Forall_forall in H.
  split; intros x Hin; apply (H _ Hin).
Qed.

Lemma train_trace_restores fuel env cenv r (ds : list (list T)) ckpt
    (w : @TrainWorld T) r' w1 :
  _finalize_training_parameters fuel env r (world w) = (Ok r', w1) ->
  exists tr,
    trace (snd (train tadd zeros_like fuel env cenv r ds ckpt w)) =
      trace w ++ match resolve_checkpoint cenv (config r) ckpt with
                 | Some p => [EvRestored p]
                 | None => []
                 end ++ tr /\
    forall q, EvRestored q ∉ tr.
Proof.
  intros Hfin. rewrite (train_after_finalize _ _ _ _ _ _ _ _ _ Hfin).
  destruct (train_from_trace cenv (config r') ds
              (resolve_checkpoint cenv (config r) ckpt)
              {| world := w1; gradients := gradients w;
                 iterations := iterations w; trace := trace w |})
    as (loop & avg & Htr & HP & Havg).
  cbn zeta in Htr. cbn [trace] in Htr.
  exists (loop ++ avg). split; [exact Htr|].
  intros q Hin. apply elem_of_app in Hin as [Hin|Hin].
  - exact (proj1 (loop_event_not_restored loop HP) q Hin).
  - destruct Havg as [[-> _]|(m & -> & _)].
    + apply elem_of_nil in Hin. exact Hin.
    + apply list_elem_of_singleton in Hin. discriminate.
Qed.

(** X15.  Which checkpoint [train] starts from, once the training parameters
    are finalized.  A path that is not a directory is restored as it is,
    whatever the model directory holds; a directory stands for its latest
    checkpoint; a directory without a checkpoint restores nothing, even when
    the model directory has checkpoints; and without a path and without a
    checkpoint in the model directory nothing is restored.  A restore comes
    before anything else, and there is at most one. *)
Theorem train_checkpoint_precedence fuel env cenv r (ds : list (list T))
    (w : @TrainWorld T) r' w1 :
  _finalize_training_parameters fuel env r (world w) = (Ok r', w1) ->
  (forall p, isdir cenv p = false ->
     exists tr,
       trace (snd (train tadd zeros_like fuel env cenv r ds (Some p) w))
         = trace w ++ EvRestored p :: tr /\
       forall q, EvRestored q ∉ tr) /\
  (forall p q, isdir cenv p = true -> latest_checkpoint cenv p = Some q ->
     exists tr,
       trace (snd (train tadd zeros_like fuel env cenv r ds (Some p) w))
         = trace w ++ EvRestored q :: tr /\
       forall q', EvRestored q' ∉ tr) /\
  (forall p, isdir cenv p = true -> latest_checkpoint cenv p = None ->
     exists tr,
       trace (snd (train tadd zeros_like fuel env cenv r ds (Some p) w))
         = trace w ++ tr /\
       forall q, EvRestored q ∉ tr) /\
  (latest_checkpoint cenv (model_dir (config r)) = None ->
     exists tr,
       trace (snd (train tadd zeros_like fuel env cenv r ds None w))
         = trace w ++ tr /\
       forall q, EvRestored q ∉ tr).
Proof.
  intros Hfin. split; [|split; [|split]].
  - intros p Hp.
    destruct (train_trace_restores fuel env cenv r ds (Some p) w r' w1 Hfin)
      as (tr & Htr & Hno).
    cbn [resolve_checkpoint] in Htr. rewrite Hp in Htr. eauto.
  - intros p q Hp Hq.
    destruct (train_trace_restores fuel env cenv r ds (Some p) w r' w1 Hfin)
      as (tr & Htr & Hno).
    cbn [resolve_checkpoint] in Htr. rewrite Hp, Hq in Htr. eauto.
  - intros p Hp Hq.
    destruct (train_trace_restores fuel env cenv r ds (Some p) w r' w1 Hfin)
      as (tr & Htr & Hno).
    cbn [resolve_checkpoint] in Htr. rewrite Hp, Hq in Htr. eauto.
  - intros Hq.
    destruct (train_trace_restores fuel env cenv r ds None w r' w1 Hfin)
      as (tr & Htr & Hno).
    cbn [resolve_checkpoint] in Htr. rewrite Hq in Htr. eauto.
Qed.


Lemma train_loop_without_save_steps accum re ts g (ds : list (list T))
    (w : @TrainWorld T) :
  re <> Some 0 ->
  exists evs w',
    train_loop tadd zeros_like accum re None ts 0 (g :: ds) w
      = (Raise TypeError, w') /\
    trace w' = trace w ++ EvStep 0 g :: evs /\
    forall s, EvSaved s ∉ evs.
Proof.
  intros Hre. cbn [train_loop Nat.eqb].
  unfold bind, _step, _apply_gradients, modify, ret, gets, lift, log_event.
  cbn [iterations trace np_mod].
  destruct re as [re|]; cbn [np_mod].
  - destruct (Z.eqb_spec re 0) as [->|_]; [congruence|].
    destruct (_ mod re =? 0); cbn.
    + eexists [_; _], _. split; [reflexivity|]. cbn. rewrite <- !app_assoc.
      split; [reflexivity|]. intros s Hin.
      apply elem_of_cons in Hin as [?|Hin]; [discriminate|].
      apply list_elem_of_singleton in Hin. discriminate.
    + eexists [_], _. split; [reflexivity|]. cbn. rewrite <- !app_assoc.
      split; [reflexivity|]. intros s Hin.
      apply list_elem_of_singleton in Hin. discriminate.
  - eexists [_], _. split; [reflexivity|]. cbn. rewrite <- !app_assoc.
    split; [reflexivity|]. intros s Hin.
    apply list_elem_of_singleton in Hin. discriminate.
Qed.

(** X17.  A configuration in which [save_checkpoints_steps] is present and
    [None] (as in the trial configurations of the batch size search) makes
    [train] raise [TypeError] in the first pass of the loop, at the test
    [step % save_checkpoints_steps], after the first batch was used and before
    any checkpoint is saved.  The only run that returns is the one that leaves
    before the loop, because the checkpoint it restored had already reached
    [train_steps]. *)
Theorem train_without_save_checkpoints_steps fuel env cenv r g
    (ds : list (list T)) ckpt (w : @TrainWorld T) r' w1 :
  _finalize_training_parameters fuel env r (world w) = (Ok r', w1) ->
  save_checkpoints_steps (config r) = PyNone ->
  save_summary_steps (config r) <> PyInt 0 ->
  let run := train tadd zeros_like fuel env cenv r (g :: ds) ckpt w in
  exists tr,
    trace (snd run) = trace w ++ tr /\
    (forall s, EvSaved s ∉ tr) /\
    match fst run with
    | Ok dir =>
        dir = model_dir (config r) /\
        exists p n, tr = [EvRestored p] /\
                    get (train_steps (config r)) = Some n /\
                    n <= checkpoint_iterations cenv p
    | Raise e => e = TypeError /\ EvStep 0 g ∈ tr
    | OutOfFuel => False
    end.
Proof.
  intros Hfin Hnone Hsummary. cbn zeta.
  rewrite (train_after_finalize _ _ _ _ _ _ _ _ _ Hfin).
  destruct (finalize_keeps_settings _ _ _ _ _ _ Hfin)
    as (Hmd & Hts & Hscs & Hsss & _).
  assert (get_default (save_summary_steps (config r)) 100 <> Some 0) as Hre.
  { destruct (save_summary_steps (config r)) as [| |z]; cbn; try discriminate.
    intros E. inversion E; subst. congruence. }
  assert (forall w0 : @TrainWorld T,
    exists evs w',
      (train_loop tadd zeros_like (get_default (gradients_accum (config r')) 1)
         (get_default (save_summary_steps (config r')) 100)
         (get_default (save_checkpoints_steps (config r')) 5000)
         (get (train_steps (config r'))) 0 (g :: ds) ;;;
       _maybe_average_checkpoints cenv (config r'))%py w0
        = (Raise TypeError, w') /\
      trace w' = trace w0 ++ EvStep 0 g :: evs /\
      forall s, EvSaved s ∉ evs) as Hloop.
  { intros w0. rewrite Hscs, Hnone, Hsss. cbn [get_default].
    destruct (train_loop_without_save_steps
                (get_default (gradients_accum (config r')) 1)
                (get_default (save_summary_steps (config r)) 100)
                (get (train_steps (config r'))) g ds w0 Hre)
      as (evs & w' & Hrun & Htr & Hno).
    exists evs, w'. unfold bind. rewrite Hrun. auto. }
  destruct (resolve_checkpoint cenv (config r) ckpt) as [p|].
  - rewrite train_from_some. cbn [world gradients trace].
    set (w0 := {| world := w1; gradients := gradients w;
                  iterations := checkpoint_iterations cenv p;
                  trace := trace w ++ [EvRestored p] |}).
    assert (exists evs,
      trace (snd ((train_loop tadd zeros_like
                     (get_default (gradients_accum (config r')) 1)
                     (get_default (save_summary_steps (config r')) 100)
                     (get_default (save_checkpoints_steps (config r')) 5000)
                     (get (train_steps (config r'))) 0 (g :: ds) ;;;
                   _maybe_average_checkpoints cenv (config r'))%py w0))
        = trace w ++ EvRestored p :: EvStep 0 g :: evs /\
      fst ((train_loop tadd zeros_like
              (get_default (gradients_accum (config r')) 1)
              (get_default (save_summary_steps (config r')) 100)
              (get_default (save_checkpoints_steps (config r')) 5000)
              (get (train_steps (config r'))) 0 (g :: ds) ;;;
            _maybe_average_checkpoints cenv (config r'))%py w0)
        = Raise TypeError /\
      forall s, EvSaved s ∉ EvRestored p :: EvStep 0 g :: evs)
      as (evs & Htr & Hout & Hno).
    { destruct (Hloop w0) as (evs & w' & Hrun & Htr & Hno).
      exists evs. rewrite Hrun. cbn [fst snd]. unfold w0 in Htr. cbn [trace] in Htr.
      split; [rewrite Htr, <- app_assoc; reflexivity|]. split; [reflexivity|].
      intros s Hin. apply elem_of_cons in Hin as [?|Hin]; [discriminate|].
      apply elem_of_cons in Hin as [?|Hin]; [discriminate|]. exact (Hno s Hin). }
    destruct (match get (train_steps (config r')) with
              | Some n => n <=? checkpoint_iterations cenv p
              | None => false
              end) eqn:Hreached.
    + exists [EvRestored p]. cbn [ret fst snd]. split; [reflexivity|]. split.
      { intros s Hin. apply list_elem_of_singleton in Hin. discriminate. }
      split; [exact Hmd|]. rewrite <- Hts.
      destruct (get (train_steps (config r'))) as [n|]; [|discriminate].
      exists p, n. apply Z.leb_le in Hreached. auto.
    + cbv iota. eexists. split; [exact Htr|]. split; [exact Hno|]. rewrite Hout.
      split; [reflexivity|]. right. left.
  - rewrite train_from_none.
    destruct (Hloop {| world := w1; gradients := gradients w;
                       iterations := iterations w; trace := trace w |})
      as (evs & w' & Hrun & Htr & Hno).
    rewrite Hrun. cbn [fst snd]. cbn [trace] in Htr.
    exists (EvStep 0 g :: evs). split; [exact Htr|]. split.
    { intros s Hin. apply elem_of_cons in Hin as [?|Hin]; [discriminate|].
      exact (Hno s Hin). }
    split; [reflexivity|]. left.
Qed.

End TrainProofs.

Lemma train_checkpoint_precedence_witness :
  (exists tr,
     trace (snd (train Z.add (fun _ => 0) 20 succeeding_env two_directories
                   sized_runner example_gradients (Some "other/ckpt-7")
                   (initial_train_world initial_world)))
       = trace (initial_train_world (T := Z) initial_world)
         ++ EvRestored "other/ckpt-7" :: tr /\
     forall q, EvRestored q ∉ tr) /\
  (exists tr,
     trace (snd (train Z.add (fun _ => 0) 20 succeeding_env two_directories
                   sized_runner example_gradients (Some "pretrained")
                   (initial_train_world initial_world)))
       = trace (initial_train_world (T := Z) initial_world) ++ tr /\
     forall q, EvRestored q ∉ tr).
Proof.
  destruct (train_checkpoint_precedence Z.add (fun _ => 0) 20 succeeding_env
              two_directories sized_runner example_gradients
              (initial_train_world initial_world) sized_runner initial_world
              eq_refl) as (Hfile & _ & Hempty & _).
  split.
  - apply (Hfile "other/ckpt-7"). reflexivity.
  - apply (Hempty "pretrained"); reflexivity.
Defined.

Lemma train_without_save_checkpoints_steps_witness :
  let run := train Z.add (fun _ => 0) 0 failing_env no_checkpoints trial_runner
               ([1] :: [[10]; [100]]) None (initial_train_world initial_world) in
  exists tr,
    trace (snd run) = trace (initial_train_world (T := Z) initial_world) ++ tr /\
    (forall s, EvSaved s ∉ tr) /\
    match fst run with
    | Ok dir =>
        dir = model_dir (config trial_runner) /\
        exists p n, tr = [EvRestored p] /\
                    get (train_steps (config trial_runner)) = Some n /\
                    n <= checkpoint_iterations no_checkpoints p
    | Raise e => e = TypeError /\ EvStep 0 [1] ∈ tr
    | OutOfFuel => False
    end.
Proof.
  apply (train_without_save_checkpoints_steps Z.add (fun _ => 0) 0 failing_env
           no_checkpoints trial_runner [1] [[10]; [100]] None
           (initial_train_world initial_world) trial_runner initial_world).
  - reflexivity.
  - reflexivity.
  - discriminate.
Defined.

(** The run of the witness, evaluated: one step, one application, then the
    exception. *)
Example train_trial_configuration_run :
  let run := train Z.add (fun _ => 0) 0 failing_env no_checkpoints trial_runner
               ([1] :: [[10]; [100]]) None (initial_train_world initial_world) in
  fst run = Raise TypeError /\
  trace (snd run) = [EvStep 0 [1]; EvApplied 0 [1]].
Proof. vm_compute. split; reflexivity. Qed.

(** ** An effective batch size of 0 *)

Section ZeroAccumulation.

Context {T : Type}.
Variable tadd : T -> T -> T.
Variable zeros_like : T -> T.




End ZeroAccumulation.


(** ** [_restore_checkpoint] and [train] *)

(** X19.  For a model directory that exists, [train] starts from the
    checkpoint that [_restore_checkpoint] (the restore of [infer] and [score])
    picks for the same [checkpoint_path]: the path itself when it is not a
    directory, the latest checkpoint of the directory it names, the latest
    checkpoint of the model directory when no path is given, and nothing when
    the directory has no checkpoint.  For a model directory that does not
    exist and no path, [_restore_checkpoint] hands the path of the model
    directory itself to [checkpoint.restore]. *)
Theorem train_starts_from_restore_checkpoint {T} (tadd : T -> T -> T)
    (zeros_like : T -> T) fuel env cenv r (ds : list (list T)) ckpt
    (w : @TrainWorld T) r' w1 :
  _finalize_training_parameters fuel env r (world w) = (Ok r', w1) ->
  (isdir cenv (model_dir (config r)) = true ->
   exists tr,
     trace (snd (train tadd zeros_like fuel env cenv r ds ckpt w)) =
       trace w
       ++ match _restore_checkpoint cenv (model_dir (config r)) ckpt with
          | Some p => [EvRestored p]
          | None => []
          end ++ tr /\
     forall q, EvRestored q ∉ tr) /\
  (isdir cenv (model_dir (config r)) = false ->
   _restore_checkpoint cenv (model_dir (config r)) None
     = Some (model_dir (config r))).
Proof.
  intros Hfin. split.
  - intros Hdir.
    destruct (train_trace_restores tadd zeros_like fuel env cenv r ds ckpt w r' w1
                Hfin) as (tr & Htr & Hno).
    exists tr. split; [|exact Hno]. rewrite Htr.
    unfold resolve_checkpoint, _restore_checkpoint.
    destruct ckpt as [p|]; [reflexivity|]. rewrite Hdir. reflexivity.
  - intros Hdir. unfold _restore_checkpoint. rewrite Hdir. reflexivity.
Qed.

Lemma train_starts_from_restore_checkpoint_witness :
  exists tr,
    trace (snd (train Z.add (fun _ => 0) 20 succeeding_env example_checkpoints
                  sized_runner example_gradients None
                  (initial_train_world initial_world))) =
      trace (initial_train_world (T := Z) initial_world)
      ++ match _restore_checkpoint example_checkpoints
                 (model_dir (config sized_runner)) None with
         | Some p => [EvRestored p]
         | None => []
         end ++ tr /\
    forall q, EvRestored q ∉ tr.
Proof.
  apply (train_starts_from_restore_checkpoint Z.add (fun _ => 0) 20
           succeeding_env example_checkpoints sized_runner example_gradients
           None (initial_train_world initial_world) sized_runner initial_world).
  - reflexivity.
  - reflexivity.
Defined.

(** ** What [infer] and [score] write *)

Lemma written_nil s w : written s [] w = w.
Proof. destruct s, w; cbn; rewrite app_nil_r; reflexivity. Qed.

Lemma written_app s l1 l2 w : written s l2 (written s l1 w) = written s (l1 ++ l2) w.
Proof. destruct s; cbn; rewrite app_assoc; reflexivity. Qed.

Lemma stream_write_written s line w :
  (s = FileStream -> file_status w = Opened) ->
  stream_write s line w = (Ok tt, written s [line] w).
Proof.
  intros Hopen. destruct s; cbn.
  - rewrite (Hopen eq_refl). rewrite <- (Hopen eq_refl). reflexivity.
  - reflexivity.
Qed.

Lemma written_status s lines w : file_status (written s lines w) = file_status w.
Proof. destruct s; reflexivity. Qed.

Lemma write_predictions_unindexed s :
  forall ps ow w,
  (s = FileStream -> file_status w = Opened) ->
  Forall (fun p => index p = None) ps ->
  write_predictions s ps ow w = (Ok ow, written s (text <$> ps) w).
Proof.
  induction ps as [|p ps IH]; intros ow w Hopen Hps.
  - cbn. rewrite written_nil. reflexivity.
  - apply Forall_cons in Hps as [Hp Hps]. cbn [write_predictions]. rewrite Hp.
    unfold write_fn.
    rewrite (bind_eq_ok _ _ _ _ _ (stream_write_written s (text p) w Hopen)).
    rewrite IH; [|rewrite written_status; exact Hopen|exact Hps].
    rewrite written_app. reflexivity.
Qed.

Lemma infer_loop_unindexed s log_time :
  forall dataset ow t w,
  (s = FileStream -> file_status w = Opened) ->
  Forall unindexed_batch dataset ->
  exists t',
    infer_loop s log_time dataset ow t w =
      (Ok t', written s (text <$> all_predictions dataset) w) /\
    (log_time = true ->
     total_examples t' =
       total_examples t + Z.of_nat (length (all_predictions dataset))).
Proof.
  induction dataset as [|b dataset IH]; intros ow t w Hopen Hds.
  - exists t. cbn. rewrite written_nil. split; [reflexivity|]. lia.
  - apply Forall_cons in Hds as [(ps & Hb & Hps) Hds].
    cbn [infer_loop all_predictions flat_map]. rewrite Hb.
    fold (all_predictions dataset).
    rewrite (bind_eq_ok _ _ _ _ _ (write_predictions_unindexed s ps ow w Hopen Hps)).
    destruct (IH ow (if log_time then add_totals b (length ps) t else t)
                (written s (text <$> ps) w)) as (t' & Hrun & Hcount).
    { rewrite written_status. exact Hopen. }
    { exact Hds. }
    exists t'. rewrite Hrun, written_app, fmap_app. split; [reflexivity|].
    intros Hlog. rewrite (Hcount Hlog), Hlog. cbn. rewrite length_app. lia.
Qed.

(** X20.  Predictions that carry no index are written in the order in which
    they are produced, one line each, whatever the outcome of [infer]. With a
    predictions file, the file holds exactly these lines (what it held before
    is gone) and the standard output is left alone; without one, the lines are
    added to the standard output and the file is not touched.  Without
    [log_time], [infer] returns. *)
Theorem infer_writes_unindexed_in_arrival_order
    predictions_file log_time dataset w :
  Forall unindexed_batch dataset ->
  let run := infer predictions_file log_time dataset w in
  (if truthy predictions_file
   then file_lines (snd run) = text <$> all_predictions dataset /\
        stdout_lines (snd run) = stdout_lines w
   else stdout_lines (snd run)
          = stdout_lines w ++ (text <$> all_predictions dataset) /\
        file_lines (snd run) = file_lines w /\
        file_status (snd run) = file_status w) /\
  (log_time = false -> fst run = Ok tt).
Proof.
  intros Hds. cbn zeta.
  destruct (infer predictions_file log_time dataset w) as [o w'] eqn:Hrun.
  cbn [fst snd]. unfold infer in Hrun.
  destruct (truthy predictions_file).
  - unfold bind at 1 in Hrun. cbn [io_open] in Hrun.
    destruct (infer_loop_unindexed FileStream log_time dataset None
                {| total_time := 0; total_tokens := 0; total_examples := 0 |}
                {| file_status := Opened; file_lines := [];
                   stdout_lines := stdout_lines w |}
                (fun _ => eq_refl) Hds) as (t & Hloop & _).
    rewrite (bind_eq_ok _ _ _ _ _ Hloop) in Hrun.
    unfold bind in Hrun. destruct log_time.
    + destruct (total_examples t =? 0); cbn in Hrun;
        [inversion Hrun; subst; cbn; split; [auto|discriminate]|].
      destruct (0 <? total_tokens t); cbn in Hrun;
        [|inversion Hrun; subst; cbn; split; [auto|discriminate]].
      destruct (Qeq_bool (total_time t) 0); cbn in Hrun;
        inversion Hrun; subst; cbn; split; auto; discriminate.
    + cbn in Hrun. inversion Hrun; subst; cbn. auto.
  - unfold bind at 1 in Hrun. cbn [ret] in Hrun.
    destruct (infer_loop_unindexed Stdout log_time dataset None
                {| total_time := 0; total_tokens := 0; total_examples := 0 |}
                w ltac:(discriminate) Hds) as (t & Hloop & _).
    rewrite (bind_eq_ok _ _ _ _ _ Hloop) in Hrun.
    unfold bind in Hrun. destruct log_time.
    + destruct (total_examples t =? 0); cbn in Hrun;
        [inversion Hrun; subst; cbn; split; [auto|discriminate]|].
      destruct (0 <? total_tokens t); cbn in Hrun;
        [|inversion Hrun; subst; cbn; split; [auto|discriminate]].
      destruct (Qeq_bool (total_time t) 0); cbn in Hrun;
        inversion Hrun; subst; cbn; split; auto; discriminate.
    + cbn in Hrun. inversion Hrun; subst; cbn. auto.
Qed.

(** X21.  With [log_time], a dataset that yields no example (no batch, or only
    empty batches) makes [infer] raise [ZeroDivisionError] when it computes
    the average time per example, after the loop: nothing was written, and a
    predictions file that was opened is left open and empty. *)
Theorem infer_log_time_without_examples predictions_file dataset w :
  Forall (fun b => batch_predictions b = inr []) dataset ->
  let run := infer predictions_file true dataset w in
  fst run = Raise ZeroDivisionError /\
  stdout_lines (snd run) = stdout_lines w /\
  (truthy predictions_file = true ->
   file_status (snd run) = Opened /\ file_lines (snd run) = []).
Proof.
  intros Hds. cbn zeta.
  assert (Forall unindexed_batch dataset) as Hun.
  { eapply Forall_impl; [exact Hds|]. intros b Hb. exists []. auto. }
  assert (all_predictions dataset = []) as Hall.
  { clear Hun. induction Hds as [|b ds Hb _ IH]; [reflexivity|].
    cbn. rewrite Hb. exact IH. }
  destruct (infer predictions_file true dataset w) as [o w'] eqn:Hrun.
  cbn [fst snd]. unfold infer in Hrun.
  destruct (truthy predictions_file).
  - unfold bind at 1 in Hrun. cbn [io_open] in Hrun.
    destruct (infer_loop_unindexed FileStream true dataset None
                {| total_time := 0; total_tokens := 0; total_examples := 0 |}
                {| file_status := Opened; file_lines := [];
                   stdout_lines := stdout_lines w |}
                (fun _ => eq_refl) Hun) as (t & Hloop & Hcount).
    rewrite (bind_eq_ok _ _ _ _ _ Hloop) in Hrun. rewrite Hall in *.
    specialize (Hcount eq_refl). cbn in Hcount.
    unfold bind in Hrun. rewrite Hcount in Hrun. cbn in Hrun.
    inversion Hrun; subst. cbn. auto.
  - unfold bind at 1 in Hrun. cbn [ret] in Hrun.
    destruct (infer_loop_unindexed Stdout true dataset None
                {| total_time := 0; total_tokens := 0; total_examples := 0 |}
                w ltac:(discriminate) Hun) as (t & Hloop & Hcount).
    rewrite (bind_eq_ok _ _ _ _ _ Hloop) in Hrun. rewrite Hall in *.
    specialize (Hcount eq_refl). cbn in Hcount.
    unfold bind in Hrun. rewrite Hcount in Hrun. cbn in Hrun.
    inversion Hrun; subst. cbn. rewrite app_nil_r.
    split; [reflexivity|]. split; [reflexivity|]. discriminate.
Qed.

Lemma write_lines_written s :
  forall lines w,
  (s = FileStream -> file_status w = Opened) ->
  write_lines s lines w = (Ok tt, written s lines w).
Proof.
  induction lines as [|l lines IH]; intros w Hopen.
  - cbn. rewrite written_nil. reflexivity.
  - cbn [write_lines].
    rewrite (bind_eq_ok _ _ _ _ _ (stream_write_written s l w Hopen)).
    rewrite IH by (rewrite written_status; exact Hopen).
    rewrite written_app. reflexivity.
Qed.

Lemma score_loop_written s :
  forall (batches : list (list string)) w,
  (s = FileStream -> file_status w = Opened) ->
  score_loop s (inr <$> batches) w = (Ok tt, written s (concat batches) w).
Proof.
  induction batches as [|b batches IH]; intros w Hopen.
  - cbn. rewrite written_nil. reflexivity.
  - cbn [fmap list_fmap score_loop concat].
    rewrite (bind_eq_ok _ _ _ _ _ (write_lines_written s b w Hopen)).
    rewrite IH by (rewrite written_status; exact Hopen).
    rewrite written_app. reflexivity.
Qed.

(** X22.  [score] refuses a model that is neither a language model nor a
    sequence to sequence model, and a sequence to sequence model without a
    predictions file, with [ValueError] and before any stream is opened.
    Otherwise, when every batch is scored without error, it returns having
    written the lines of all batches in order: to the output file, which it
    replaced and closed, or to the standard output. *)
Theorem score_outcome model predictions_file output_file
    (batches : list (list string)) w :
  let run := score model predictions_file output_file (inr <$> batches) w in
  (model = OtherModel \/
   model = SequenceToSequence /\ truthy predictions_file = false ->
   run = (Raise ValueError, w)) /\
  (model = LanguageModel \/
   model = SequenceToSequence /\ truthy predictions_file = true ->
   fst run = Ok tt /\
   if truthy output_file
   then snd run = {| file_status := Closed; file_lines := concat batches;
                     stdout_lines := stdout_lines w |}
   else snd run = written Stdout (concat batches) w).
Proof.
  cbn zeta. split.
  - intros [->|[-> Hp]]; [reflexivity|]. unfold score. rewrite Hp. reflexivity.
  - intros Hmodel.
    destruct (score model predictions_file output_file (inr <$> batches) w)
      as [o w'] eqn:Hrun. cbn [fst snd].
    assert (score model predictions_file output_file (inr <$> batches) w =
            (stream <- (if truthy output_file then io_open else ret Stdout) ;;
             score_loop stream (inr <$> batches) ;;;
             if truthy output_file then stream_close stream else ret tt)%py w)
      as Heq.
    { unfold score. destruct Hmodel as [->|[-> Hp]]; [reflexivity|].
      rewrite Hp. reflexivity. }
    rewrite Heq in Hrun. clear Heq.
    destruct (truthy output_file).
    + unfold bind at 1 in Hrun. cbn [io_open] in Hrun.
      rewrite (bind_eq_ok _ _ _ _ _
                 (score_loop_written FileStream batches
                    {| file_status := Opened; file_lines := [];
                       stdout_lines := stdout_lines w |} (fun _ => eq_refl)))
        in Hrun.
      cbn in Hrun. inversion Hrun; subst. auto.
    + unfold bind at 1 in Hrun. cbn [ret] in Hrun.
      rewrite (bind_eq_ok _ _ _ _ _
                 (score_loop_written Stdout batches w ltac:(discriminate)))
        in Hrun.
      cbn in Hrun. inversion Hrun; subst. auto.
Qed.

Lemma infer_writes_unindexed_in_arrival_order_witness :
  let dataset :=
    [ {| batch_predictions := inr [ {| index := None; text := "b" |};
                                    {| index := None; text := "a" |} ];
         batch_time := 1; batch_tokens := None |} ] in
  let run := infer (Some "out.txt") false dataset initial_io in
  (if truthy (Some "out.txt")
   then file_lines (snd run) = text <$> all_predictions dataset /\
        stdout_lines (snd run) = stdout_lines initial_io
   else stdout_lines (snd run)
          = stdout_lines initial_io ++ (text <$> all_predictions dataset) /\
        file_lines (snd run) = file_lines initial_io /\
        file_status (snd run) = file_status initial_io) /\
  (false = false -> fst run = Ok tt).
Proof.
  apply (infer_writes_unindexed_in_arrival_order (Some "out.txt") false
           [ {| batch_predictions := inr [ {| index := None; text := "b" |};
                                           {| index := None; text := "a" |} ];
                batch_time := 1; batch_tokens := None |} ] initial_io).
  repeat constructor. eexists. split; [reflexivity|]. repeat constructor.
Defined.

Lemma infer_log_time_without_examples_witness :
  let run := infer (Some "out.txt") true
               [ {| batch_predictions := inr []; batch_time := 1;
                    batch_tokens := None |} ] initial_io in
  fst run = Raise ZeroDivisionError /\
  stdout_lines (snd run) = stdout_lines initial_io /\
  (truthy (Some "out.txt") = true ->
   file_status (snd run) = Opened /\ file_lines (snd run) = []).
Proof.
  apply (infer_log_time_without_examples (Some "out.txt")
           [ {| batch_predictions := inr []; batch_time := 1;
                batch_tokens := None |} ] initial_io).
  repeat constructor.
Defined.

(** ** [_make_exporters] *)

Lemma known_exporter_dec name : {known_exporter name} + {~ known_exporter name}.
Proof.
  unfold known_exporter.
  destruct (String.eqb_spec (lower name) "last"); [left; auto|].
  destruct (String.eqb_spec (lower name) "final"); [left; auto|].
  destruct (String.eqb_spec (lower name) "best"); [left; auto|].
  right. intuition.
Qed.

Lemma make_exporters_loop_spec {F A} (f : F) (a : A) :
  forall names acc,
  match make_exporters_loop f a names acc with
  | Ok es =>
      Forall known_exporter names /\
      exists new, es = acc ++ new /\
        exporter_class <$> new = lower <$> names /\
        Forall (fun e => exporter_arguments e = (f, a) /\
                         exporter_name e =
                           (if String.eqb (exporter_class e) "last"
                            then "latest" else exporter_class e)) new
  | Raise e => e = ValueError /\ Exists (fun n => ~ known_exporter n) names
  | OutOfFuel => False
  end.
Proof.
  induction names as [|n names IH]; intros acc.
  - cbn. split; [constructor|]. exists []. rewrite app_nil_r.
    repeat split; constructor.
  - cbn [make_exporters_loop].
    destruct (String.eqb_spec (lower n) "last") as [E1|N1];
      [|destruct (String.eqb_spec (lower n) "final") as [E2|N2];
        [|destruct (String.eqb_spec (lower n) "best") as [E3|N3]]].
    + specialize (IH (acc ++ [LatestExporter "latest" f a])).
      destruct (make_exporters_loop _ _ _ _) as [es|e|]; [| |exact IH].
      * destruct IH as (Hk & new & -> & Hc & Hargs).
        split; [constructor; [left; exact E1|exact Hk]|].
        eexists (_ :: new). rewrite <- app_assoc. split; [reflexivity|].
        cbn. rewrite Hc, E1. split; [reflexivity|].
        constructor; [split; reflexivity|exact Hargs].
      * destruct IH as [-> Hex]. split; [reflexivity|]. right. exact Hex.
    + specialize (IH (acc ++ [FinalExporter "final" f a])).
      destruct (make_exporters_loop _ _ _ _) as [es|e|]; [| |exact IH].
      * destruct IH as (Hk & new & -> & Hc & Hargs).
        split; [constructor; [right; left; exact E2|exact Hk]|].
        eexists (_ :: new). rewrite <- app_assoc. split; [reflexivity|].
        cbn. rewrite Hc, E2. split; [reflexivity|].
        constructor; [split; reflexivity|exact Hargs].
      * destruct IH as [-> Hex]. split; [reflexivity|]. right. exact Hex.
    + specialize (IH (acc ++ [BestExporter "best" f a])).
      destruct (make_exporters_loop _ _ _ _) as [es|e|]; [| |exact IH].
      * destruct IH as (Hk & new & -> & Hc & Hargs).
        split; [constructor; [right; right; exact E3|exact Hk]|].
        eexists (_ :: new). rewrite <- app_assoc. split; [reflexivity|].
        cbn. rewrite Hc, E3. split; [reflexivity|].
        constructor; [split; reflexivity|exact Hargs].
      * destruct IH as [-> Hex]. split; [reflexivity|]. right. exact Hex.
    + split; [reflexivity|]. left. unfold known_exporter. intuition.
Qed.

(** X23.  [_make_exporters] on an entry that is not [None] and whose names are
    all known, in any letter case: it returns one exporter per name, in the
    order of the names, each of the class its name asks for ("last" gives a
    [LatestExporter] called "latest", "final" a [FinalExporter] called
    "final", "best" a [BestExporter] called "best") and built with the serving
    input function and the assets given.  A single exporter is returned as it
    is, not in a list: for one name, or for a list of one name; an empty list
    gives an empty list. *)
Theorem make_exporters_builds_in_order {F A} (t : ExportersType) (f : F) (a : A) :
  t <> ExportersNone ->
  Forall known_exporter (exporter_names t) ->
  exists r,
    _make_exporters t f a = Ok r /\
    exporter_class <$> exporters_of r = lower <$> exporter_names t /\
    Forall (fun e => exporter_arguments e = (f, a) /\
                     exporter_name e =
                       (if String.eqb (exporter_class e) "last"
                        then "latest" else exporter_class e))
      (exporters_of r) /\
    match exporter_names t with
    | [_] => exists e, r = OneExporter e
    | _ => r = ExporterList (exporters_of r)
    end.
Proof.
  intros Hnone Hknown.
  assert (_make_exporters t f a =
          match make_exporters_loop f a (exporter_names t) [] with
          | Ok exporters =>
              match exporters with
              | [e] => Ok (OneExporter e)
              | _ => Ok (ExporterList exporters)
              end
          | Raise e => Raise e
          | OutOfFuel => OutOfFuel
          end) as ->.
  { destruct t; [congruence|reflexivity|reflexivity]. }
  pose proof (make_exporters_loop_spec f a (exporter_names t) []) as Hloop.
  destruct (make_exporters_loop f a (exporter_names t) []) as [es|e|].
  - destruct Hloop as (_ & new & -> & Hc & Hargs). cbn [app] in *.
    assert (length new = length (exporter_names t)) as Hlen.
    { rewrite <- (length_fmap exporter_class new), Hc, length_fmap. reflexivity. }
    destruct new as [|e1 [|e2 new]].
    + eexists. split; [reflexivity|]. cbn. split; [exact Hc|].
      split; [constructor|].
      destruct (exporter_names t) as [|? [|]]; try discriminate. reflexivity.
    + eexists. split; [reflexivity|]. cbn. split; [exact Hc|].
      split; [exact Hargs|].
      destruct (exporter_names t) as [|? [|]]; try discriminate. eauto.
    + eexists. split; [reflexivity|]. cbn. split; [exact Hc|].
      split; [exact Hargs|].
      destruct (exporter_names t) as [|? [|]]; try discriminate. reflexivity.
  - exfalso. destruct Hloop as [_ Hex].
    apply Exists_exists in Hex as (n & Hin & Hn).
    rewrite Forall_forall in Hknown. apply Hn, Hknown, Hin.
  - destruct Hloop.
Qed.

Lemma make_exporters_builds_in_order_witness :
  exists r,
    _make_exporters (ExportersNames ["Best"; "last"]) 0%nat 1%nat = Ok r /\
    exporter_class <$> exporters_of r
      = lower <$> exporter_names (ExportersNames ["Best"; "last"]) /\
    Forall (fun e => exporter_arguments e = (0%nat, 1%nat) /\
                     exporter_name e =
                       (if String.eqb (exporter_class e) "last"
                        then "latest" else exporter_class e))
      (exporters_of r) /\
    match exporter_names (ExportersNames ["Best"; "last"]) with
    | [_] => exists e, r = OneExporter e
    | _ => r = ExporterList (exporters_of r)
    end.
Proof.
  apply (make_exporters_builds_in_order (ExportersNames ["Best"; "last"])
           0%nat 1%nat).
  - discriminate.
  - constructor; [right; right; reflexivity|].
    constructor; [left; reflexivity|constructor].
Defined.

(** The default entry of the evaluation configuration, evaluated. *)
Example make_exporters_default :
  _make_exporters (ExportersName "last") 0%nat 1%nat
    = Ok (OneExporter (LatestExporter "latest" 0%nat 1%nat)).
Proof. reflexivity. Qed.

(** X24.  [_make_exporters] raises [ValueError], and nothing else, exactly
    when the entry holds a name that, in lower case, is none of "last",
    "final" and "best"; [None] is never refused.  The outcome depends on the
    names only up to the case of their letters. *)
Theorem make_exporters_rejects_unknown_names {F A}
    (t u : ExportersType) (f : F) (a : A) :
  (_make_exporters t f a = Raise ValueError <->
   Exists (fun n => ~ known_exporter n) (exporter_names t)) /\
  (forall e, _make_exporters t f a = Raise e -> e = ValueError) /\
  (lower <$> exporter_names t = lower <$> exporter_names u ->
   (t = ExportersNone <-> u = ExportersNone) ->
   _make_exporters t f a = _make_exporters u f a).
Proof.
  assert (_make_exporters t f a =
          match t with
          | ExportersNone => Ok NoExporters
          | _ =>
              match make_exporters_loop f a (exporter_names t) [] with
              | Ok exporters =>
                  match exporters with
                  | [e] => Ok (OneExporter e)
                  | _ => Ok (ExporterList exporters)
                  end
              | Raise e => Raise e
              | OutOfFuel => OutOfFuel
              end
          end) as Ht by (destruct t; reflexivity).
  pose proof (make_exporters_loop_spec f a (exporter_names t) []) as Hloop.
  split; [|split].
  - rewrite Ht. destruct t as [|name|names].
    + cbn. split; [discriminate|]. intros H. inversion H.
    + destruct (make_exporters_loop f a _ []) as [es|e|].
      * destruct Hloop as [Hk _]. split.
        -- destruct es as [|? [|]]; discriminate.
        -- intros Hex. exfalso. apply Exists_exists in Hex as (n & Hin & Hn).
           rewrite Forall_forall in Hk. apply Hn, Hk, Hin.
      * destruct Hloop as [-> Hex]. split; auto.
      * destruct Hloop.
    + destruct (make_exporters_loop f a _ []) as [es|e|].
      * destruct Hloop as [Hk _]. split.
        -- destruct es as [|? [|]]; discriminate.
        -- intros Hex. exfalso. apply Exists_exists in Hex as (n & Hin & Hn).
           rewrite Forall_forall in Hk. apply Hn, Hk, Hin.
      * destruct Hloop as [-> Hex]. split; auto.
      * destruct Hloop.
  - intros e. rewrite Ht. destruct t as [|name|names]; [discriminate| |];
      (destruct (make_exporters_loop f a _ []) as [es|e'|];
       [destruct es as [|? [|]]; discriminate
       |destruct Hloop as [-> _]; intros H; inversion H; reflexivity
       |destruct Hloop]).
  - intros Hlower Hnone.
    assert (forall l1 l2 acc, lower <$> l1 = lower <$> l2 ->
              make_exporters_loop f a l1 acc = make_exporters_loop f a l2 acc)
      as Hsame.
    { induction l1 as [|n1 l1 IH]; intros [|n2 l2] acc Hl; try discriminate.
      - reflexivity.
      - cbn in Hl. injection Hl as Hn Hl. cbn [make_exporters_loop].
        rewrite Hn.
        destruct (String.eqb (lower n2) "last"); [apply IH; exact Hl|].
        destruct (String.eqb (lower n2) "final"); [apply IH; exact Hl|].
        destruct (String.eqb (lower n2) "best"); [apply IH; exact Hl|].
        reflexivity. }
    assert (_make_exporters u f a =
            match u with
            | ExportersNone => Ok NoExporters
            | _ =>
                match make_exporters_loop f a (exporter_names u) [] with
                | Ok exporters =>
                    match exporters with
                    | [e] => Ok (OneExporter e)
                    | _ => Ok (ExporterList exporters)
                    end
                | Raise e => Raise e
                | OutOfFuel => OutOfFuel
                end
            end) as Hu by (destruct u; reflexivity).
    rewrite Ht, Hu, (Hsame _ _ [] Hlower).
    destruct t, u; try reflexivity;
      exfalso; destruct Hnone as [H1 H2];
      first [discriminate (H1 eq_refl)|discriminate (H2 eq_refl)].
Qed.

Lemma make_exporters_rejects_unknown_names_witness :
  _make_exporters (ExportersNames ["LAST"; "Final"]) 0%nat 1%nat
    = _make_exporters (ExportersNames ["last"; "final"]) 0%nat 1%nat.
Proof.
  apply (make_exporters_rejects_unknown_names
           (ExportersNames ["LAST"; "Final"]) (ExportersNames ["last"; "final"])
           0%nat 1%nat).
  - reflexivity.
  - split; discriminate.
Defined.
